(** * SelfStarter: structured generalization of configuration segments

    A shallow embedding of the template-mining engine of SelfStarter
    (commonFunctions.py, ACL.py, PrefixList.py, MetaTemplater.py, main.py)
    together with the properties of its specification that concern the
    line scorer, the bipartite line matcher, the block aligner, the
    template merger, the predicate builder and the generalization driver. *)

From Stdlib Require Import ZArith Lia Ascii String.
From stdpp Require Import base option list gmap strings pretty sorting.

Open Scope Z_scope.

(** ** Python values and exceptions *)

(** The values stored in a line dictionary: the line number is an int, the
    prefix-list family tag is an int, everything else is a str. *)
Inductive pyval :=
  | PInt (z : Z)
  | PStr (s : string).

Global Instance pyval_eq_dec : EqDecision pyval.
Proof. solve_decision. Defined.

Definition pyval_to_sum (v : pyval) : Z + string :=
  match v with PInt z => inl z | PStr s => inr s end.
Definition pyval_of_sum (v : Z + string) : pyval :=
  match v with inl z => PInt z | inr s => PStr s end.

Global Instance pyval_countable : Countable pyval.
Proof.
  refine (inj_countable' pyval_to_sum pyval_of_sum _).
  by intros [].
Defined.

(** [c in s] for a one-character string [c], and [s.startswith(c)]. *)
Fixpoint containsChar (c : ascii) (s : string) : bool :=
  match s with
  | EmptyString => false
  | String c' s' => if decide (c = c') then true else containsChar c s'
  end.

Definition startsWithChar (c : ascii) (s : string) : bool :=
  match s with
  | EmptyString => false
  | String c' _ => bool_decide (c = c')
  end.

(** [t in s] for strings. *)
Fixpoint isPrefix (t s : string) : bool :=
  match t, s with
  | EmptyString, _ => true
  | String a t', String b s' => bool_decide (a = b) && isPrefix t' s'
  | String _ _, EmptyString => false
  end.

Fixpoint isSubstring (t s : string) : bool :=
  isPrefix t s || match s with
                  | EmptyString => false
                  | String _ s' => isSubstring t s'
                  end.

(** [s.split(c)] for a one-character separator. *)
Fixpoint splitOn (c : ascii) (s : string) : list string :=
  match s with
  | EmptyString => [EmptyString]
  | String c' s' =>
      if decide (c = c') then EmptyString :: splitOn c s'
      else match splitOn c s' with
           | w :: ws => String c' w :: ws
           | [] => [String c' EmptyString]
           end
  end.

(** Python truthiness of a value, and of the result of [dict.get]. *)
Definition truthy (v : pyval) : bool :=
  match v with
  | PInt z => negb (z =? 0)
  | PStr s => negb (String.eqb s "")
  end.

Definition truthy_opt (o : option pyval) : bool :=
  match o with Some v => truthy v | None => false end.

Inductive exn :=
  | KeyError
  | IndexError
  | ValueError
  | TypeError
  | AttributeError
  | NotImplementedError.

Global Instance exn_eq_dec : EqDecision exn.
Proof. solve_decision. Defined.

(** Computations that may raise. *)
Inductive result (A : Type) :=
  | Ok (a : A)
  | Raise (e : exn).
Arguments Ok {A} a.
Arguments Raise {A} e.

Global Instance result_ret : MRet result := @Ok.
Global Instance result_bind : MBind result := λ A B k m,
  match m with Ok a => k a | Raise e => Raise e end.
Global Instance result_fmap : FMap result := λ A B f m,
  match m with Ok a => Ok (f a) | Raise e => Raise e end.

(** [d[k]] on a dictionary: KeyError when the key is missing. *)
Definition getitem `{Lookup K V M} (d : M) (k : K) : result V :=
  match d !! k with Some v => Ok v | None => Raise KeyError end.

(** [l[i]] on a list: IndexError when out of range. *)
Definition listitem {A} (l : list A) (i : nat) : result A :=
  match l !! i with Some v => Ok v | None => Raise IndexError end.

Fixpoint rmapM {A B} (f : A → result B) (l : list A) : result (list B) :=
  match l with
  | [] => Ok []
  | a :: l' => b ← f a; bs ← rmapM f l'; Ok (b :: bs)
  end.

Fixpoint rfoldl {A B} (f : A → B → result A) (a : A) (l : list B) : result A :=
  match l with
  | [] => Ok a
  | b :: l' => a' ← f a b; rfoldl f a' l'
  end.

(** ** Python containers *)

(** A dict whose iteration order matters is kept as an association list in
    insertion order; [od_set] is [d[k] = v] (in place when the key exists,
    appended otherwise). *)
Section odict.
Context {K V : Type} `{EqDecision K}.

Fixpoint od_get (d : list (K * V)) (k : K) : option V :=
  match d with
  | [] => None
  | (k', v) :: d' => if decide (k = k') then Some v else od_get d' k
  end.

Fixpoint od_set (d : list (K * V)) (k : K) (v : V) : list (K * V) :=
  match d with
  | [] => [(k, v)]
  | (k', v') :: d' =>
      if decide (k = k') then (k, v) :: d' else (k', v') :: od_set d' k v
  end.

Fixpoint od_pop (d : list (K * V)) (k : K) : list (K * V) :=
  match d with
  | [] => []
  | (k', v') :: d' =>
      if decide (k = k') then d' else (k', v') :: od_pop d' k
  end.
End odict.

(** [d[k]] on such a dict. *)
Definition od_getitem {K V} `{EqDecision K} (d : list (K * V)) (k : K) : result V :=
  match od_get d k with Some v => Ok v | None => Raise KeyError end.

(** [list.sort] and [sorted]: a stable insertion sort for the order [le]. *)
Section isort.
Context {A : Type} (le : A → A → bool).

Fixpoint sortedInsert (x : A) (l : list A) : list A :=
  match l with
  | [] => [x]
  | y :: l' => if le x y then x :: y :: l' else y :: sortedInsert x l'
  end.

Definition isort (l : list A) : list A := foldr sortedInsert [] l.
End isort.

(** ["P" + str(n)] *)
Definition paramName (n : nat) : pyval := PStr ("P" +:+ pretty n).

(** ** Lines, blocks, segments *)

(** A line is a Python dict from small integers to values. *)
Abbreviation Line := (gmap Z pyval).

Definition LINENUM : Z := -1.
Definition TAG : Z := -2.

Record Block := mkBlock {
  action_type : option string;      (* block.action["type"], possibly None *)
  lines : list Line
}.

Record Segment := mkSegment {
  name : string;
  deviceName : string;
  blocks : list Block;
  configurationFormat : string
}.

(** ** commonFunctions.py: constants *)

Module commonFunctions.
Definition INFINITY : Z := 10000.
End commonFunctions.

(** paramValueMap: parameter name -> Counter of its values. *)
Abbreviation ParamValueMap := (gmap pyval (gmap pyval nat)).

(** The body of the attribute loop shared by both line scorers:
    the amount added to [score] at attribute [i]. *)
Definition attrScore (templateLine deviceLine : Line) (paramValueMap : ParamValueMap)
    (i : nat) : Z :=
  match templateLine !! Z.of_nat i, deviceLine !! Z.of_nat i with
  | Some tv, Some dv =>
      if truthy tv && truthy dv then
        if decide (tv = dv) then 0
        else
          match paramValueMap !! tv with
          | None => 2
          | Some counter =>
              match counter !! dv with
              | None => 2
              | Some _ => 1
              end
          end
      else 2
  | _, _ => 2
  end.

Definition scoreLoop (templateLine deviceLine : Line) (paramValueMap : ParamValueMap)
    (attributes : nat) : Z :=
  foldl (λ score i, score + attrScore templateLine deviceLine paramValueMap i)
        0 (seq 0 attributes).

(** ** ACL.py: flavor constants and line scorer *)

Module ACL.
Definition LINE_PENALTY : Z := 40.
Definition ATTRIBUTES : nat := 20.

Definition GapPenalty (block : Block) : Z :=
  Z.of_nat (length (lines block)) * LINE_PENALTY.

Definition LineSequence (block : Block) : list Line := lines block.

Definition LineScore (templateLine deviceLine : Line)
    (paramValueMap : ParamValueMap) : result Z :=
  tp ← getitem templateLine TAG;
  dp ← getitem deviceLine TAG;
  if decide (tp ≠ dp) then Ok commonFunctions.INFINITY
  else Ok (scoreLoop templateLine deviceLine paramValueMap ATTRIBUTES).

(** The JSON of an IpSpace, restricted to the keys [getSrcOrDstIps] reads;
    a key that is absent is [None]. *)
Record IpSpaceJson := mkIpSpace {
  class : string;
  ipWildcard : option string;
  prefix : option string;
  aclLines : option (list (string * string));  (* action, ipSpace.ipWildcard *)
  ip : option string
}.

Definition field {A} (o : option A) : result A :=
  match o with Some a => Ok a | None => Raise KeyError end.

(** [getSrcOrDstIps(headerSpace, IPtype)], given [headerSpace[IPtype]]
    ([None] when it is null). *)
Definition getSrcOrDstIps (space : option IpSpaceJson) : result (list string) :=
  match space with
  | None => Ok ["0.0.0.0/0"]
  | Some sp =>
      if isSubstring "IpWildcardIpSpace" (class sp) then
        w ← field (ipWildcard sp); Ok [w]
      else if isSubstring "PrefixIpSpace" (class sp) then
        p ← field (prefix sp); Ok [p]
      else if isSubstring "AclIpSpace" (class sp) then
        ls ← field (aclLines sp);
        rmapM (λ dstLine : string * string,
                 if decide ("PERMIT" ≠ dstLine.1) then Raise NotImplementedError
                 else Ok dstLine.2) ls
      else if isSubstring "UniverseIpSpace" (class sp) then Ok ["0.0.0.0/0"]
      else if isSubstring "IpIpSpace" (class sp) then
        a ← field (ip sp); Ok [a +:+ "/32"]
      else Raise NotImplementedError
  end.
End ACL.

(** ** Library routines the engine calls

    [py_hash] is the builtin [hash] applied to the frozenset of the items of
    a line (the line is passed without its line number); [munkres_compute] is
    [Munkres().compute] of the munkres package, which returns the (row,
    column) pairs of an assignment for a rectangular cost matrix. *)
Class Library := {
  py_hash : Line → Z;
  munkres_compute : list (list Z) → list (nat * nat);
  (** [re.compile(patternString).match(segmentName)] *)
  re_match : string → string → bool;
  (** the float comparison [count < SINGLE_PARAM_THRESHOLD * (totalCount / values)] *)
  single_below : nat → nat → nat → bool;
  (** the float comparison [different < SPURIOUS_PARAM_THRESHOLD * total] *)
  spurious_below : nat → nat → bool
}.

(** ** commonFunctions.py: ParametersLinesMap *)

Record ParametersLinesMap := mkPLM {
  counter : nat;
  parameters : gmap string (gmap pyval pyval);     (* device -> param -> value *)
  lineMapping : list (string * list Z);            (* device -> line identities *)
  predicates : list (string * list Z);             (* empty until minimization *)
  groupsList : list (list Z * gset string)         (* empty until minimization *)
}.

Definition withCounter (pl : ParametersLinesMap) (c : nat) :=
  mkPLM c (parameters pl) (lineMapping pl) (predicates pl) (groupsList pl).
Definition withParameters (pl : ParametersLinesMap) p :=
  mkPLM (counter pl) p (lineMapping pl) (predicates pl) (groupsList pl).
Definition withLineMapping (pl : ParametersLinesMap) lm :=
  mkPLM (counter pl) (parameters pl) lm (predicates pl) (groupsList pl).

(** [paramValueMap.setdefault(param, list()).append(value)] followed by the
    conversion of every list into a Counter. *)
Definition counterAdd (paramValueMap : ParamValueMap) (param value : pyval)
    : ParamValueMap :=
  let c := default ∅ (paramValueMap !! param) in
  <[param := <[value := S (default 0%nat (c !! value))]> c]> paramValueMap.

Definition parameterDistribution (pl : ParametersLinesMap) : ParamValueMap :=
  map_fold (λ _ data acc,
              map_fold (λ param value acc', counterAdd acc' param value) acc data)
           ∅ (parameters pl).

Definition addParameter (pl : ParametersLinesMap) (param value : pyval)
    (newDevice : string) : ParametersLinesMap :=
  withParameters pl
    (map_imap (λ device data,
                 Some (if decide (device ≠ newDevice)
                       then <[param := value]> data else data))
              (parameters pl)).

Definition remapLine (oldtoNewLineMap : gmap pyval Z) (x : Z) : Z :=
  default x (oldtoNewLineMap !! PInt x).

Definition remapLineNumbers (pl : ParametersLinesMap)
    (oldtoNewLineMap : gmap pyval Z) : ParametersLinesMap :=
  withLineMapping pl
    (map (λ dl : string * list Z, (dl.1, map (remapLine oldtoNewLineMap) dl.2))
         (lineMapping pl)).

(** [parametersLines.parameters[device][key] = value] *)
Definition setParameter (pl : ParametersLinesMap) (device : string)
    (key value : pyval) : result ParametersLinesMap :=
  data ← getitem (parameters pl) device;
  Ok (withParameters pl (<[device := <[key := value]> data]> (parameters pl))).

(** [enumerate(l)] *)
Definition enumerate {A} (l : list A) : list (nat * A) := imap pair l.

(** [paramCompatableSets]: for every parameter [P<i>], the parameters that
    agree with it on every device defining both, with the number of such
    devices. *)
Definition compatInit (maxParam i : nat) : list (pyval * nat) :=
  (λ j, (paramName j, 0%nat)) <$> filter (λ j, j ≠ i) (seq 0 maxParam).

Definition compatParam (presentParam : pyval) (data : gmap pyval pyval)
    (cs : list (pyval * nat)) (pv : pyval * pyval) : list (pyval * nat) :=
  if decide (pv.1 ≠ presentParam) then
    match data !! presentParam with
    | Some v =>
        match od_get cs pv.1 with
        | Some n => if decide (v = pv.2) then od_set cs pv.1 (S n)
                    else od_pop cs pv.1
        | None => od_pop cs pv.1
        end
    | None => cs
    end
  else cs.

Definition compatDevice (presentParam : pyval) (cs : list (pyval * nat))
    (dd : string * gmap pyval pyval) : list (pyval * nat) :=
  foldl (compatParam presentParam dd.2) cs (map_to_list dd.2).

Definition paramCompatableSets (pl : ParametersLinesMap)
    : list (pyval * list (pyval * nat)) :=
  let maxParam := counter pl in
  (λ i, (paramName i,
         foldl (compatDevice (paramName i)) (compatInit maxParam i)
               (map_to_list (parameters pl)))) <$> seq 0 maxParam.

(** Inner loop of [commonValueParams] over the candidates in descending
    order of their count. *)
Definition commonCandidate (compatableSets : list (pyval * list (pyval * nat)))
    (acc : list pyval * gset pyval) (cn : pyval * nat)
    : result (list pyval * gset pyval) :=
  let '(sameValueParams, done) := acc in
  if decide (0 < cn.2)%nat then
    others ← od_getitem compatableSets cn.1;
    let toAdd := forallb (λ p, bool_decide (is_Some (od_get others p)))
                         sameValueParams in
    if toAdd && bool_decide (cn.1 ∉ done)
    then Ok (sameValueParams ++ [cn.1], {[cn.1]} ∪ done)
    else Ok acc
  else Ok acc.

Definition commonParam (compatableSets : list (pyval * list (pyval * nat)))
    (acc : list (list pyval) * gset pyval) (pc : pyval * list (pyval * nat))
    : result (list (list pyval) * gset pyval) :=
  let '(common, done) := acc in
  if decide (pc.1 ∉ done) then
    '(sameValueParams, done') ←
      rfoldl (commonCandidate compatableSets) ([pc.1], {[pc.1]} ∪ done)
             (isort (λ a b : pyval * nat, (b.2 <=? a.2)%nat) pc.2);
    if decide (1 < length sameValueParams)%nat
    then Ok (common ++ [sameValueParams], done')
    else Ok (common, done')
  else Ok acc.

Definition commonValueParams (pl : ParametersLinesMap) : result (list (list pyval)) :=
  let compatableSets := paramCompatableSets pl in
  fst <$> rfoldl (commonParam compatableSets) ([], ∅) compatableSets.

(** First loop of [predicateGenerator]: the device joins the first group
    with its (sorted) line list, or opens a new group. *)
Fixpoint addToGroups (groupsList : list (list Z * gset string))
    (lines : list Z) (device : string) : list (list Z * gset string) :=
  match groupsList with
  | [] => [(lines, {[device]})]
  | (l, ds) :: gl =>
      if decide (l = lines) then (l, {[device]} ∪ ds) :: gl
      else (l, ds) :: addToGroups gl lines device
  end.

(** [bitMap] has the keys [0 .. totalLines] and is kept as the list of its
    values.  One group appends 1 to the entries of its lines, 0 to the rest. *)
Definition markPresent (bitMap : list (list nat)) (line : Z)
    : result (list (list nat)) :=
  if decide (0 ≤ line < Z.of_nat (length bitMap))
  then Ok (alter (.++ [1%nat]) (Z.to_nat line) bitMap)
  else Raise KeyError.

Definition markGroup (bitMap : list (list nat)) (tuples : list Z * gset string)
    : result (list (list nat)) :=
  bitMap' ← rfoldl markPresent bitMap tuples.1;
  Ok (imap (λ x bits, if decide (Z.of_nat x ∈ tuples.1) then bits
                      else bits ++ [0%nat]) bitMap').

Definition addTruth (sameTruthTable : list (list nat * list Z))
    (lb : nat * list nat) : list (list nat * list Z) :=
  if existsb (λ t : list nat * list Z, bool_decide (t.1 = lb.2)) sameTruthTable
  then (λ t : list nat * list Z,
          if decide (t.1 = lb.2) then (t.1, t.2 ++ [Z.of_nat lb.1]) else t)
         <$> sameTruthTable
  else sameTruthTable ++ [(lb.2, [Z.of_nat lb.1])].

Definition namePredicate (allTrue : list nat)
    (acc : list (string * list Z) * nat) (tuples : list nat * list Z)
    : list (string * list Z) * nat :=
  if decide (tuples.1 ≠ allTrue)
  then (od_set acc.1 ("R" +:+ pretty acc.2) tuples.2, S acc.2)
  else (od_set acc.1 "A" tuples.2, acc.2).

Definition sortedLineMapping (pl : ParametersLinesMap) : list (string * list Z) :=
  (λ dl : string * list Z, (dl.1, isort Z.leb dl.2)) <$> lineMapping pl.

Definition predicateGenerator (pl : ParametersLinesMap) (totalLines : Z)
    : result ParametersLinesMap :=
  let lineMapping' := sortedLineMapping pl in
  let groupsList :=
    foldl (λ gl (dl : string * list Z), addToGroups gl dl.2 dl.1) [] lineMapping' in
  bitMap ← rfoldl markGroup (replicate (Z.to_nat (totalLines + 1)) []) groupsList;
  let sameTruthTable := foldl addTruth [] (enumerate bitMap) in
  let allTrue := replicate (length groupsList) 1%nat in
  let predicates := (foldl (namePredicate allTrue) ([], 0%nat) sameTruthTable).1 in
  Ok (mkPLM (counter pl) (parameters pl) lineMapping' predicates groupsList).

(** The order of the tuples [(predicate, idx)] sorted in
    [groupAndSortPredicates]; comparing [None] with a str raises. *)
Definition tupleLe (a b : option string * nat) : bool :=
  match a.1, b.1 with
  | Some x, Some y => String.ltb x y || (String.eqb x y && (a.2 <=? b.2)%nat)
  | _, _ => (a.2 <=? b.2)%nat
  end.

Definition sortTuples (l : list (option string * nat))
    : result (list (option string * nat)) :=
  if existsb (λ a : option string * nat, bool_decide (a.1 = None)) l
     && existsb (λ a : option string * nat, bool_decide (a.1 ≠ None)) l
  then Raise TypeError
  else Ok (isort tupleLe l).

Definition lookupLine {V} (m : gmap Z V) (v : pyval) : option V :=
  match v with PInt z => m !! z | PStr _ => None end.

(** Renumbering of the lines of one block in predicate order. *)
Definition renumberSorted (block : Block)
    (acc : gmap pyval Z * Z * list Line) (pair : option string * nat)
    : result (gmap pyval Z * Z * list Line) :=
  let '(oldtoNewMap, seqN, modifiedBlockLines) := acc in
  line ← listitem (lines block) pair.2;
  old ← getitem line LINENUM;
  Ok (<[old := seqN]> oldtoNewMap, seqN + 1,
      modifiedBlockLines ++ [<[LINENUM := PInt seqN]> line]).

Definition sortBlock (linePredicateMap : gmap Z string)
    (acc : gmap pyval Z * Z * list Block) (block : Block)
    : result (gmap pyval Z * Z * list Block) :=
  let '(oldtoNewMap, seqN, newBlocks) := acc in
  predicateLineNTuples ←
    rmapM (λ il : nat * Line,
             old ← getitem il.2 LINENUM;
             Ok (lookupLine linePredicateMap old, il.1))
          (enumerate (lines block));
  sorted ← sortTuples predicateLineNTuples;
  '(oldtoNewMap', seqN', modifiedBlockLines) ←
    rfoldl (renumberSorted block) (oldtoNewMap, seqN, []) sorted;
  Ok (oldtoNewMap', seqN',
      newBlocks ++ [mkBlock (action_type block) modifiedBlockLines]).

Definition groupAndSortPredicates (pl : ParametersLinesMap) (metaTemplate : Segment)
    : result (Segment * ParametersLinesMap) :=
  let linePredicateMap : gmap Z string :=
    foldl (λ m (pls : string * list Z), foldl (λ m' line, <[line := pls.1]> m') m pls.2)
          ∅ (predicates pl) in
  '(oldtoNewMap, _, newBlocks) ←
    rfoldl (sortBlock linePredicateMap) (∅, 0, []) (blocks metaTemplate);
  let pl1 := remapLineNumbers pl oldtoNewMap in
  newPredicateLineMap ←
    rmapM (λ pls : string * list Z,
             ls ← rmapM (λ line, getitem oldtoNewMap (PInt line)) pls.2;
             Ok (pls.1, ls))
          (predicates pl);
  newgroupsList ←
    rmapM (λ tuples : list Z * gset string,
             ls ← rmapM (λ l, getitem oldtoNewMap (PInt l)) tuples.1;
             Ok (ls, tuples.2))
          (groupsList pl);
  Ok (mkSegment (name metaTemplate) (deviceName metaTemplate) newBlocks
                (configurationFormat metaTemplate),
      mkPLM (counter pl1) (parameters pl1) (lineMapping pl1)
            newPredicateLineMap newgroupsList).

(** [exactMap]: device -> (devices with an equal definition, its JSON); only
    the first component is used here. *)
Fixpoint updateGroup (groupsList : list (list Z * gset string)) (device : string)
    (exactOnes : list string) : list (list Z * gset string) :=
  match groupsList with
  | [] => []
  | (l, ds) :: gl =>
      if decide (device ∈ ds) then (l, list_to_set exactOnes ∪ ds) :: gl
      else (l, ds) :: updateGroup gl device exactOnes
  end.

Definition addExactRouter (acc : ParametersLinesMap * list nat)
    (de : string * list string) : result (ParametersLinesMap * list nat) :=
  let '(pl, groupSizes) := acc in
  let groupsList' := updateGroup (groupsList pl) de.1 de.2 in
  myMapping ← od_getitem (lineMapping pl) de.1;
  myParams ← getitem (parameters pl) de.1;
  Ok (mkPLM (counter pl)
            (foldl (λ ps r, <[r := myParams]> ps) (parameters pl) de.2)
            (foldl (λ lm r, od_set lm r myMapping) (lineMapping pl) de.2)
            (predicates pl) groupsList',
      groupSizes ++ [S (length de.2)]).

Definition addExactRouters (pl : ParametersLinesMap)
    (exactMap : list (string * list string))
    : result (ParametersLinesMap * list nat) :=
  '(pl', groupSizes) ← rfoldl addExactRouter (pl, []) exactMap;
  Ok (pl', isort (λ a b, (b <=? a)%nat) groupSizes).

(** [formatGroups] sorts the groups by decreasing size; the text it builds
    is not kept. *)
Definition formatGroups (pl : ParametersLinesMap) : ParametersLinesMap :=
  mkPLM (counter pl) (parameters pl) (lineMapping pl) (predicates pl)
        (isort (λ a b : list Z * gset string, (size b.2 <=? size a.2)%nat)
               (groupsList pl)).

Section questions.
Context `{Library}.

(** One entry per line of text appended to [differences]. *)
Definition spuriousPair (pl : ParametersLinesMap) (i j : nat)
    : list (nat * nat * list string) :=
  let both :=
    filter (λ rd : string * gmap pyval pyval,
              is_Some (rd.2 !! paramName i) ∧ is_Some (rd.2 !! paramName j))
           (map_to_list (parameters pl)) in
  let different :=
    filter (λ rd : string * gmap pyval pyval,
              rd.2 !! paramName i ≠ rd.2 !! paramName j) both in
  if spurious_below (length different) (length both)
     && bool_decide (0 < length different)%nat
  then [(i, j, different.*1)] else [].

Definition spuriousParamQuestions (pl : ParametersLinesMap)
    : list (nat * nat * list string) :=
  i ← seq 0 (counter pl);
  j ← seq (S i) (counter pl - S i);
  spuriousPair pl i j.

(** [paramCountMap]: parameter -> value -> devices holding it. *)
Definition countValue (router : string)
    (paramCountMap : gmap pyval (gmap pyval (list string)))
    (pv : pyval * pyval) : gmap pyval (gmap pyval (list string)) :=
  let values := default ∅ (paramCountMap !! pv.1) in
  <[pv.1 := <[pv.2 := default [] (values !! pv.2) ++ [router]]> values]>
    paramCountMap.

Definition paramCounts (pl : ParametersLinesMap)
    : gmap pyval (gmap pyval (list string)) :=
  foldl (λ m (rd : string * gmap pyval pyval),
           foldl (countValue rd.1) m (map_to_list rd.2))
        ∅ (map_to_list (parameters pl)).

Definition singleParamQuestions (pl : ParametersLinesMap)
    : list (pyval * pyval * list string) :=
  pv ← map_to_list (paramCounts pl);
  let totalCount := sum_list_with (λ vr : pyval * list string, length vr.2)
                                  (map_to_list pv.2) in
  vr ← map_to_list pv.2;
  if single_below (length vr.2) totalCount (size pv.2)
  then [(pv.1, vr.1, vr.2)] else [].
End questions.

(** ** Parsed configurations and the exact-equality bookkeeping *)

(** [deviceInfo]: the vendor tag and, per flavor key ([ipAccessLists],
    [routeFilterLists], ...), the segments by name.  [J] is the type of
    segment JSON of the flavor. *)
Record DeviceInfo (J : Type) := mkDeviceInfo {
  di_configurationFormat : string;
  di_sections : list (string * list (string * J))
}.
Arguments mkDeviceInfo {J} _ _.
Arguments di_configurationFormat {J} _.
Arguments di_sections {J} _.

(** The sets and the map that [GetBlockSequence] updates for its caller;
    [exactDefMatchMap] sends a retained device to the devices with an equal
    definition and to its JSON. *)
Record Scan (J : Type) := mkScan {
  foundDevices : gset string;
  emptyDefDevices : gset string;
  exactDefMatchMap : list (string * (list string * J))
}.
Arguments mkScan {J} _ _ _.
Arguments foundDevices {J} _.
Arguments emptyDefDevices {J} _.
Arguments exactDefMatchMap {J} _.

Section checkJSONEquality.
Context {J : Type} `{EqDecision J}.

(** On segment JSON [instanceCheck] is structural equality. *)
Definition instanceCheck (u v : J) : bool := bool_decide (u = v).

Definition setAdd (l : list string) (x : string) : list string :=
  if decide (x ∈ l) then l else l ++ [x].

(** The loop of [checkJSONEquality]: the first entry with an equal JSON
    records the router. *)
Fixpoint recordExact (exisitingMap : list (string * (list string * J)))
    (newJson : J) (router : string)
    : option (list (string * (list string * J))) :=
  match exisitingMap with
  | [] => None
  | (r, (exact, eJson)) :: rest =>
      if instanceCheck eJson newJson
      then Some ((r, (setAdd exact router, eJson)) :: rest)
      else ((r, (exact, eJson)) ::.) <$> recordExact rest newJson router
  end.

Definition checkJSONEquality (exisitingMap : list (string * (list string * J)))
    (newJson : J) (router : string)
    : list (string * (list string * J)) * bool :=
  match recordExact exisitingMap newJson router with
  | Some m => (m, true)
  | None => (od_set exisitingMap router ([], newJson), false)
  end.
End checkJSONEquality.

(** ** PrefixList.py *)

Module PrefixList.
Definition LINE_PENALTY : Z := 14.
Definition ATTRIBUTES : nat := 11.

Definition GapPenalty (block : Block) : Z :=
  Z.of_nat (length (lines block)) * LINE_PENALTY.

Definition LineSequence (block : Block) : list Line := lines block.

Definition LineScore (templateLine deviceLine : Line)
    (paramValueMap : ParamValueMap) : result Z :=
  Ok (scoreLoop templateLine deviceLine paramValueMap ATTRIBUTES).

Section BipartiteMatching.
Context `{Library}.

(** [hash(frozenset(filter(lambda a: a[0] != LINENUM, l.items())))] *)
Definition lineHash (l : Line) : Z := py_hash (delete LINENUM l).

(** First loop: [ls1HashMap.setdefault(hash, list()).append(i)]. *)
Definition hashAdd (ls1HashMap : gmap Z (list nat)) (il : nat * Line)
    : gmap Z (list nat) :=
  let h := lineHash il.2 in
  <[h := default [] (ls1HashMap !! h) ++ [il.1]]> ls1HashMap.

Record Shortcut := mkShortcut {
  ls1HashMap : gmap Z (list nat);
  ls1Matched : gset nat;
  ls2Matched : gset nat;
  matched : list (nat * nat)
}.

(** Second loop: claim the last unclaimed LS1 position with the hash of
    the LS2 line, if any. *)
Definition hashPop (st : Shortcut) (jl : nat * Line) : Shortcut :=
  let hashValue := lineHash jl.2 in
  match ls1HashMap st !! hashValue with
  | Some matches =>
      match last matches with
      | Some i =>
          {| ls1HashMap :=
               if decide (length matches = 1%nat)
               then delete hashValue (ls1HashMap st)
               else <[hashValue := removelast matches]> (ls1HashMap st);
             ls1Matched := {[i]} ∪ ls1Matched st;
             ls2Matched := {[jl.1]} ∪ ls2Matched st;
             matched := matched st ++ [(i, jl.1)] |}
      | None => st
      end
  | None => st
  end.

Definition hashShortcut (LS1 LS2 : list Line) : Shortcut :=
  foldl hashPop
    {| ls1HashMap := foldl hashAdd ∅ (enumerate LS1);
       ls1Matched := ∅; ls2Matched := ∅; matched := [] |}
    (enumerate LS2).

(** The lines left over by the shortcut, each with its position in the
    original sequence: the second components are [newLS1], the first
    components are [ls1Map] (its keys are [0 .. len(newLS1)-1]). *)
Definition leftover (LS : list Line) (lsMatched : gset nat)
    : list (nat * Line) :=
  filter (λ il, il.1 ∉ lsMatched) (enumerate LS).

Definition similarityMatrix (LineScoreFunc : Line → Line → ParamValueMap → result Z)
    (newLS1 newLS2 : list Line) (paramValueMap : ParamValueMap)
    : result (list (list Z)) :=
  rmapM (λ tline,
           rmapM (λ dline, LineScoreFunc tline dline paramValueMap) newLS2)
        newLS1.

(** Body of the loop over the solver's pairs. *)
Definition solverStep (sim : list (list Z)) (ls1Map ls2Map : list nat)
    (linePenalty : Z) (acc : list (nat * nat) * Z) (xy : nat * nat)
    : result (list (nat * nat) * Z) :=
  row ← listitem sim xy.1;
  c ← listitem row xy.2;
  if decide (c ≠ commonFunctions.INFINITY) then
    i ← getitem ls1Map xy.1;
    j ← getitem ls2Map xy.2;
    Ok (acc.1 ++ [(i, j)], acc.2 + c)
  else Ok (acc.1, acc.2 + linePenalty).

(** The entities picked from the number of attributes. *)
Definition LineScoreFunc (noOfAttributes : nat)
    : Line → Line → ParamValueMap → result Z :=
  if decide (noOfAttributes = ATTRIBUTES) then LineScore else ACL.LineScore.

Definition linePenalty (noOfAttributes : nat) : Z :=
  if decide (noOfAttributes = ATTRIBUTES) then LINE_PENALTY else ACL.LINE_PENALTY.

Definition BipartiteMatching (LS1 LS2 : list Line)
    (paramValueMap : ParamValueMap) (noOfAttributes : nat)
    : result (Z * list (nat * nat)) :=
  let LineScoreFunc := LineScoreFunc noOfAttributes in
  let linePenalty := linePenalty noOfAttributes in
  let st := hashShortcut LS1 LS2 in
  let left1 := leftover LS1 (ls1Matched st) in
  let left2 := leftover LS2 (ls2Matched st) in
  sim ← similarityMatrix LineScoreFunc left1.*2 left2.*2 paramValueMap;
  '(matched, matchScore) ←
    (if decide (0 < length sim)%nat then
       rfoldl (solverStep sim left1.*1 left2.*1 linePenalty)
              (matched st, 0) (munkres_compute sim)
     else Ok (matched st, 0));
  Ok (matchScore
      + linePenalty * Z.abs (Z.of_nat (length LS1) - Z.of_nat (length LS2)),
      matched).
End BipartiteMatching.

(** *** The template merger *)

(** What [MergeLines] and [TemplateGenerator] mutate while merging. *)
Record Merge := mkMerge {
  parametersLines : ParametersLinesMap;
  oldtoNewLineMap : gmap pyval Z;
  newDeviceLines : list Z;
  lineNum : Z
}.

Definition leftout (n : nat) (tmp : list nat) : list nat :=
  filter (λ i, i ∉ tmp) (seq 0 n).

(** First pass of [MergeLines]: a template line that is not matched. *)
Definition templateOnly (templateLeftout : list nat)
    (acc : Merge * list Line) (il : nat * Line) : result (Merge * list Line) :=
  let '(st, combinedLines) := acc in
  if decide (il.1 ∈ templateLeftout) then
    old ← getitem il.2 LINENUM;
    Ok (mkMerge (parametersLines st)
                (<[old := lineNum st]> (oldtoNewLineMap st))
                (newDeviceLines st)
                (lineNum st + 1),
        combinedLines ++ [<[LINENUM := PInt (lineNum st)]> il.2])
  else Ok acc.

(** Second pass: a device line that is not matched. *)
Definition deviceOnly (deviceLeftout : list nat)
    (acc : Merge * list Line) (il : nat * Line) : Merge * list Line :=
  let '(st, combinedLines) := acc in
  if decide (il.1 ∈ deviceLeftout) then
    (mkMerge (parametersLines st)
             (oldtoNewLineMap st)
             (newDeviceLines st ++ [lineNum st])
             (lineNum st + 1),
     combinedLines ++ [<[LINENUM := PInt (lineNum st)]> il.2])
  else acc.

(** Allocation of a fresh parameter for attribute [a] of the merged line. *)
Definition newParameter (pl : ParametersLinesMap) (device : string)
    (line : Line) (a : Z) (templateValue deviceValue : pyval)
    : result (ParametersLinesMap * Line) :=
  let param := paramName (counter pl) in
  pl1 ← setParameter (withCounter pl (S (counter pl))) device param deviceValue;
  Ok (addParameter pl1 param templateValue device, <[a := param]> line).

(** Body of the attribute loop of the third pass. *)
Definition mergeAttribute (paramValueMap : ParamValueMap) (device : string)
    (tLine dLine : Line) (acc : ParametersLinesMap * Line) (attribute : nat)
    : result (ParametersLinesMap * Line) :=
  let a := Z.of_nat attribute in
  if truthy_opt (tLine !! a) && truthy_opt (dLine !! a) then
    tv ← getitem tLine a;
    dv ← getitem dLine a;
    if decide (tv ≠ dv) then
      match paramValueMap !! tv with
      | None => newParameter acc.1 device acc.2 a tv dv
      | Some _ => pl ← setParameter acc.1 device tv dv; Ok (pl, acc.2)
      end
    else Ok acc
  else if truthy_opt (dLine !! a) then
    dv ← getitem dLine a;
    newParameter acc.1 device acc.2 a (PStr "") dv
  else Ok acc.

(** Third pass: a matched pair. *)
Definition mergePair (paramValueMap : ParamValueMap) (device : string)
    (noOfAttributes : nat) (templateLines deviceLines : list Line)
    (acc : Merge * list Line) (ij : nat * nat) : result (Merge * list Line) :=
  let '(st, combinedLines) := acc in
  tLine ← listitem templateLines ij.1;
  dLine ← listitem deviceLines ij.2;
  '(pl, line) ← rfoldl (mergeAttribute paramValueMap device tLine dLine)
                       (parametersLines st, tLine) (seq 0 noOfAttributes);
  old ← getitem line LINENUM;
  Ok (mkMerge pl
              (<[old := lineNum st]> (oldtoNewLineMap st))
              (newDeviceLines st ++ [lineNum st])
              (lineNum st + 1),
      combinedLines ++ [<[LINENUM := PInt (lineNum st)]> line]).

Definition MergeLines (templateLines deviceLines : list Line) (st : Merge)
    (matching : list (nat * nat)) (device : string) (noOfAttributes : nat)
    : result (list Line * Merge) :=
  let paramValueMap := parameterDistribution (parametersLines st) in
  let templateLeftout := leftout (length templateLines) matching.*1 in
  let deviceLeftout := leftout (length deviceLines) matching.*2 in
  acc1 ← rfoldl (templateOnly templateLeftout) (st, []) (enumerate templateLines);
  let acc2 := foldl (deviceOnly deviceLeftout) acc1 (enumerate deviceLines) in
  acc3 ← rfoldl (mergePair paramValueMap device noOfAttributes
                           templateLines deviceLines) acc2 matching;
  Ok (acc3.2, acc3.1).

(** A block of the new device aligned with a gap. *)
Definition renumberDevice (acc : Merge * list Line) (line : Line)
    : Merge * list Line :=
  let '(st, ls) := acc in
  (mkMerge (parametersLines st) (oldtoNewLineMap st)
           (newDeviceLines st ++ [lineNum st]) (lineNum st + 1),
   ls ++ [<[LINENUM := PInt (lineNum st)]> line]).

(** A block of the meta-template aligned with a gap. *)
Definition renumberTemplate (acc : Merge * list Line) (line : Line)
    : result (Merge * list Line) :=
  let '(st, ls) := acc in
  old ← getitem line LINENUM;
  Ok (mkMerge (parametersLines st) (<[old := lineNum st]> (oldtoNewLineMap st))
              (newDeviceLines st) (lineNum st + 1),
      ls ++ [<[LINENUM := PInt (lineNum st)]> line]).

(** Body of the loop of [TemplateGenerator]; an aligned gap ([[]] in the
    source) is [None].  The state carries the merged blocks and the index
    [j] of the next line matching. *)
Definition generateStep (lineMatchings : list (list (nat * nat)))
    (device : string) (noOfAttributes : nat)
    (acc : Merge * list Block * nat) (vw : option Block * option Block)
    : result (Merge * list Block * nat) :=
  let '(st, mergedBlocks, j) := acc in
  match vw with
  | (None, None) => Ok acc
  | (None, Some b2) =>
      let '(st', ls) := foldl renumberDevice (st, []) (lines b2) in
      Ok (st', mergedBlocks ++ [mkBlock (action_type b2) ls], j)
  | (Some v, None) =>
      '(st', ls) ← rfoldl renumberTemplate (st, []) (lines v);
      Ok (st', mergedBlocks ++ [mkBlock (action_type v) ls], j)
  | (Some v, Some b2) =>
      matching ← listitem lineMatchings j;
      '(ls, st') ← MergeLines (lines v) (lines b2) st matching device
                              noOfAttributes;
      Ok (st', mergedBlocks ++ [mkBlock (action_type v) ls], S j)
  end.

Definition TemplateGenerator (block1Alignment block2Alignment : list (option Block))
    (lineMatchings : list (list (nat * nat))) (pl : ParametersLinesMap)
    (device : string) (noOfAttributes : nat)
    : result (list Block * ParametersLinesMap) :=
  if decide (length block1Alignment ≠ length block2Alignment)
  then Raise ValueError
  else
    '(st, mergedBlocks, _) ←
      rfoldl (generateStep lineMatchings device noOfAttributes)
             (mkMerge pl ∅ [] 0, [], 0%nat)
             (zip block1Alignment block2Alignment);
    let pl' := remapLineNumbers (parametersLines st) (oldtoNewLineMap st) in
    Ok (mergedBlocks,
        withLineMapping pl' (od_set (lineMapping pl') device (newDeviceLines st))).

(** *** The parameter minimizer *)

(** A pass over every line of the meta-template, in block and line order,
    threading a state. *)
Definition mapBlockM {S} (f : S → Line → result (S * Line))
    (acc : S * list Block) (block : Block) : result (S * list Block) :=
  '(st, ls) ← rfoldl (λ (a : S * list Line) line,
                        '(st', line') ← f a.1 line; Ok (st', a.2 ++ [line']))
                     (acc.1, []) (lines block);
  Ok (st, acc.2 ++ [mkBlock (action_type block) ls]).

Definition mapLinesM {S} (f : S → Line → result (S * Line)) (st : S)
    (bs : list Block) : result (S * list Block) :=
  rfoldl (mapBlockM f) (st, []) bs.

Definition withBlocks (metaTemplate : Segment) (bs : list Block) : Segment :=
  mkSegment (name metaTemplate) (deviceName metaTemplate) bs
            (configurationFormat metaTemplate).

Definition eraseAttribute (replaceWith : pyval) (eraseList : list pyval)
    (line : Line) (attribute : nat) : result Line :=
  v ← getitem line (Z.of_nat attribute);
  if decide (v ∈ eraseList) then Ok (<[Z.of_nat attribute := replaceWith]> line)
  else Ok line.

Definition eraseDevice (replaceWith : pyval) (eraseList : list pyval)
    (data : gmap pyval pyval) : gmap pyval pyval :=
  let '(data', value) :=
    foldl (λ (a : gmap pyval pyval * option pyval) removals,
             match a.1 !! removals with
             | Some v => (delete removals a.1, Some v)
             | None => a
             end)
          (data, None) eraseList in
  match data' !! replaceWith, value with
  | None, Some v => <[replaceWith := v]> data'
  | _, _ => data'
  end.

Definition ModifyErase (metaTemplate : Segment) (pl : ParametersLinesMap)
    (replaceWith : pyval) (eraseList : list pyval) (noOfAttributes : nat)
    : result (Segment * ParametersLinesMap) :=
  '(_, bs) ← mapLinesM (λ (_ : unit) line,
                          line' ← rfoldl (eraseAttribute replaceWith eraseList)
                                         line (seq 0 noOfAttributes);
                          Ok (tt, line'))
                       tt (blocks metaTemplate);
  Ok (withBlocks metaTemplate bs,
      withParameters pl (eraseDevice replaceWith eraseList <$> parameters pl)).

Definition remapAttribute (acc : gmap pyval pyval * nat * Line) (attribute : nat)
    : result (gmap pyval pyval * nat * Line) :=
  let '(oldtoNewParamMap, count, line) := acc in
  v ← getitem line (Z.of_nat attribute);
  match v with
  | PInt _ => Raise AttributeError
  | PStr s =>
      if startsWithChar "P" s then
        match oldtoNewParamMap !! v with
        | Some new =>
            if truthy new
            then Ok (oldtoNewParamMap, count, <[Z.of_nat attribute := new]> line)
            else Ok (<[v := paramName count]> oldtoNewParamMap, S count,
                     <[Z.of_nat attribute := paramName count]> line)
        | None =>
            Ok (<[v := paramName count]> oldtoNewParamMap, S count,
                <[Z.of_nat attribute := paramName count]> line)
        end
      else Ok acc
  end.

(** The keys of one device's parameters renamed; by construction the new
    keys are distinct. *)
Definition renameKeys (oldtoNewParamMap : gmap pyval pyval)
    (data : gmap pyval pyval) : gmap pyval pyval :=
  foldl (λ newMap (kv : pyval * pyval),
           <[default kv.1 (oldtoNewParamMap !! kv.1) := kv.2]> newMap)
        ∅ (map_to_list data).

Definition RemapParameters (metaTemplate : Segment) (pl : ParametersLinesMap)
    (noOfAttributes : nat) : result (Segment * ParametersLinesMap) :=
  '(oc, bs) ←
    mapLinesM (λ (oc : gmap pyval pyval * nat) line,
                 '(o, c, line') ← rfoldl remapAttribute (oc.1, oc.2, line)
                                         (seq 0 noOfAttributes);
                 Ok ((o, c), line'))
              (∅, 0%nat) (blocks metaTemplate);
  Ok (withBlocks metaTemplate bs,
      mkPLM oc.2 (renameKeys oc.1 <$> parameters pl) (sortedLineMapping pl)
            (predicates pl) (groupsList pl)).

(** [lineParamMap]: line number -> the parameters on that line. *)
Definition paramsOfAttribute (line : Line)
    (lineParamMap : gmap pyval (gset pyval)) (attribute : nat)
    : result (gmap pyval (gset pyval)) :=
  v ← getitem line (Z.of_nat attribute);
  match v with
  | PInt _ => Raise TypeError
  | PStr s =>
      if containsChar "P" s then
        n ← getitem line LINENUM;
        Ok (<[n := {[v]} ∪ default ∅ (lineParamMap !! n)]> lineParamMap)
      else Ok lineParamMap
  end.

Definition lineParams (metaTemplate : Segment) (noOfAttributes : nat)
    : result (gmap pyval (gset pyval)) :=
  rfoldl (λ m block,
            rfoldl (λ m' line,
                      rfoldl (paramsOfAttribute line) m' (seq 0 noOfAttributes))
                   m (lines block))
         ∅ (blocks metaTemplate).

(** Removal of the parameters of a device that occur on none of its lines. *)
Definition pruneDevice (lineParamMap : gmap pyval (gset pyval))
    (pl : ParametersLinesMap) (dl : string * list Z) : result ParametersLinesMap :=
  let myParam : gset pyval :=
    foldl (λ acc lineNumber, default ∅ (lineParamMap !! PInt lineNumber) ∪ acc)
          ∅ dl.2 in
  data ← getitem (parameters pl) dl.1;
  Ok (withParameters pl
        (<[dl.1 := filter (λ kv, kv.1 ∈ myParam) data]> (parameters pl))).

Definition lastLineNumber (metaTemplate : Segment) : result Z :=
  match last (blocks metaTemplate) with
  | None => Raise IndexError
  | Some block =>
      match last (lines block) with
      | None => Raise IndexError
      | Some line =>
          v ← getitem line LINENUM;
          match v with PInt z => Ok z | PStr _ => Raise TypeError end
      end
  end.

Definition MinimizeParameters (metaTemplate : Segment) (pl : ParametersLinesMap)
    (noOfAttributes : nat) : result (Segment * ParametersLinesMap) :=
  lineParamMap ← lineParams metaTemplate noOfAttributes;
  pl1 ← rfoldl (pruneDevice lineParamMap) pl (lineMapping pl);
  common ← commonValueParams pl1;
  '(mt2, pl2) ←
    rfoldl (λ (a : Segment * ParametersLinesMap) (x : list pyval),
              match x with
              | [] => Raise IndexError
              | r :: e => ModifyErase a.1 a.2 r e noOfAttributes
              end)
           (metaTemplate, pl1) common;
  totalLines ← lastLineNumber mt2;
  pl3 ← predicateGenerator pl2 totalLines;
  '(mt4, pl4) ← groupAndSortPredicates pl3 mt2;
  RemapParameters mt4 pl4 noOfAttributes.

(** [PrintTemplate] without the rendering: the groups are sorted by
    [formatGroups], and the template is reported (the first component of
    the result is the non-empty text in the source, [None] otherwise)
    when there are several groups or some outlier question. *)
Section PrintTemplate.
Context `{Library}.

Definition PrintTemplate (metaTemplate : Segment) (pl : ParametersLinesMap)
    (noOfAttributes : nat)
    : ParametersLinesMap
      * option (list (pyval * pyval * list string)
                * list (nat * nat * list string)) :=
  let pl' := formatGroups pl in
  let singleParamDifferences := singleParamQuestions pl' in
  let spuriousParamDifferences := spuriousParamQuestions pl' in
  if decide ((1 < length (groupsList pl'))%nat
             ∨ singleParamDifferences ≠ []
             ∨ spuriousParamDifferences ≠ [])
  then (pl', Some (singleParamDifferences, spuriousParamDifferences))
  else (pl', None).
End PrintTemplate.

(** *** Parsing *)

(** One entry of the [lines] array of a route filter list. *)
Record PrefixJson := mkPrefixJson {
  action : string;
  ipWildcard : string;
  lengthRange : string
}.

(** [Block.__init__]: the encoding of one entry as a line. *)
Definition encodeLine (lineNum : Z) (prefix : PrefixJson) : result Line :=
  let line : Line := {[LINENUM := PInt lineNum]} in
  line ← match splitOn "-" (lengthRange prefix) with
         | [lo; hi] => Ok (<[2 := PStr hi]> (<[1 := PStr lo]> line))
         | _ => Raise ValueError
         end;
  let parts := splitOn "/" (ipWildcard prefix) in
  let v6 := containsChar ":" (ipWildcard prefix) in
  let line := <[TAG := PInt (if v6 then 1 else 0)]> line in
  line ← (if containsChar "/" (ipWildcard prefix) then
            len ← listitem parts 1; Ok (<[0 := PStr len]> line)
          else Ok (<[0 := PStr (if v6 then "128" else "32")]> line));
  prefixIP ← listitem parts 0;
  let line :=
    foldl (λ l (io : nat * string), <[Z.of_nat io.1 + 3 := PStr io.2]> l)
          line (enumerate (splitOn (if v6 then ":" else ".") prefixIP)) in
  if v6 then Ok line
  else Ok (<[10 := PStr "0"]> (<[9 := PStr "0"]> (<[8 := PStr "0"]>
            (<[7 := PStr "0"]> line)))).

Definition Block_init (lineNum : Z) (action : option string)
    (blockJson : list PrefixJson) : result Block :=
  ls ← rmapM (λ ip : nat * PrefixJson, encodeLine (lineNum + Z.of_nat ip.1) ip.2)
             (enumerate blockJson);
  Ok (mkBlock action ls).

Record Blocks := mkBlocks {
  presentAction : option string;
  block : list PrefixJson;
  startingLineNumber : Z;
  parsed : list Block
}.

Definition createStep (st : Blocks) (il : nat * PrefixJson) : result Blocks :=
  if bool_decide (presentAction st = None ∨ presentAction st = Some "") then
    Ok (mkBlocks (Some (action il.2)) (block st ++ [il.2])
                 (startingLineNumber st) (parsed st))
  else if decide (presentAction st ≠ Some (action il.2)) then
    b ← Block_init (startingLineNumber st) (presentAction st) (block st);
    Ok (mkBlocks (Some (action il.2)) [il.2] (Z.of_nat il.1) (parsed st ++ [b]))
  else
    Ok (mkBlocks (presentAction st) (block st ++ [il.2])
                 (startingLineNumber st) (parsed st)).

Definition createBlocks (prefixListJson : list PrefixJson) : result (list Block) :=
  st ← rfoldl createStep (mkBlocks None [] 0 []) (enumerate prefixListJson);
  b ← Block_init (startingLineNumber st) (presentAction st) (block st);
  Ok (parsed st ++ [b]).

Definition PrefixList_init (prefixListName device : string)
    (prefixListJson : list PrefixJson) (configurationFormat : string)
    : result Segment :=
  bs ← createBlocks prefixListJson;
  Ok (mkSegment prefixListName device bs configurationFormat).

Global Instance PrefixJson_eq_dec : EqDecision PrefixJson.
Proof. solve_decision. Defined.

Section GetBlockSequence.
Context `{Library}.

Definition totalLinesOf (parsedSegment : Segment) : result Z :=
  lastLineNumber parsedSegment.

Definition nonEmpty (parsedSegment : Segment) : bool :=
  match blocks parsedSegment with
  | [] => false
  | b :: _ => bool_decide (0 < length (lines b))%nat
  end.

(** Body of the loop over the segments of one device. *)
Definition scanSegment (device : string)
    (deviceInfo : DeviceInfo (list PrefixJson)) (pattern : string)
    (acc : list Segment * list Z * Scan (list PrefixJson))
    (sj : string * list PrefixJson)
    : result (list Segment * list Z * Scan (list PrefixJson)) :=
  let '(patternMatchSegments, patternMatchSegmentsLineCounts, scan) := acc in
  if re_match pattern sj.1 then
    let rname := if decide (device ∈ foundDevices scan)
                 then device +:+ "#" +:+ sj.1 else device in
    parsedSegment ← PrefixList_init sj.1 rname sj.2
                                    (di_configurationFormat deviceInfo);
    if nonEmpty parsedSegment then
      let found := {[rname]} ∪ foundDevices scan in
      let '(exact, equal) :=
        checkJSONEquality (exactDefMatchMap scan) sj.2 rname in
      if equal then
        Ok (patternMatchSegments, patternMatchSegmentsLineCounts,
            mkScan found (emptyDefDevices scan) exact)
      else
        totalLines ← totalLinesOf parsedSegment;
        Ok (patternMatchSegments ++ [parsedSegment],
            patternMatchSegmentsLineCounts ++ [totalLines],
            mkScan found (emptyDefDevices scan) exact)
    else
      Ok (patternMatchSegments, patternMatchSegmentsLineCounts,
          mkScan (foundDevices scan) ({[rname]} ∪ emptyDefDevices scan)
                 (exactDefMatchMap scan))
  else Ok acc.

Definition GetBlockSequence (device : string)
    (deviceInfo : DeviceInfo (list PrefixJson)) (pattern : string)
    (scan : Scan (list PrefixJson))
    : result (list Segment * list Z * Scan (list PrefixJson)) :=
  match od_get (di_sections deviceInfo) "routeFilterLists" with
  | Some ((_ :: _) as segments) =>
      rfoldl (scanSegment device deviceInfo pattern) ([], [], scan) segments
  | _ => Ok ([], [], scan)
  end.
End GetBlockSequence.
End PrefixList.

(** ** commonFunctions.py: matrixCell *)

(** A cell of the alignment matrix.  The source keeps the pointer as a
    one-element list ([-1] undefined, [0] border, [1] diagonal, [2] gap in
    block sequence 1, [3] gap in block sequence 2); only its element is kept
    here. *)
Record matrixCell := mkCell {
  score : Z;
  pointer : Z;
  matchedLines : list (nat * nat)
}.

Definition newCell : matrixCell := mkCell 0 (-1) [].

(** ** MetaTemplater.py *)

Module MetaTemplater.

(** The keyword arguments [**functions] used by the aligner. *)
Record Functions := mkFunctions {
  GapPenalty : Block → Z;
  GetLineSequence : Block → list Line;
  MinimumWeightBipartiteMatching :
    list Line → list Line → ParamValueMap → nat → result (Z * list (nat * nat));
  GenerateTemplate :
    list (option Block) → list (option Block) → list (list (nat * nat)) →
    ParametersLinesMap → string → nat → result (list Block * ParametersLinesMap);
  MinimizeParameters :
    Segment → ParametersLinesMap → nat → result (Segment * ParametersLinesMap);
  PrintTemplate :
    Segment → ParametersLinesMap → nat →
    ParametersLinesMap * option (list (pyval * pyval * list string)
                                 * list (nat * nat * list string));
  NumberOfAttributes : nat
}.

Definition MisMatchScore (block1 block2 : Block) (paramValueMap : ParamValueMap)
    (GetLineSequence : Block → list Line)
    (MinimumWeightBipartiteMatching :
       list Line → list Line → ParamValueMap → nat → result (Z * list (nat * nat)))
    (noOfAttributes : nat) : result (Z * list (nat * nat)) :=
  if decide (action_type block1 ≠ action_type block2)
  then Ok (commonFunctions.INFINITY, [])
  else
    let LS1 := GetLineSequence block1 in
    let LS2 := GetLineSequence block2 in
    MinimumWeightBipartiteMatching LS1 LS2 paramValueMap noOfAttributes.

(** [dp[i][j]]; the matrix has [m+1] rows of [n+1] cells and the loops
    stay inside it. *)
Definition cell (dp : list (list matrixCell)) (i j : nat) : matrixCell :=
  default newCell (dp !! i ≫= (.!! j)).

Definition setCell (dp : list (list matrixCell)) (i j : nat) (c : matrixCell)
    : list (list matrixCell) :=
  alter (<[j := c]>) i dp.

Section AlignSequences.
Variable functions : Functions.

Definition initMatrix (m n : nat) : list (list matrixCell) :=
  replicate (S m) (replicate (S n) newCell).

(** [dp[i][0]] for [i = k+1], where [block = bs1.blocks[k]]. *)
Definition firstColumn (dp : list (list matrixCell)) (kb : nat * Block)
    : list (list matrixCell) :=
  let i := S kb.1 in
  setCell dp i 0
    (mkCell (score (cell dp (i - 1) 0) + GapPenalty functions kb.2) 0
            (matchedLines (cell dp i 0))).

(** [dp[0][i]] for [i = k+1], where [block = bs2.blocks[k]]. *)
Definition firstRow (dp : list (list matrixCell)) (kb : nat * Block)
    : list (list matrixCell) :=
  let i := S kb.1 in
  setCell dp 0 i
    (mkCell (score (cell dp 0 (i - 1)) + GapPenalty functions kb.2) 0
            (matchedLines (cell dp 0 i))).

(** Body of the double loop filling [dp[i][j]], [i = k1+1], [j = k2+1]. *)
Definition fillCell (paramValueMap : ParamValueMap) (b1 : nat * Block)
    (dp : list (list matrixCell)) (b2 : nat * Block)
    : result (list (list matrixCell)) :=
  let i := S b1.1 in
  let j := S b2.1 in
  '(pairScore, matchedPairs) ←
    MisMatchScore b1.2 b2.2 paramValueMap (GetLineSequence functions)
      (MinimumWeightBipartiteMatching functions) (NumberOfAttributes functions);
  let block1Gap := GapPenalty functions b1.2 in
  let block2Gap := GapPenalty functions b2.2 in
  let old := cell dp i j in
  if decide (score (cell dp (i - 1) (j - 1)) + pairScore
             ≤ score (cell dp (i - 1) j) + block1Gap) then
    if decide (score (cell dp (i - 1) (j - 1)) + pairScore
               ≤ score (cell dp i (j - 1)) + block2Gap) then
      Ok (setCell dp i j
            (mkCell (score (cell dp (i - 1) (j - 1)) + pairScore) 1 matchedPairs))
    else
      Ok (setCell dp i j
            (mkCell (score (cell dp i (j - 1)) + block2Gap) 2 (matchedLines old)))
  else
    if decide (score (cell dp (i - 1) j) + block1Gap
               ≤ score (cell dp i (j - 1)) + block2Gap) then
      Ok (setCell dp i j
            (mkCell (score (cell dp (i - 1) j) + block1Gap) 3 (matchedLines old)))
    else
      Ok (setCell dp i j
            (mkCell (score (cell dp i (j - 1)) + block2Gap) 2 (matchedLines old))).

Definition fillRow (paramValueMap : ParamValueMap) (blocks2 : list Block)
    (dp : list (list matrixCell)) (b1 : nat * Block)
    : result (list (list matrixCell)) :=
  rfoldl (fillCell paramValueMap b1) dp (enumerate blocks2).

(** The matrix after the three filling loops of [AlignSequences]. *)
Definition fillMatrix (bs1 bs2 : Segment) (pl : ParametersLinesMap)
    : result (list (list matrixCell)) :=
  let m := length (blocks bs1) in
  let n := length (blocks bs2) in
  let dp0 := initMatrix m n in
  let dp1 := foldl firstColumn dp0 (enumerate (blocks bs1)) in
  let dp2 := foldl firstRow dp1 (enumerate (blocks bs2)) in
  let paramValueMap := parameterDistribution pl in
  rfoldl (fillRow paramValueMap (blocks bs2)) dp2 (enumerate (blocks bs1)).

Record Trace := mkTrace {
  tr_i : nat;
  tr_j : nat;
  tr_pos : Z;                                 (* xpos = ypos *)
  block1Alignment : list (option Block);
  block2Alignment : list (option Block);
  lineMatchings : list (list (nat * nat))
}.

(** The traceback loop [while not (i == 0 or j == 0)].  Every iteration
    decreases [i + j], so [fuel = i + j] iterations are enough. *)
Fixpoint traceback (fuel : nat) (dp : list (list matrixCell))
    (blocks1 blocks2 : list Block) (t : Trace) : result Trace :=
  match fuel with
  | O => Ok t
  | S fuel' =>
      let i := tr_i t in
      let j := tr_j t in
      if decide (i = 0 ∨ j = 0)%nat then Ok t
      else
        let c := cell dp i j in
        if decide (pointer c = 1) then
          b1 ← listitem blocks1 (i - 1);
          b2 ← listitem blocks2 (j - 1);
          traceback fuel' dp blocks1 blocks2
            (mkTrace (i - 1) (j - 1) (tr_pos t - 1)
                     (block1Alignment t ++ [Some b1])
                     (block2Alignment t ++ [Some b2])
                     (lineMatchings t ++ [matchedLines c]))
        else if decide (pointer c = 2) then
          b2 ← listitem blocks2 (j - 1);
          traceback fuel' dp blocks1 blocks2
            (mkTrace i (j - 1) (tr_pos t - 1)
                     (block1Alignment t ++ [None])
                     (block2Alignment t ++ [Some b2])
                     (lineMatchings t))
        else if decide (pointer c = 3) then
          b1 ← listitem blocks1 (i - 1);
          traceback fuel' dp blocks1 blocks2
            (mkTrace (i - 1) j (tr_pos t - 1)
                     (block1Alignment t ++ [Some b1])
                     (block2Alignment t ++ [None])
                     (lineMatchings t))
        else Raise ValueError
  end.

(** The loops [while xpos >= 0] and [while ypos >= 0], run [k] times. *)
Fixpoint padAlignment (k : nat) (bs : list Block) (i : nat)
    (alignment : list (option Block)) : result (list (option Block)) :=
  match k with
  | O => Ok alignment
  | S k' =>
      if decide (0 < i)%nat then
        b ← listitem bs (i - 1);
        padAlignment k' bs (i - 1) (alignment ++ [Some b])
      else padAlignment k' bs i (alignment ++ [None])
  end.

Definition AlignSequences (bs1 bs2 : Segment) (pl : ParametersLinesMap)
    : result (list (option Block) * list (option Block) * list (list (nat * nat))) :=
  let m := length (blocks bs1) in
  let n := length (blocks bs2) in
  dp ← fillMatrix bs1 bs2 pl;
  let l := (m + n)%nat in
  t ← traceback l dp (blocks bs1) (blocks bs2)
                (mkTrace m n (Z.of_nat l) [] [] []);
  a1 ← padAlignment (Z.to_nat (tr_pos t + 1)) (blocks bs1) (tr_i t)
                    (block1Alignment t);
  a2 ← padAlignment (Z.to_nat (tr_pos t + 1)) (blocks bs2) (tr_j t)
                    (block2Alignment t);
  Ok (reverse a1, reverse a2, reverse (lineMatchings t)).
End AlignSequences.

(** *** The generalization driver *)

(** What [StructuredGeneralization] returns. *)
Record Outcome := mkOutcome {
  out_groupsList : option (list (list Z * gset string));
  out_singleParamQ : option (list (pyval * pyval * list string));
  out_spuriousQ : option (list (nat * nat * list string));
  out_code : string;
  out_exactGroupSizes : option (list nat)
}.

Section StructuredGeneralization.
Context {J : Type}.
Variable GetBlockSequence :
  string → DeviceInfo J → string → Scan J →
  result (list Segment * list Z * Scan J).
Variable functions : Functions.

(** First loop: the segments of every device, bucketed by line count. *)
Definition collectDevice (patternString : string)
    (acc : list (Z * list Segment) * Scan J) (dd : string * DeviceInfo J)
    : result (list (Z * list Segment) * Scan J) :=
  '(segments, lineCounts, scan) ←
    GetBlockSequence dd.1 dd.2 patternString acc.2;
  Ok (foldl (λ lineCountMap (sl : Segment * Z),
               od_set lineCountMap sl.2
                      (default [] (od_get lineCountMap sl.2) ++ [sl.1]))
            acc.1 (zip segments lineCounts),
      scan).

Definition collectSegments (patternString : string)
    (devicesInfo : list (string * DeviceInfo J)) (scan : Scan J)
    : result (list (Z * list Segment) * Scan J) :=
  rfoldl (collectDevice patternString) ([], scan) devicesInfo.

(** The tuples [(len(lineCountMap[c]), c)] sorted in reverse. *)
Definition tupleGe (a b : nat * Z) : bool :=
  (b.1 <? a.1)%nat || ((b.1 =? a.1)%nat && (b.2 <=? a.2)).

Definition segmentOrder (lineCountMap : list (Z * list Segment))
    : list (Z * Segment) :=
  tc ← isort tupleGe ((λ cs : Z * list Segment, (length cs.2, cs.1)) <$> lineCountMap);
  (λ segment, (tc.2, segment)) <$> default [] (od_get lineCountMap tc.2).

(** What the second loop carries: the meta-template with its bookkeeping
    (absent before the first segment) and [templatingCount]. *)
Definition mergeSegment
    (acc : option (Segment * ParametersLinesMap) * nat) (ls : Z * Segment)
    : result (option (Segment * ParametersLinesMap) * nat) :=
  let '(lineCount, segment) := ls in
  match acc.1 with
  | None =>
      let metaTemplate :=
        mkSegment (name segment) "Template" (blocks segment)
                  (configurationFormat segment) in
      let lineMapping :=
        [(deviceName segment, Z.of_nat <$> seq 0 (Z.to_nat (lineCount + 1)))] in
      Ok (Some (metaTemplate,
                mkPLM 0 {[deviceName segment := ∅]} lineMapping [] []),
          acc.2)
  | Some (metaTemplate, pl) =>
      let pl1 := withParameters pl (<[deviceName segment := ∅]> (parameters pl)) in
      '(block1Alignment, block2Alignment, lineMatchings) ←
        AlignSequences functions metaTemplate segment pl1;
      '(bs, pl2) ←
        GenerateTemplate functions block1Alignment block2Alignment lineMatchings
                         pl1 (deviceName segment) (NumberOfAttributes functions);
      Ok (Some (mkSegment (name metaTemplate) (deviceName metaTemplate) bs
                          (configurationFormat metaTemplate), pl2),
          S acc.2)
  end.

Definition mergeSegments (segments : list (Z * Segment))
    : result (option (Segment * ParametersLinesMap) * nat) :=
  rfoldl mergeSegment (None, 0%nat) segments.

(** Minimization and the folding in of the exact-equivalent devices. *)
Definition finish (metaTemplate : Segment) (pl : ParametersLinesMap)
    (scan : Scan J) : result (Segment * ParametersLinesMap * list nat) :=
  '(mt, pl1) ← MinimizeParameters functions metaTemplate pl
                                  (NumberOfAttributes functions);
  '(pl2, exactGroupSizes) ←
    addExactRouters pl1 ((λ e : string * (list string * J), (e.1, e.2.1))
                           <$> exactDefMatchMap scan);
  Ok (mt, pl2, exactGroupSizes).

Definition classify (mt : Segment) (pl : ParametersLinesMap)
    (exactGroupSizes : list nat) (templatingCount : nat) : Outcome :=
  match PrintTemplate functions mt pl (NumberOfAttributes functions) with
  | (pl', Some (singleParamQ, spuriousQ)) =>
      mkOutcome (Some (groupsList pl')) (Some singleParamQ) (Some spuriousQ)
                "Inconsistent" (Some exactGroupSizes)
  | (pl', None) =>
      if decide (templatingCount = 0%nat) then
        mkOutcome None None None "Exact Consistency" (Some exactGroupSizes)
      else if decide (counter pl' = 0%nat) then
        mkOutcome None None None "Reorder Consistency" (Some exactGroupSizes)
      else
        mkOutcome None None None "Consistent" (Some exactGroupSizes)
  end.

(** The two loops: what is merged, how many merges, and the sets and
    the map of exact definitions after the scan. *)
Definition generalize (patternString : string)
    (devicesInfo : list (string * DeviceInfo J)) (scan : Scan J)
    : result (option (Segment * ParametersLinesMap) * nat * Scan J) :=
  '(lineCountMap, scan') ←
    collectSegments patternString devicesInfo
                    (mkScan (foundDevices scan) (emptyDefDevices scan) []);
  merged ← mergeSegments (segmentOrder lineCountMap);
  Ok (merged, scan').

Definition StructuredGeneralization (patternString : string)
    (devicesInfo : list (string * DeviceInfo J)) (scan : Scan J)
    : result (Outcome * Scan J) :=
  '(merged, scan') ← generalize patternString devicesInfo scan;
  match merged.1 with
  | Some (metaTemplate, pl) =>
      '(mt, pl', exactGroupSizes) ← finish metaTemplate pl scan';
      Ok (classify mt pl' exactGroupSizes merged.2, scan')
  | None => Ok (mkOutcome None None None "NotFound" None, scan')
  end.
End StructuredGeneralization.
End MetaTemplater.

(** ** main.py *)

Module main.
Section functions.
Context `{Library}.

Definition prefixListFunctions : MetaTemplater.Functions :=
  MetaTemplater.mkFunctions
    PrefixList.GapPenalty PrefixList.LineSequence PrefixList.BipartiteMatching
    PrefixList.TemplateGenerator PrefixList.MinimizeParameters
    PrefixList.PrintTemplate PrefixList.ATTRIBUTES.

(** [ACL.BipartiteMatching], [ACL.TemplateGenerator],
    [ACL.MinimizeParameters] and [ACL.PrintTemplate] call the functions
    of PrefixList.py with the same arguments. *)
Definition aclFunctions : MetaTemplater.Functions :=
  MetaTemplater.mkFunctions
    ACL.GapPenalty ACL.LineSequence PrefixList.BipartiteMatching
    PrefixList.TemplateGenerator PrefixList.MinimizeParameters
    PrefixList.PrintTemplate ACL.ATTRIBUTES.
End functions.

(** What a scan leaves behind: the tallies written to AllDiff.txt, the rows
    of the group table and the comparison with exact grouping. *)
Record Report := mkReport {
  differentCounts : list (string * nat);
  csvgen : list (string * list (gset string));
  exactVsSelfStarter : list (string * list nat * string * list nat)
}.

Section AllSegments.
Context {J : Type}.
Variable GetBlockSequence :
  string → DeviceInfo J → string → Scan J →
  result (list Segment * list Z * Scan J).
Variable functions : MetaTemplater.Functions.

Definition increment (d : list (string * nat)) (k : string) : list (string * nat) :=
  od_set d k (S (default 0%nat (od_get d k))).

(** [segmentNameCount]: in how many places each segment name occurs. *)
Definition segmentNameCount (devicesInfo : list (string * DeviceInfo J))
    (segmentType : list string) : list (string * nat) :=
  foldl (λ cnt (rd : string * DeviceInfo J),
           foldl (λ cnt' stype,
                    foldl (λ cnt'' (sj : string * J),
                             if startsWithChar "~" sj.1 then cnt''
                             else increment cnt'' sj.1)
                          cnt' (default [] (od_get (di_sections rd.2) stype)))
                 cnt segmentType)
        [] devicesInfo.

(** The segment names grouped by count, the groups in descending order
    of the count.  The source keeps each group in a set, whose iteration
    order is not specified; the order of insertion is used here. *)
Definition namesByCount (segmentNameCount : list (string * nat)) : list string :=
  let countSegmentMap :=
    foldl (λ m (nc : string * nat),
             od_set m nc.2 (setAdd (default [] (od_get m nc.2)) nc.1))
          [] segmentNameCount in
  key ← isort (λ a b, (b <=? a)%nat) countSegmentMap.*1;
  default [] (od_get countSegmentMap key).

(** The body of the [try] for one segment name, after the call of
    [StructuredGeneralization]. *)
Definition record (report : Report) (segmentName : string)
    (o : MetaTemplater.Outcome) (emptyDefDevices : gset string) : Report :=
  let groups := default [] (MetaTemplater.out_groupsList o) in
  let csvgen' :=
    match groups with
    | [] => csvgen report
    | _ => csvgen report ++ [(segmentName, groups.*2)]
    end in
  let key := (if decide (0 < size emptyDefDevices)%nat
              then "Empty Clauses- " else "No Empty Clauses- ")
             +:+ MetaTemplater.out_code o in
  let exact' :=
    match MetaTemplater.out_exactGroupSizes o with
    | Some ((_ :: _ :: _) as sizes) =>
        exactVsSelfStarter report
        ++ [(segmentName, sizes, MetaTemplater.out_code o,
             match groups with
             | [] => [foldr Nat.add 0%nat sizes]
             | _ => (λ g : list Z * gset string, size g.2) <$> groups
             end)]
    | _ => exactVsSelfStarter report
    end in
  mkReport (increment (differentCounts report) key) csvgen' exact'.

(** One iteration of the loop over the segment names: the [try] block
    and its bare [except]. *)
Definition scanName (devicesInfo : list (string * DeviceInfo J))
    (report : Report) (segmentName : string) : Report :=
  match MetaTemplater.StructuredGeneralization GetBlockSequence functions
          (segmentName +:+ "$") devicesInfo (mkScan ∅ ∅ []) with
  | Ok (o, scan) => record report segmentName o (emptyDefDevices scan)
  | Raise _ =>
      mkReport (increment (differentCounts report) "Error") (csvgen report)
               (exactVsSelfStarter report)
  end.

Definition AllSegments (devicesInfo : list (string * DeviceInfo J))
    (segmentType : list string) (segmentNameRegex : string) : result Report :=
  if decide (segmentNameRegex = ".*") then
    Ok (foldl (scanName devicesInfo) (mkReport [("Error", 0%nat)] [] [])
              (namesByCount (segmentNameCount devicesInfo segmentType)))
  else
    _ ← MetaTemplater.StructuredGeneralization GetBlockSequence functions
          segmentNameRegex devicesInfo (mkScan ∅ ∅ []);
    Ok (mkReport [] [] []).
End AllSegments.
End main.

(** ** Vocabulary of the statements *)

(** [similarityMatrix[x][y]] *)
Definition cellCost (sim : list (list Z)) (xy : nat * nat) : Z :=
  default 0 (sim !! xy.1 ≫= (.!! xy.2)).

Definition sumZ (l : list Z) : Z := foldr Z.add 0 l.

Section matcherVocabulary.
Context `{Library}.

(** The pairs the assignment solver returns; it is not called on an empty
    matrix. *)
Definition solverPairs (sim : list (list Z)) : list (nat * nat) :=
  if decide (0 < length sim)%nat then munkres_compute sim else [].

(** The solver's pairs that are kept, and those discarded as incompatible. *)
Definition keptPairs (sim : list (list Z)) : list (nat * nat) :=
  filter (λ xy, cellCost sim xy ≠ commonFunctions.INFINITY) (solverPairs sim).

Definition discardedPairs (sim : list (list Z)) : list (nat * nat) :=
  filter (λ xy, cellCost sim xy = commonFunctions.INFINITY) (solverPairs sim).

(** The matrix the matcher builds for two line sequences. *)
Definition matrixOf (LS1 LS2 : list Line) (paramValueMap : ParamValueMap)
    (noOfAttributes : nat) : result (list (list Z)) :=
  let st := PrefixList.hashShortcut LS1 LS2 in
  PrefixList.similarityMatrix (PrefixList.LineScoreFunc noOfAttributes)
    (PrefixList.leftover LS1 (PrefixList.ls1Matched st)).*2
    (PrefixList.leftover LS2 (PrefixList.ls2Matched st)).*2 paramValueMap.

(** A pair of the solver in terms of the positions in [LS1] and [LS2]. *)
Definition original (LS1 LS2 : list Line) (xy : nat * nat) : nat * nat :=
  let st := PrefixList.hashShortcut LS1 LS2 in
  (default 0%nat ((PrefixList.leftover LS1 (PrefixList.ls1Matched st)).*1 !! xy.1),
   default 0%nat ((PrefixList.leftover LS2 (PrefixList.ls2Matched st)).*1 !! xy.2)).

(** The solver's pairs stay inside the matrix. *)
Definition inMatrix (LS1 LS2 : list Line) (sim : list (list Z)) : Prop :=
  let st := PrefixList.hashShortcut LS1 LS2 in
  Forall (λ xy : nat * nat,
            (xy.1 < length (PrefixList.leftover LS1 (PrefixList.ls1Matched st)))%nat
            ∧ (xy.2 < length (PrefixList.leftover LS2 (PrefixList.ls2Matched st)))%nat)
         (solverPairs sim).

(** The solver's pairs form an assignment: no row and no column twice. *)
Definition isAssignment (sim : list (list Z)) : Prop :=
  NoDup (solverPairs sim).*1 ∧ NoDup (solverPairs sim).*2.

(** No two different lines of the two sequences have the same hash. *)
Definition collisionFree (LS1 LS2 : list Line) : Prop :=
  ∀ l1 l2, l1 ∈ LS1 ++ LS2 → l2 ∈ LS1 ++ LS2 →
    PrefixList.lineHash l1 = PrefixList.lineHash l2 →
    delete LINENUM l1 = delete LINENUM l2.
End matcherVocabulary.

(** The shape of the alignment matrix: [m+1] rows of [n+1] cells. *)
Definition matrixDims (dp : list (list matrixCell)) (m n : nat) : Prop :=
  length dp = S m ∧ Forall (λ row, length row = S n) dp.

(** The recurrence at one cell, with the tie-breaking of the aligner:
    [diag], [up] and [left] are the neighbours' scores, [subst] the cost of
    matching the two blocks, [gap1] and [gap2] their gap penalties. *)
Definition cellRule (diag up left : matrixCell) (subst gap1 gap2 : Z)
    (matching : list (nat * nat)) (c : matrixCell) : Prop :=
  let viaDiag := score diag + subst in
  let viaUp := score up + gap1 in
  let viaLeft := score left + gap2 in
  score c = Z.min (Z.min viaDiag viaUp) viaLeft
  ∧ (viaDiag ≤ viaUp ∧ viaDiag ≤ viaLeft →
     score c = viaDiag ∧ pointer c = 1 ∧ matchedLines c = matching)
  ∧ (viaUp < viaDiag ∧ viaUp ≤ viaLeft → score c = viaUp ∧ pointer c = 3)
  ∧ (viaLeft < viaDiag ∧ viaLeft < viaUp → score c = viaLeft ∧ pointer c = 2).

Section alignerVocabulary.
Import MetaTemplater.
Variable functions : Functions.

Definition blockScore (pl : ParametersLinesMap) (b1 b2 : Block)
    : result (Z * list (nat * nat)) :=
  MisMatchScore b1 b2 (parameterDistribution pl) (GetLineSequence functions)
    (MinimumWeightBipartiteMatching functions) (NumberOfAttributes functions).

(** The matcher raises on no pair of blocks of the two segments. *)
Definition scoresDefined (bs1 bs2 : Segment) (pl : ParametersLinesMap) : Prop :=
  ∀ b1 b2, b1 ∈ blocks bs1 → b2 ∈ blocks bs2 → ∃ r, blockScore pl b1 b2 = Ok r.

(** [dp[i+1][j+1]] obeys [cellRule] for every block [i] of the first and
    every block [j] of the second segment. *)
Definition obeysRecurrence (bs1 bs2 : Segment) (pl : ParametersLinesMap)
    (dp : list (list matrixCell)) : Prop :=
  ∀ i j b1 b2,
    blocks bs1 !! i = Some b1 → blocks bs2 !! j = Some b2 →
    ∃ subst matching,
      blockScore pl b1 b2 = Ok (subst, matching)
      ∧ cellRule (cell dp i j) (cell dp i (S j)) (cell dp (S i) j)
                 subst (GapPenalty functions b1) (GapPenalty functions b2)
                 matching (cell dp (S i) (S j)).

(** At a cell with pointer 3 the traceback emits the block of the first
    segment against a gap and moves up. *)
Definition pointer3ConsumesFirst (bs1 bs2 : Segment)
    (dp : list (list matrixCell)) : Prop :=
  ∀ i j b1 fuel t,
    blocks bs1 !! i = Some b1 →
    tr_i t = S i → tr_j t = S j → pointer (cell dp (S i) (S j)) = 3 →
    traceback (S fuel) dp (blocks bs1) (blocks bs2) t
    = traceback fuel dp (blocks bs1) (blocks bs2)
        (mkTrace i (S j) (tr_pos t - 1)
                 (block1Alignment t ++ [Some b1])
                 (block2Alignment t ++ [None])
                 (lineMatchings t)).
End alignerVocabulary.

(** The lines of [LS] whose position is not among [tmp], in their order. *)
Definition unmatched (LS : list Line) (tmp : list nat) : list Line :=
  (filter (λ il : nat * Line, il.1 ∉ tmp) (enumerate LS)).*2.

(** Fresh contiguous identities from [start] on. *)
Definition renumbered (start : Z) (ls : list Line) : list Line :=
  imap (λ k l, <[LINENUM := PInt (start + Z.of_nat k)]> l) ls.

Definition identities (start : Z) (n : nat) : list Z :=
  (λ k, start + Z.of_nat k) <$> seq 0 n.

(** The identity a line had, and the old -> new pairs of a run of lines. *)
Definition oldOf (l : Line) : pyval := default (PInt 0) (l !! LINENUM).

Definition recorded (start : Z) (ls : list Line) : list (pyval * Z) :=
  imap (λ k l, (oldOf l, start + Z.of_nat k)) ls.

Definition recordAll (oldtoNewLineMap : gmap pyval Z) (pairs : list (pyval * Z))
    : gmap pyval Z :=
  foldl (λ m on, <[on.1 := on.2]> m) oldtoNewLineMap pairs.

(** The lines of the template that a matching pairs up, in its order. *)
Definition matchedTemplate (templateLines : list Line) (matching : list (nat * nat))
    : list Line :=
  (λ ij : nat * nat, default ∅ (templateLines !! ij.1)) <$> matching.

(** The shape of the result of [MergeLines]: the unmatched lines of the
    template with identities from the running line number on, then the
    unmatched lines of the device, then one merged line per matched pair;
    the identities of the last two runs, and only they, are appended to the
    lines of the new device; the old -> new identities of the first and of
    the last run are recorded. *)
Definition mergedInOrder (templateLines deviceLines : list Line)
    (st : PrefixList.Merge) (matching : list (nat * nat))
    (combinedLines : list Line) (st' : PrefixList.Merge) : Prop :=
  let templateOnly := unmatched templateLines matching.*1 in
  let deviceOnly := unmatched deviceLines matching.*2 in
  let start := PrefixList.lineNum st in
  let start2 := start + Z.of_nat (length templateOnly) in
  let start3 := start2 + Z.of_nat (length deviceOnly) in
  ∃ merged,
    combinedLines
    = renumbered start templateOnly ++ renumbered start2 deviceOnly ++ merged
    ∧ length merged = length matching
    ∧ (∀ k line, merged !! k = Some line →
         line !! LINENUM = Some (PInt (start3 + Z.of_nat k)))
    ∧ PrefixList.lineNum st' = start3 + Z.of_nat (length matching)
    ∧ PrefixList.newDeviceLines st'
      = PrefixList.newDeviceLines st
        ++ identities start2 (length deviceOnly)
        ++ identities start3 (length matching)
    ∧ PrefixList.oldtoNewLineMap st'
      = recordAll (PrefixList.oldtoNewLineMap st)
          (recorded start templateOnly
           ++ recorded start3 (matchedTemplate templateLines matching)).

(** The line identities of a segment, block after block. *)
Definition lineIds (bs : list Block) : list (option pyval) :=
  (.!! LINENUM) <$> concat (lines <$> bs).

(** The identities are [0 .. n-1], in this order. *)
Definition contiguousIds (bs : list Block) (n : nat) : Prop :=
  lineIds bs = (λ k, Some (PInt (Z.of_nat k))) <$> seq 0 n.

(** The predicates have distinct names and every identity below [n], and
    nothing else, occurs in their lists, exactly once in all. *)
Definition isPartition (predicates : list (string * list Z)) (n : nat) : Prop :=
  NoDup predicates.*1
  ∧ NoDup (concat predicates.*2)
  ∧ ∀ z, z ∈ concat predicates.*2 ↔ 0 ≤ z < Z.of_nat n.

(** No device holds a value for any parameter. *)
Definition noParameters (pl : ParametersLinesMap) : Prop :=
  ∀ device data, parameters pl !! device = Some data → data = ∅.

(** Every route filter list whose name matches the pattern has the
    definition [json], on every device. *)
Definition sameDefinition `{Library} (pattern : string)
    (json : list PrefixList.PrefixJson)
    (devicesInfo : list (string * DeviceInfo (list PrefixList.PrefixJson))) : Prop :=
  ∀ device info segments segmentName segmentJson,
    (device, info) ∈ devicesInfo →
    od_get (di_sections info) "routeFilterLists" = Some segments →
    (segmentName, segmentJson) ∈ segments →
    re_match pattern segmentName = true →
    segmentJson = json.

(** The flavor records of main.py modelled here; both take the template
    generator, the minimizer and the report of PrefixList.py. *)
Definition isFlavor `{Library} (functions : MetaTemplater.Functions) : Prop :=
  functions = main.prefixListFunctions ∨ functions = main.aclFunctions.

(** What a scan holds while every matching definition is [json]: nothing
    yet, or one retained segment -- among the segments of the device being
    scanned or already in [lineCountMap] -- and one entry of the map of
    exact definitions, under the name that segment carries. *)
Definition oneRetained {J} (json : J) (lineCountMap : list (Z * list Segment))
    (segments : list Segment) (lineCounts : list Z)
    (exactDefMatchMap : list (string * (list string * J))) : Prop :=
  (lineCountMap = [] ∧ segments = [] ∧ lineCounts = [] ∧ exactDefMatchMap = [])
  ∨ ∃ segment lineCount exact,
      exactDefMatchMap = [(deviceName segment, (exact, json))]
      ∧ ((lineCountMap = [] ∧ segments = [segment] ∧ lineCounts = [lineCount])
         ∨ (lineCountMap = [(lineCount, [segment])]
            ∧ segments = [] ∧ lineCounts = [])).

(** ** Vocabulary for the parsers and the minimizer *)

(** The loop of [Block.__init__] over the octets: attribute [i+3] gets the
    [i]-th part of the address. *)
Definition octetsAt (line : Line) (octets : list string) : Line :=
  foldl (λ l (io : nat * string), <[Z.of_nat io.1 + 3 := PStr io.2]> l)
        line (enumerate octets).

(** The line [Block.__init__] builds for an entry whose length range is
    [lo-hi]. *)
Definition encoded (lineNum : Z) (prefix : PrefixList.PrefixJson) (lo hi : string)
    : Line :=
  let ip := PrefixList.ipWildcard prefix in
  let v6 := containsChar ":" ip in
  let len := if containsChar "/" ip
             then default "" (splitOn "/" ip !! 1%nat)
             else if v6 then "128" else "32" in
  let line :=
    octetsAt (<[0 := PStr len]>
                (<[TAG := PInt (if v6 then 1 else 0)]>
                   (<[2 := PStr hi]> (<[1 := PStr lo]> {[LINENUM := PInt lineNum]}))))
             (splitOn (if v6 then ":" else ".")
                      (default "" (head (splitOn "/" ip)))) in
  if v6 then line
  else <[10 := PStr "0"]> (<[9 := PStr "0"]> (<[8 := PStr "0"]>
         (<[7 := PStr "0"]> line))).

(** The length range has exactly one dash. *)
Definition wellFormed (prefix : PrefixList.PrefixJson) : Prop :=
  length (splitOn "-" (PrefixList.lengthRange prefix)) = 2%nat.

(** [ls] are the lines of [entries], numbered from [start] on. *)
Definition encodedFrom (start : nat) (entries : list PrefixList.PrefixJson)
    (ls : list Line) : Prop :=
  Forall2 (λ (ke : nat * PrefixList.PrefixJson) line,
             PrefixList.encodeLine (Z.of_nat (start + ke.1)) ke.2 = Ok line)
          (enumerate entries) ls.

(** The state of [createBlocks] after the entries [pre]: the entries
    before [startingLineNumber] are in the finished blocks, the others
    wait in [block]. *)
Definition createInv (pre : list PrefixList.PrefixJson) (st : PrefixList.Blocks) : Prop :=
  ∃ s, PrefixList.startingLineNumber st = Z.of_nat s
       ∧ (s ≤ length pre)%nat
       ∧ PrefixList.block st = drop s pre
       ∧ encodedFrom 0 (take s pre) (concat (lines <$> PrefixList.parsed st)).


(** What the merger keeps while it emits lines: the emitted lines carry
    the identities [start], [start+1], ... up to the running line number,
    and the lines of the new device are identities below it. *)
Definition numberedFrom (start : Z) (st : PrefixList.Merge) (ls : list Line) : Prop :=
  0 ≤ start
  ∧ PrefixList.lineNum st = start + Z.of_nat (length ls)
  ∧ (.!! LINENUM) <$> ls
    = (λ k, Some (PInt (start + Z.of_nat k))) <$> seq 0 (length ls)
  ∧ Forall (λ z, 0 ≤ z < PrefixList.lineNum st) (PrefixList.newDeviceLines st).

(** The lines of the segment carry the identities 0, 1, 2, ... in order. *)
Definition numbered (segment : Segment) : Prop :=
  ∃ n, contiguousIds (blocks segment) n.

(** The number of positions at which both alignments hold a block. *)
Definition bothPresent (a1 a2 : list (option Block)) : nat :=
  length (filter (λ p : option Block * option Block, is_Some p.1 ∧ is_Some p.2)
                 (zip a1 a2)).

(** A pair of alignments of two block sequences with their line matchings:
    each alignment is its sequence, in order, with gaps in between; both
    have the length [m+n+1] that the padding loops give them; there is one
    line matching per position that holds two blocks. *)
Definition isAlignment (blocks1 blocks2 : list Block)
    (a1 a2 : list (option Block)) (lineMatchings : list (list (nat * nat)))
    : Prop :=
  length a1 = S (length blocks1 + length blocks2)
  ∧ length a2 = S (length blocks1 + length blocks2)
  ∧ omap id a1 = blocks1
  ∧ omap id a2 = blocks2
  ∧ length lineMatchings = bothPresent a1 a2.

(** What the traceback loop keeps: the blocks after [i] and [j] have been
    emitted, last first; [xpos] has been decreased once per emitted
    position and is at least [i + j]. *)
Definition traceInv (blocks1 blocks2 : list Block) (t : MetaTemplater.Trace) : Prop :=
  (MetaTemplater.tr_i t ≤ length blocks1)%nat
  ∧ (MetaTemplater.tr_j t ≤ length blocks2)%nat
  ∧ Z.of_nat (MetaTemplater.tr_i t + MetaTemplater.tr_j t) ≤ MetaTemplater.tr_pos t
  ∧ MetaTemplater.tr_pos t
    = Z.of_nat (length blocks1 + length blocks2)
      - Z.of_nat (length (MetaTemplater.block1Alignment t))
  ∧ length (MetaTemplater.block2Alignment t)
    = length (MetaTemplater.block1Alignment t)
  ∧ omap id (MetaTemplater.block1Alignment t)
    = reverse (drop (MetaTemplater.tr_i t) blocks1)
  ∧ omap id (MetaTemplater.block2Alignment t)
    = reverse (drop (MetaTemplater.tr_j t) blocks2)
  ∧ length (MetaTemplater.lineMatchings t)
    = bothPresent (MetaTemplater.block1Alignment t)
                  (MetaTemplater.block2Alignment t).

(** Every cell of a pair of blocks holds pointer 1, 2 or 3. *)
Definition pointersSet (dp : list (list matrixCell)) (m n : nat) : Prop :=
  ∀ i j, (i < m)%nat → (j < n)%nat →
    pointer (MetaTemplater.cell dp (S i) (S j)) = 1
    ∨ pointer (MetaTemplater.cell dp (S i) (S j)) = 2
    ∨ pointer (MetaTemplater.cell dp (S i) (S j)) = 3.

(** Two parameters have the same value on every device that has both. *)
Definition agree (pl : ParametersLinesMap) (p q : pyval) : Prop :=
  ∀ device data v w,
    parameters pl !! device = Some data →
    data !! p = Some v → data !! q = Some w → v = w.

Definition pairwiseAgree (pl : ParametersLinesMap) (g : list pyval) : Prop :=
  ∀ p q, p ∈ g → q ∈ g → agree pl p q.

(** ** A concrete library for running the engine

    The statements below are about every [Library]; to evaluate the engine on
    examples it is instantiated with a collision-free hash (the encoding of
    the line as a positive number), an exhaustive search for a cheapest
    assignment, patterns of the form [name$] for names without regular
    expression operators, and the thresholds 0.09 and 0.05 as fractions. *)

Module Reference.
(** All ways of giving [k] of the rows a column of their own. *)
Fixpoint candidates (k : nat) (rows cols : list nat) : list (list (nat * nat)) :=
  match k with
  | O => [[]]
  | S k' =>
      match rows with
      | [] => []
      | r :: rows' =>
          (c ← cols;
           ((r, c) ::.) <$> candidates k' rows' (filter (λ c', c' ≠ c) cols))
          ++ candidates k rows' cols
      end
  end.

Definition total (sim : list (list Z)) (a : list (nat * nat)) : Z :=
  foldr (λ xy s, cellCost sim xy + s) 0 a.

Definition best (sim : list (list Z)) (cands : list (list (nat * nat)))
    : list (nat * nat) :=
  foldl (λ b a, if decide (total sim a < total sim b) then a else b)
        (default [] (head cands)) cands.

Definition assignment (sim : list (list Z)) : list (nat * nat) :=
  let n := length sim in
  let m := length (default [] (head sim)) in
  best sim (candidates (n `min` m) (seq 0 n) (seq 0 m)).

Global Instance library : Library := {|
  py_hash l := Z.pos (encode l);
  munkres_compute := assignment;
  re_match pat s := bool_decide (pat = s +:+ "$");
  single_below count total n := (count * 100 * n <? 9 * total)%nat;
  spurious_below d t := (d * 100 <? 5 * t)%nat
|}.
End Reference.

(** ** A library whose hash collides

    The hash of every line is the same number; the rest is the reference
    library.  It shows what the engine does when two different lines have
    the same hash. *)

Module Colliding.
Definition library : Library := {|
  py_hash _ := 0;
  munkres_compute := Reference.assignment;
  re_match pat s := bool_decide (pat = s +:+ "$");
  single_below count total n := (count * 100 * n <? 9 * total)%nat;
  spurious_below d t := (d * 100 <? 5 * t)%nat
|}.
End Colliding.

(** ** Example inputs *)

Module Examples.
Import PrefixList.

(** [permit 10.0.0.0/8 exact] and its line. *)
Definition permit10 : PrefixJson := mkPrefixJson "PERMIT" "10.0.0.0/8" "8-8".

Definition ipv4Line : Line :=
  list_to_map
    [(-2, PInt 0); (-1, PInt 0); (0, PStr "8"); (1, PStr "8"); (2, PStr "8");
     (3, PStr "10"); (4, PStr "0"); (5, PStr "0"); (6, PStr "0");
     (7, PStr "0"); (8, PStr "0"); (9, PStr "0"); (10, PStr "0")].

(** The line of [a.b.0.0/8] with length range [8-8] and line number [n]. *)
Definition prefixLine (n : Z) (a b : string) : Line :=
  <[4 := PStr b]> (<[3 := PStr a]> (<[LINENUM := PInt n]> ipv4Line)).

(** [2000:0:0:0:0:0:0:0/3] with length range [3-128] and its line. *)
Definition permit2000 : PrefixJson :=
  mkPrefixJson "PERMIT" "2000:0:0:0:0:0:0:0/3" "3-128".

Definition ipv6Line : Line :=
  list_to_map
    [(-2, PInt 1); (-1, PInt 0); (0, PStr "3"); (1, PStr "3"); (2, PStr "128");
     (3, PStr "2000"); (4, PStr "0"); (5, PStr "0"); (6, PStr "0");
     (7, PStr "0"); (8, PStr "0"); (9, PStr "0"); (10, PStr "0")].

(** Two ACL lines [permit tcp any any] and [permit udp any any]. *)
Definition aclLine (protocol : string) : Line :=
  list_to_map
    ([(-2, PStr protocol); (-1, PInt 0)]
     ++ ((λ i, (Z.of_nat i, PStr "0")) <$> seq 0 4)
     ++ ((λ i, (Z.of_nat i, PStr "255")) <$> seq 4 4)
     ++ ((λ i, (Z.of_nat i, PStr "0")) <$> seq 8 4)
     ++ ((λ i, (Z.of_nat i, PStr "255")) <$> seq 12 4)
     ++ ((λ i, (Z.of_nat i, PStr "-1")) <$> seq 16 4)).

(** Two ACLs of one block with one line each; the protocols differ. *)
Definition tcpSegment : Segment :=
  mkSegment "acl" "Template" [mkBlock (Some "PERMIT") [aclLine "TCP"]] "cisco".

Definition udpSegment : Segment :=
  mkSegment "acl" "B" [mkBlock (Some "PERMIT") [aclLine "UDP"]] "cisco".

Definition aclBookkeeping : ParametersLinesMap :=
  mkPLM 0 {["A" := ∅; "B" := ∅]} [("A", [0])] [] [].

(** Two line sequences: the first line of [LS1] occurs again in [LS2]. *)
Definition LS1 : list Line := [prefixLine 0 "10" "0"; prefixLine 1 "11" "0"].
Definition LS2 : list Line := [prefixLine 0 "10" "1"; prefixLine 1 "10" "0"].

(** A meta-template of two blocks, a segment of one block, and the
    bookkeeping at the time the two are aligned. *)
Definition template : Segment :=
  mkSegment "X" "Template"
    [mkBlock (Some "PERMIT") LS1; mkBlock (Some "DENY") [prefixLine 2 "12" "0"]]
    "cisco".

Definition device : Segment :=
  mkSegment "X" "B" [mkBlock (Some "PERMIT") LS2] "cisco".

Definition bookkeeping : ParametersLinesMap :=
  mkPLM 0 {["A" := ∅; "B" := ∅]} [("A", [0; 1; 2])] [] [].

(** A device whose route filter list [X] has the given entries. *)
Definition deviceWith (device : string) (entries : list PrefixJson)
    : string * DeviceInfo (list PrefixJson) :=
  (device, mkDeviceInfo "cisco" [("routeFilterLists", [("X", entries)])]).

Definition permit10_1 : PrefixJson := mkPrefixJson "PERMIT" "10.1.0.0/8" "8-8".
Definition permit11 : PrefixJson := mkPrefixJson "PERMIT" "11.0.0.0/8" "8-8".

(** An entry whose length range is not of the form [lo-hi]. *)
Definition malformed : PrefixJson := mkPrefixJson "PERMIT" "11.0.0.0/8" "8".

(** An IpSpace of a class that [getSrcOrDstIps] does not know. *)
Definition unknownSpace : ACL.IpSpaceJson :=
  ACL.mkIpSpace "org.batfish.datamodel.EmptyIpSpace" None None None None.

(** Two devices on which the parameters [P0] and [P1] have the same value,
    and [P2] another one. *)
Definition threeParameters : ParametersLinesMap :=
  mkPLM 3
    {["A" := {[paramName 0 := PStr "10"; paramName 1 := PStr "10";
               paramName 2 := PStr "7"]};
      "B" := {[paramName 0 := PStr "11"; paramName 1 := PStr "11";
               paramName 2 := PStr "7"]}]}
    [("A", [0]); ("B", [0])] [] [].
End Examples.

(** * Properties *)

Set Warnings "-clear-no-such-hyp".

(** ** The error monad and the loops *)

Lemma rbind_Ok {A B} (m : result A) (k : A → result B) (b : B) :
  m ≫= k = Ok b ↔ ∃ a, m = Ok a ∧ k a = Ok b.
Proof.
  destruct m as [a|e]; simpl.
  - split; [eauto | by intros (? & [= ->] & ?)].
  - split; [done | by intros (? & ? & ?)].
Qed.

Lemma rfoldl_app {A B} (f : A → B → result A) (a : A) (l k : list B) :
  rfoldl f a (l ++ k) = rfoldl f a l ≫= λ a', rfoldl f a' k.
Proof.
  revert a. induction l as [|b l IH]; intros a; simpl; [done|].
  destruct (f a b); simpl; [apply IH | done].
Qed.

Lemma rfoldl_total {A B} (f : A → B → result A) (g : A → B → A) (a : A)
    (l : list B) :
  (∀ a b, f a b = Ok (g a b)) → rfoldl f a l = Ok (foldl g a l).
Proof.
  intros Hf. revert a. induction l as [|b l IH]; intros a; simpl; [done|].
  rewrite Hf. apply IH.
Qed.

Lemma rmapM_Ok_length {A B} (f : A → result B) (l : list A) (k : list B) :
  rmapM f l = Ok k → length k = length l.
Proof.
  revert k. induction l as [|a l IH]; intros k; simpl.
  - by intros [= <-].
  - destruct (f a); simpl; [|done].
    destruct (rmapM f l); simpl; [|done].
    intros [= <-]. simpl. f_equal. by apply IH.
Qed.

Lemma rmapM_Ok_lookup {A B} (f : A → result B) (l : list A) (k : list B) i a :
  rmapM f l = Ok k → l !! i = Some a → ∃ b, k !! i = Some b ∧ f a = Ok b.
Proof.
  revert k i. induction l as [|x l IH]; intros k i; simpl; [done|].
  destruct (f x) as [b|] eqn:Hx; simpl; [|done].
  destruct (rmapM f l) as [bs|]; simpl; [|done].
  intros [= <-]. destruct i as [|i]; simpl.
  - intros [= <-]. eauto.
  - intros Hi. by apply IH.
Qed.

Lemma rmapM_total {A B} (f : A → result B) (g : A → B) (l : list A) :
  (∀ a, a ∈ l → f a = Ok (g a)) → rmapM f l = Ok (g <$> l).
Proof.
  induction l as [|a l IH]; intros Hf; simpl; [done|].
  rewrite Hf by left. simpl. rewrite IH; [done|].
  intros b Hb. apply Hf. by right.
Qed.

(** ** The line scorers (C1) *)

Lemma attrScore_bounds t d pvm i : 0 ≤ attrScore t d pvm i ≤ 2.
Proof.
  unfold attrScore.
  repeat (case_match; try lia).
Qed.

Lemma scoreLoop_bounds t d pvm n :
  0 ≤ scoreLoop t d pvm n ≤ 2 * Z.of_nat n.
Proof.
  unfold scoreLoop.
  assert (∀ l a, a ≤ foldl (λ score i, score + attrScore t d pvm i) a l
                   ≤ a + 2 * Z.of_nat (length l)) as Hgen.
  { induction l as [|i l IH]; intros a; simpl; [lia|].
    specialize (IH (a + attrScore t d pvm i)).
    pose proof (attrScore_bounds t d pvm i). lia. }
  specialize (Hgen (seq 0 n) 0). rewrite length_seq in Hgen. lia.
Qed.

Lemma attrScore_tag t d pvm i tp dp :
  attrScore (<[TAG := tp]> t) (<[TAG := dp]> d) pvm i = attrScore t d pvm i.
Proof.
  unfold attrScore, TAG.
  by rewrite !lookup_insert_ne by lia.
Qed.

Lemma scoreLoop_tag t d pvm n tp dp :
  scoreLoop (<[TAG := tp]> t) (<[TAG := dp]> d) pvm n = scoreLoop t d pvm n.
Proof.
  unfold scoreLoop. generalize (seq 0 n) 0.
  induction l as [|i l IH]; intros a; simpl; [done|].
  by rewrite attrScore_tag, IH.
Qed.

(** C1 as stated fails for the prefix-list flavor: the scorer of
    PrefixList.py never looks at the family tag.  An IPv4 line and an IPv6
    line score 8, not INFINITY. *)
Lemma LineScore_family_counterexample :
  Examples.ipv4Line !! TAG = Some (PInt 0)
  ∧ Examples.ipv6Line !! TAG = Some (PInt 1)
  ∧ PrefixList.LineScore Examples.ipv4Line Examples.ipv6Line ∅ = Ok 8
  ∧ PrefixList.LineScore Examples.ipv4Line Examples.ipv6Line ∅
    ≠ Ok commonFunctions.INFINITY.
Proof. by vm_compute. Qed.

(** C1, amended: when the identity tags of two lines differ, the ACL scorer
    returns INFINITY, whereas the prefix-list scorer returns the sum of the
    attribute scores, a number between 0 and 22, whatever the family tags
    are. *)
Theorem LineScore_identity_tag (templateLine deviceLine : Line)
    (paramValueMap : ParamValueMap) (tp dp : pyval) :
  templateLine !! TAG = Some tp →
  deviceLine !! TAG = Some dp →
  tp ≠ dp →
  ACL.LineScore templateLine deviceLine paramValueMap
    = Ok commonFunctions.INFINITY
  ∧ ∃ s, PrefixList.LineScore templateLine deviceLine paramValueMap = Ok s
         ∧ 0 ≤ s ≤ 22
         ∧ s ≠ commonFunctions.INFINITY
         ∧ ∀ tp' dp',
             PrefixList.LineScore (<[TAG := tp']> templateLine)
                                  (<[TAG := dp']> deviceLine) paramValueMap
             = Ok s.
Proof.
  intros Ht Hd Hne. split.
  - unfold ACL.LineScore, getitem. rewrite Ht, Hd. simpl.
    by rewrite decide_True.
  - exists (scoreLoop templateLine deviceLine paramValueMap PrefixList.ATTRIBUTES).
    pose proof (scoreLoop_bounds templateLine deviceLine paramValueMap
                  PrefixList.ATTRIBUTES) as Hb.
    change (Z.of_nat PrefixList.ATTRIBUTES) with 11 in Hb.
    unfold commonFunctions.INFINITY.
    split; [done|]. split; [lia|]. split; [lia|].
    intros tp' dp'. unfold PrefixList.LineScore.
    by rewrite scoreLoop_tag.
Qed.

Lemma LineScore_identity_tag_witness :
  ACL.LineScore (Examples.aclLine "TCP") (Examples.aclLine "UDP") ∅
    = Ok commonFunctions.INFINITY
  ∧ ∃ s, PrefixList.LineScore (Examples.aclLine "TCP") (Examples.aclLine "UDP") ∅
           = Ok s
         ∧ 0 ≤ s ≤ 22
         ∧ s ≠ commonFunctions.INFINITY
         ∧ ∀ tp' dp',
             PrefixList.LineScore (<[TAG := tp']> (Examples.aclLine "TCP"))
                                  (<[TAG := dp']> (Examples.aclLine "UDP")) ∅
             = Ok s.
Proof.
  apply (LineScore_identity_tag _ _ _ (PStr "TCP") (PStr "UDP"));
    [reflexivity | reflexivity | discriminate].
Defined.

(** ** The bipartite line matcher (C4, C10) *)

Section matcher.
Context `{Library}.
Import PrefixList.

Lemma similarityMatrix_dims f (L1 L2 : list Line) pvm sim :
  similarityMatrix f L1 L2 pvm = Ok sim →
  length sim = length L1 ∧ Forall (λ row, length row = length L2) sim.
Proof.
  unfold similarityMatrix. intros Hsim. split.
  - by apply rmapM_Ok_length in Hsim.
  - apply Forall_lookup. intros x row Hrow.
    assert (x < length L1)%nat as Hx.
    { apply rmapM_Ok_length in Hsim. apply lookup_lt_Some in Hrow. lia. }
    apply lookup_lt_is_Some in Hx as [tline Ht].
    destruct (rmapM_Ok_lookup _ _ _ _ _ Hsim Ht) as (row' & Hrow' & Hr).
    rewrite Hrow in Hrow'. injection Hrow' as <-.
    by apply rmapM_Ok_length in Hr.
Qed.

Lemma solverStep_in_range sim (m1 m2 : list nat) pen acc x y :
  length sim = length m1 →
  Forall (λ row : list Z, length row = length m2) sim →
  (x < length m1)%nat → (y < length m2)%nat →
  solverStep sim m1 m2 pen acc (x, y)
  = if decide (cellCost sim (x, y) ≠ commonFunctions.INFINITY)
    then Ok (acc.1 ++ [(default 0%nat (m1 !! x), default 0%nat (m2 !! y))],
             acc.2 + cellCost sim (x, y))
    else Ok (acc.1, acc.2 + pen).
Proof.
  intros Hlen Hrows Hx Hy.
  assert (x < length sim)%nat as Hx' by lia.
  apply lookup_lt_is_Some in Hx' as [row Hrow].
  assert (length row = length m2) as Hrl
    by exact (Forall_lookup_1 _ _ _ _ Hrows Hrow).
  assert (y < length row)%nat as Hy' by lia.
  apply lookup_lt_is_Some in Hy' as [c Hc].
  apply lookup_lt_is_Some in Hx as [i Hi].
  apply lookup_lt_is_Some in Hy as [j Hj].
  unfold solverStep, cellCost, listitem, getitem. simpl.
  rewrite Hrow. simpl. rewrite Hc. simpl.
  case_decide; [|done].
  by rewrite Hi, Hj.
Qed.

Lemma solverStep_loop sim (m1 m2 : list nat) pen pairs acc :
  length sim = length m1 →
  Forall (λ row : list Z, length row = length m2) sim →
  Forall (λ xy : nat * nat, (xy.1 < length m1)%nat ∧ (xy.2 < length m2)%nat) pairs →
  rfoldl (solverStep sim m1 m2 pen) acc pairs
  = Ok (acc.1 ++ ((λ xy : nat * nat,
                     (default 0%nat (m1 !! xy.1), default 0%nat (m2 !! xy.2)))
                  <$> filter (λ xy, cellCost sim xy ≠ commonFunctions.INFINITY) pairs),
        acc.2
        + sumZ (cellCost sim
                <$> filter (λ xy, cellCost sim xy ≠ commonFunctions.INFINITY) pairs)
        + pen * Z.of_nat (length (filter (λ xy, cellCost sim xy = commonFunctions.INFINITY)
                                         pairs))).
Proof.
  intros Hlen Hrows Hpairs. revert acc.
  induction Hpairs as [|[x y] pairs [Hx Hy] Hpairs IH]; intros [ms sc].
  { unfold sumZ. simpl. rewrite app_nil_r. do 2 f_equal.
    change (Z.of_nat 0) with 0. rewrite Z.mul_0_r. lia. }
  cbn [rfoldl]. rewrite solverStep_in_range by done.
  rewrite !filter_cons.
  destruct (decide (cellCost sim (x, y) ≠ commonFunctions.INFINITY)) as [Hne|Heq].
  - rewrite (decide_False (P := cellCost sim (x, y) = _)) by done.
    simpl. rewrite IH. unfold sumZ. simpl.
    rewrite <- app_assoc. simpl. do 2 f_equal. unfold fmap. lia.
  - apply dec_stable in Heq.
    rewrite (decide_True (P := cellCost sim (x, y) = _)) by done.
    simpl. rewrite IH. simpl. do 2 f_equal.
    rewrite Nat2Z.inj_succ. lia.
Qed.

(** What [BipartiteMatching] returns, in full. *)
Lemma BipartiteMatching_unfold LS1 LS2 pvm n sim :
  matrixOf LS1 LS2 pvm n = Ok sim →
  inMatrix LS1 LS2 sim →
  BipartiteMatching LS1 LS2 pvm n
  = Ok (sumZ (cellCost sim <$> keptPairs sim)
        + linePenalty n * Z.of_nat (length (discardedPairs sim))
        + linePenalty n * Z.abs (Z.of_nat (length LS1) - Z.of_nat (length LS2)),
        matched (hashShortcut LS1 LS2) ++ (original LS1 LS2 <$> keptPairs sim)).
Proof.
  unfold matrixOf, inMatrix, BipartiteMatching. intros Hsim Hin.
  rewrite Hsim. simpl.
  apply similarityMatrix_dims in Hsim as [Hlen Hrows].
  rewrite !length_fmap in *.
  pose proof (solverStep_loop sim
                (leftover LS1 (ls1Matched (hashShortcut LS1 LS2))).*1
                (leftover LS2 (ls2Matched (hashShortcut LS1 LS2))).*1
                (linePenalty n) (solverPairs sim)
                (matched (hashShortcut LS1 LS2), 0)) as Hloop.
  rewrite !length_fmap in Hloop.
  specialize (Hloop Hlen Hrows Hin).
  unfold keptPairs, discardedPairs, original.
  unfold solverPairs in *.
  destruct (decide (0 < length sim)%nat).
  - rewrite Hloop. simpl. do 2 f_equal; lia.
  - simpl. rewrite app_nil_r. do 2 f_equal; lia.
Qed.

(** C4: the cost returned by the matcher is the sum of the costs of the
    solver's pairs that are kept (the pairs of the hash shortcut cost
    nothing), plus the line penalty for every pair of the solver that is
    discarded because its cost is INFINITY, plus the line penalty times the
    difference of the lengths of the two sequences. *)
Theorem BipartiteMatching_total_cost (LS1 LS2 : list Line)
    (paramValueMap : ParamValueMap) (noOfAttributes : nat) (sim : list (list Z)) :
  matrixOf LS1 LS2 paramValueMap noOfAttributes = Ok sim →
  inMatrix LS1 LS2 sim →
  ∃ matching,
    BipartiteMatching LS1 LS2 paramValueMap noOfAttributes
    = Ok (sumZ (cellCost sim <$> keptPairs sim)
          + linePenalty noOfAttributes * Z.of_nat (length (discardedPairs sim))
          + linePenalty noOfAttributes
            * Z.abs (Z.of_nat (length LS1) - Z.of_nat (length LS2)),
          matching).
Proof.
  intros Hsim Hin. eexists. by apply BipartiteMatching_unfold.
Qed.

(** *** The hash shortcut *)

Lemma enumerate_fst {A} (l : list A) : (enumerate l).*1 = seq 0 (length l).
Proof.
  unfold enumerate. rewrite fmap_imap.
  rewrite (imap_ext _ (λ n _, id n)) by done.
  by rewrite imap_seq_0, list_fmap_id.
Qed.

Lemma enumerate_snoc {A} (l : list A) x :
  enumerate (l ++ [x]) = enumerate l ++ [(length l, x)].
Proof.
  unfold enumerate. rewrite imap_app. simpl.
  by rewrite Nat.add_0_r.
Qed.










(** *** The solver's pairs *)





End matcher.

(** The hash of the reference library has no collisions at all. *)
Lemma reference_collisionFree (LS1 LS2 : list Line) :
  @collisionFree Reference.library LS1 LS2.
Proof.
  intros l1 l2 _ _ Hh. unfold PrefixList.lineHash in Hh. simpl in Hh.
  injection Hh as Hh. by apply (inj encode) in Hh.
Qed.

Lemma BipartiteMatching_total_cost_witness :
  @matrixOf Reference.library Examples.LS1 Examples.LS2 ∅ 11 = Ok [[4]]
  ∧ @inMatrix Reference.library Examples.LS1 Examples.LS2 [[4]]
  ∧ ∃ matching,
      @PrefixList.BipartiteMatching Reference.library Examples.LS1 Examples.LS2 ∅ 11
      = Ok (sumZ (cellCost [[4]] <$> @keptPairs Reference.library [[4]])
            + PrefixList.linePenalty 11
              * Z.of_nat (length (@discardedPairs Reference.library [[4]]))
            + PrefixList.linePenalty 11
              * Z.abs (Z.of_nat (length Examples.LS1)
                       - Z.of_nat (length Examples.LS2)),
            matching).
Proof.
  assert (@matrixOf Reference.library Examples.LS1 Examples.LS2 ∅ 11 = Ok [[4]])
    as Hsim by (vm_compute; reflexivity).
  assert (@inMatrix Reference.library Examples.LS1 Examples.LS2 [[4]]) as Hin
    by (unfold inMatrix, isAssignment; cbv zeta;
        apply (bool_decide_unpack _); vm_compute; exact I).
  split; [exact Hsim|]. split; [exact Hin|].
  exact (@BipartiteMatching_total_cost Reference.library _ _ _ _ _ Hsim Hin).
Defined.



Example BipartiteMatching_example :
  @PrefixList.BipartiteMatching Reference.library Examples.LS1 Examples.LS2 ∅ 11
  = Ok (4, [(0, 1); (1, 0)]%nat).
Proof. vm_compute. reflexivity. Qed.

(** ** The block aligner (C5) *)

Section aligner.
Import MetaTemplater.
Variable functions : Functions.

Lemma cell_setCell_eq dp i j c m n :
  matrixDims dp m n → (i ≤ m)%nat → (j ≤ n)%nat →
  cell (setCell dp i j c) i j = c.
Proof.
  intros [Hlen Hrows] Hi Hj. unfold cell, setCell.
  rewrite list_lookup_alter_eq.
  destruct (lookup_lt_is_Some_2 dp i) as [row Hrow]; [lia|].
  rewrite Hrow. simpl.
  rewrite list_lookup_insert_eq; [done|].
  rewrite (Forall_lookup_1 _ _ _ _ Hrows Hrow). lia.
Qed.

Lemma cell_setCell_ne dp i j c i' j' :
  (i, j) ≠ (i', j') → cell (setCell dp i j c) i' j' = cell dp i' j'.
Proof.
  intros Hne. unfold cell, setCell.
  destruct (decide (i = i')) as [->|Hi].
  - rewrite list_lookup_alter_eq.
    destruct (dp !! i') as [row|]; simpl; [|done].
    rewrite list_lookup_insert_ne; [done|congruence].
  - by rewrite list_lookup_alter_ne.
Qed.

Lemma setCell_dims dp i j c m n :
  matrixDims dp m n → matrixDims (setCell dp i j c) m n.
Proof.
  intros [Hlen Hrows]. split; unfold setCell.
  - by rewrite length_alter.
  - apply Forall_alter; [done|].
    intros row _ Hrow. by rewrite length_insert.
Qed.

Lemma initMatrix_dims m n : matrixDims (initMatrix m n) m n.
Proof.
  split; unfold initMatrix.
  - by rewrite length_replicate.
  - apply Forall_replicate. by rewrite length_replicate.
Qed.

Lemma foldl_dims {B} (f : list (list matrixCell) → B → list (list matrixCell))
    (l : list B) dp m n :
  (∀ dp b, matrixDims dp m n → matrixDims (f dp b) m n) →
  matrixDims dp m n → matrixDims (foldl f dp l) m n.
Proof.
  intros Hf. revert dp. induction l as [|b l IH]; intros dp Hdp; simpl; auto.
Qed.

(** The instance of [cellRule] at the cell of blocks [i] and [j]. *)
Definition cellFilled (pvm : ParamValueMap) (dp : list (list matrixCell))
    (i j : nat) (b1 b2 : Block) : Prop :=
  ∃ subst matching,
    MisMatchScore b1 b2 pvm (GetLineSequence functions)
      (MinimumWeightBipartiteMatching functions) (NumberOfAttributes functions)
    = Ok (subst, matching)
    ∧ cellRule (cell dp i j) (cell dp i (S j)) (cell dp (S i) j)
               subst (GapPenalty functions b1) (GapPenalty functions b2)
               matching (cell dp (S i) (S j)).

Lemma fillCell_spec pvm dp i j b1 b2 m n r :
  matrixDims dp m n → (i < m)%nat → (j < n)%nat →
  MisMatchScore b1 b2 pvm (GetLineSequence functions)
    (MinimumWeightBipartiteMatching functions) (NumberOfAttributes functions)
  = Ok r →
  ∃ c, fillCell functions pvm (i, b1) dp (j, b2) = Ok (setCell dp (S i) (S j) c)
       ∧ cellFilled pvm (setCell dp (S i) (S j) c) i j b1 b2.
Proof.
  intros Hdims Hi Hj Hr. destruct r as [subst matching].
  unfold fillCell. simpl. rewrite Hr. simpl.
  rewrite !Nat.sub_0_r.
  set (viaDiag := score (cell dp i j) + subst).
  set (viaUp := score (cell dp i (S j)) + GapPenalty functions b1).
  set (viaLeft := score (cell dp (S i) j) + GapPenalty functions b2).
  assert (∀ c, cellRule (cell dp i j) (cell dp i (S j)) (cell dp (S i) j)
                 subst (GapPenalty functions b1) (GapPenalty functions b2)
                 matching c →
               cellFilled pvm (setCell dp (S i) (S j) c) i j b1 b2) as Hfill.
  { intros c Hc. exists subst, matching. split; [done|].
    rewrite (cell_setCell_eq _ _ _ _ m n) by (done || lia).
    rewrite (cell_setCell_ne _ _ _ _ i j), (cell_setCell_ne _ _ _ _ i (S j)),
      (cell_setCell_ne _ _ _ _ (S i) j) by (intros [=]; lia).
    done. }
  repeat case_decide; eexists; (split; [reflexivity|]); apply Hfill;
    unfold cellRule; simpl; fold viaDiag viaUp viaLeft;
    split_and!; try lia; intros; split_and!; try done; lia.
Qed.

(** Every cell before [(i0, j0)] in the order of the double loop obeys the
    recurrence. *)
Definition filledBefore (pvm : ParamValueMap) (dp : list (list matrixCell))
    (blocks1 blocks2 : list Block) (i0 j0 : nat) : Prop :=
  ∀ i j b1 b2,
    blocks1 !! i = Some b1 → blocks2 !! j = Some b2 →
    (i < i0 ∨ (i = i0 ∧ j < j0))%nat →
    cellFilled pvm dp i j b1 b2.

Lemma cellFilled_setCell pvm dp i j b1 b2 i0 j0 c :
  (i < i0 ∨ (i = i0 ∧ j < j0))%nat →
  cellFilled pvm dp i j b1 b2 →
  cellFilled pvm (setCell dp (S i0) (S j0) c) i j b1 b2.
Proof.
  intros Hlt (subst & matching & Hs & Hrule).
  exists subst, matching. split; [done|].
  rewrite (cell_setCell_ne _ _ _ _ i j), (cell_setCell_ne _ _ _ _ i (S j)),
    (cell_setCell_ne _ _ _ _ (S i) j), (cell_setCell_ne _ _ _ _ (S i) (S j))
    by (intros [=]; lia).
  done.
Qed.

Lemma fillRow_spec pvm blocks1 blocks2 i0 b1 m n :
  blocks1 !! i0 = Some b1 → (i0 < m)%nat → length blocks2 = n →
  (∀ b2, b2 ∈ blocks2 →
     ∃ r, MisMatchScore b1 b2 pvm (GetLineSequence functions)
            (MinimumWeightBipartiteMatching functions)
            (NumberOfAttributes functions) = Ok r) →
  ∀ dp, matrixDims dp m n → filledBefore pvm dp blocks1 blocks2 i0 0 →
  ∀ pre, pre `prefix_of` blocks2 →
  ∃ dp', rfoldl (fillCell functions pvm (i0, b1)) dp (enumerate pre) = Ok dp'
         ∧ matrixDims dp' m n
         ∧ filledBefore pvm dp' blocks1 blocks2 i0 (length pre).
Proof.
  intros Hb1 Hi0 Hn Htotal dp Hdims Hbefore.
  induction pre as [|x pre IH] using rev_ind; intros Hpre.
  { exists dp. by split_and!. }
  destruct IH as (dp1 & Hrun & Hdims1 & Hbefore1).
  { etrans; [|done]. by apply prefix_app_r. }
  assert (blocks2 !! length pre = Some x) as Hx.
  { destruct Hpre as [k ->]. rewrite <- app_assoc.
    by rewrite lookup_app_r, Nat.sub_diag by lia. }
  destruct (Htotal x) as [r Hr]; [by eapply list_elem_of_lookup_2|].
  destruct (fillCell_spec pvm dp1 i0 (length pre) b1 x m n r)
    as (c & Hcell & Hfilled); [done|lia| |done|].
  { apply lookup_lt_Some in Hx. lia. }
  exists (setCell dp1 (S i0) (S (length pre)) c).
  rewrite enumerate_snoc, rfoldl_app, Hrun. simpl. rewrite Hcell.
  split_and!; [done|by apply setCell_dims|].
  intros i j b1' b2' Hi Hj Hlt. rewrite length_app in Hlt. simpl in Hlt.
  destruct (decide (i = i0 ∧ j = length pre)) as [[-> ->]|Hne].
  - by simplify_eq.
  - apply cellFilled_setCell; [lia|]. apply Hbefore1; [done..|lia].
Qed.

Lemma fillRows_spec pvm blocks1 blocks2 m n :
  length blocks1 = m → length blocks2 = n →
  (∀ b1 b2, b1 ∈ blocks1 → b2 ∈ blocks2 →
     ∃ r, MisMatchScore b1 b2 pvm (GetLineSequence functions)
            (MinimumWeightBipartiteMatching functions)
            (NumberOfAttributes functions) = Ok r) →
  ∀ dp, matrixDims dp m n →
  ∀ pre, pre `prefix_of` blocks1 →
  ∃ dp', rfoldl (fillRow functions pvm blocks2) dp (enumerate pre) = Ok dp'
         ∧ matrixDims dp' m n
         ∧ filledBefore pvm dp' blocks1 blocks2 (length pre) 0.
Proof.
  intros Hm Hn Htotal dp Hdims.
  induction pre as [|x pre IH] using rev_ind; intros Hpre.
  { exists dp. split_and!; [done..|]. intros ?????? Hlt. simpl in Hlt. lia. }
  destruct IH as (dp1 & Hrun & Hdims1 & Hbefore1).
  { etrans; [|done]. by apply prefix_app_r. }
  assert (blocks1 !! length pre = Some x) as Hx.
  { destruct Hpre as [k ->]. rewrite <- app_assoc.
    by rewrite lookup_app_r, Nat.sub_diag by lia. }
  destruct (fillRow_spec pvm blocks1 blocks2 (length pre) x m n Hx)
    with (dp := dp1) (pre := blocks2) as (dp2 & Hrow & Hdims2 & Hbefore2);
    [apply lookup_lt_Some in Hx; lia|done| |done|done|done|].
  { intros b2 Hb2. apply Htotal; [by eapply list_elem_of_lookup_2|done]. }
  exists dp2. rewrite enumerate_snoc, rfoldl_app, Hrun. simpl.
  unfold fillRow at 1. simpl. rewrite Hrow.
  split_and!; [done..|].
  intros i j b1 b2 Hi Hj Hlt. rewrite length_app in Hlt. simpl in Hlt.
  apply Hbefore2; [done..|].
  apply lookup_lt_Some in Hj. lia.
Qed.

(** C5: in the matrix filled by [AlignSequences], the cell of every pair
    of blocks holds the minimum of the three ways to reach it; the
    diagonal is chosen when it is among the cheapest (pointer 1, with the
    line matching of the two blocks), the gap that consumes the block of
    the first sequence when it is cheaper than the diagonal and not dearer
    than the other gap (pointer 3), and the gap that consumes the block of
    the second sequence only when it is strictly the cheapest (pointer 2).
    The traceback at a cell with pointer 3 emits the block of the first
    sequence against a gap. *)
Theorem AlignSequences_recurrence (bs1 bs2 : Segment) (pl : ParametersLinesMap) :
  scoresDefined functions bs1 bs2 pl →
  ∃ dp,
    fillMatrix functions bs1 bs2 pl = Ok dp
    ∧ obeysRecurrence functions bs1 bs2 pl dp
    ∧ pointer3ConsumesFirst bs1 bs2 dp.
Proof.
  intros Htotal. unfold fillMatrix.
  set (m := length (blocks bs1)). set (n := length (blocks bs2)).
  set (dp2 := foldl (firstRow functions) _ _).
  assert (matrixDims dp2 m n) as Hdims.
  { apply foldl_dims; [intros; by apply setCell_dims|].
    apply foldl_dims; [intros; by apply setCell_dims|].
    apply initMatrix_dims. }
  destruct (fillRows_spec (parameterDistribution pl) (blocks bs1) (blocks bs2)
              m n eq_refl eq_refl Htotal dp2 Hdims (blocks bs1))
    as (dp & Hrun & _ & Hbefore); [done|].
  exists dp. split_and!; [done| |].
  - intros i j b1 b2 Hi Hj. apply (Hbefore i j b1 b2 Hi Hj).
    apply lookup_lt_Some in Hi. lia.
  - intros i j b1 fuel t Hi Hti Htj Hp. simpl.
    rewrite Hti, Htj, Hp. simpl. rewrite Nat.sub_0_r.
    unfold listitem. by rewrite Hi.
Qed.
End aligner.

Lemma AlignSequences_recurrence_witness :
  scoresDefined (@main.prefixListFunctions Reference.library)
    Examples.template Examples.device Examples.bookkeeping
  ∧ ∃ dp,
      MetaTemplater.fillMatrix (@main.prefixListFunctions Reference.library)
        Examples.template Examples.device Examples.bookkeeping = Ok dp
      ∧ obeysRecurrence (@main.prefixListFunctions Reference.library)
          Examples.template Examples.device Examples.bookkeeping dp
      ∧ pointer3ConsumesFirst Examples.template Examples.device dp.
Proof.
  assert (scoresDefined (@main.prefixListFunctions Reference.library)
            Examples.template Examples.device Examples.bookkeeping) as Hdef.
  { intros b1 b2 H1 H2.
    repeat (apply elem_of_cons in H1 as [->|H1]);
      try (by apply elem_of_nil in H1);
      repeat (apply elem_of_cons in H2 as [->|H2]);
      try (by apply elem_of_nil in H2);
      eexists; vm_compute; reflexivity. }
  split; [exact Hdef|].
  exact (AlignSequences_recurrence _ _ _ _ Hdef).
Defined.

Example AlignSequences_example :
  (λ dp : list (list matrixCell),
     (λ row : list matrixCell, (λ c, (score c, pointer c)) <$> row) <$> dp)
    <$> MetaTemplater.fillMatrix (@main.prefixListFunctions Reference.library)
          Examples.template Examples.device Examples.bookkeeping
  = Ok [[(0, -1); (28, 0)]; [(28, 0); (4, 1)]; [(42, 0); (18, 3)]].
Proof. vm_compute. reflexivity. Qed.

(** ** Two ACL lines whose protocols differ (C3) *)

Section mismatch.
Context `{Library}.
Import PrefixList MetaTemplater.

Variables (t d : Line) (tp dp old : pyval).
Hypothesis Ht : t !! TAG = Some tp.
Hypothesis Hd : d !! TAG = Some dp.
Hypothesis Hne : tp ≠ dp.
Hypothesis Hold : t !! LINENUM = Some old.
Hypothesis Hhash : lineHash t ≠ lineHash d.
Hypothesis Hsolver : munkres_compute [[commonFunctions.INFINITY]] = [(0, 0)%nat].

Lemma mismatch_shortcut :
  hashShortcut [t] [d] = mkShortcut {[lineHash t := [0%nat]]} ∅ ∅ [].
Proof.
  unfold hashShortcut, enumerate. simpl.
  unfold hashAdd, hashPop. simpl.
  rewrite lookup_empty. simpl.
  rewrite insert_empty.
  by rewrite lookup_singleton_ne.
Qed.

Lemma mismatch_matrix pvm :
  matrixOf [t] [d] pvm ACL.ATTRIBUTES = Ok [[commonFunctions.INFINITY]].
Proof.
  unfold matrixOf. rewrite mismatch_shortcut. simpl.
  unfold leftover, enumerate. simpl.
  rewrite !filter_cons_True by set_solver. simpl.
  unfold LineScoreFunc. rewrite decide_False by done.
  unfold similarityMatrix. simpl.
  unfold ACL.LineScore, getitem. rewrite Ht, Hd. simpl.
  by rewrite decide_True.
Qed.

Lemma mismatch_matching pvm :
  BipartiteMatching [t] [d] pvm ACL.ATTRIBUTES = Ok (ACL.LINE_PENALTY, []).
Proof.
  rewrite (BipartiteMatching_unfold _ _ _ _ _ (mismatch_matrix pvm)).
  - unfold keptPairs, discardedPairs, solverPairs. simpl.
    rewrite Hsolver, mismatch_shortcut. simpl.
    by unfold linePenalty.
  - unfold inMatrix, solverPairs. simpl. rewrite Hsolver, mismatch_shortcut. simpl.
    unfold leftover, enumerate. simpl.
    rewrite !filter_cons_True by set_solver.
    repeat constructor.
Qed.

Variables (a : option string) (bs1 bs2 : Segment).
Hypothesis Hbs1 : blocks bs1 = [mkBlock a [t]].
Hypothesis Hbs2 : blocks bs2 = [mkBlock a [d]].

Lemma mismatch_matrix_filled pl :
  fillMatrix main.aclFunctions bs1 bs2 pl
  = Ok [[newCell; mkCell ACL.LINE_PENALTY 0 []];
        [mkCell ACL.LINE_PENALTY 0 []; mkCell ACL.LINE_PENALTY 1 []]].
Proof.
  unfold fillMatrix. rewrite Hbs1, Hbs2. simpl.
  unfold fillRow, fillCell, MisMatchScore. simpl.
  rewrite decide_False by (by intros ?).
  unfold ACL.LineSequence. simpl.
  rewrite (mismatch_matching (parameterDistribution pl)). simpl.
  done.
Qed.

Lemma mismatch_alignment pl :
  AlignSequences main.aclFunctions bs1 bs2 pl
  = Ok ([None; None; Some (mkBlock a [t])],
        [None; None; Some (mkBlock a [d])], [[]]).
Proof.
  unfold AlignSequences. rewrite mismatch_matrix_filled.
  rewrite Hbs1, Hbs2. simpl. done.
Qed.

Lemma mismatch_merge pl device :
  TemplateGenerator [None; None; Some (mkBlock a [t])]
                    [None; None; Some (mkBlock a [d])] [[]] pl device
                    ACL.ATTRIBUTES
  = Ok ([mkBlock a [<[LINENUM := PInt 0]> t; <[LINENUM := PInt 1]> d]],
        let pl' := remapLineNumbers pl {[old := 0]} in
        withLineMapping pl' (od_set (lineMapping pl') device [1])).
Proof.
  unfold TemplateGenerator. simpl.
  unfold MergeLines, leftout, enumerate. simpl.
  rewrite !filter_cons_True by set_solver. simpl.
  unfold templateOnly. simpl.
  unfold getitem. rewrite Hold. simpl.
  unfold deviceOnly. simpl.
  by rewrite insert_empty.
Qed.

(** C3, amended: for two ACL segments of one block with one line each,
    with equal actions and different protocols, the line scorer returns
    INFINITY for the pair of lines; the bipartite matcher discards the
    pair, reports no matched pair and returns one LINE_PENALTY_ACL (40) as
    its score; the aligner takes the diagonal, so 40 is the alignment
    score; and the merger emits both lines as separate lines of the merged
    block, the line of the meta-template first. *)
Theorem ACL_protocol_mismatch (pl : ParametersLinesMap) (device : string) :
  ACL.LineScore t d (parameterDistribution pl) = Ok commonFunctions.INFINITY
  ∧ BipartiteMatching [t] [d] (parameterDistribution pl) ACL.ATTRIBUTES
    = Ok (ACL.LINE_PENALTY, [])
  ∧ (∃ dp, fillMatrix main.aclFunctions bs1 bs2 pl = Ok dp
           ∧ cell dp 0 0 = newCell
           ∧ cell dp 1 1 = mkCell ACL.LINE_PENALTY 1 [])
  ∧ (∃ b1 b2, AlignSequences main.aclFunctions bs1 bs2 pl
              = Ok ([None; None; Some b1], [None; None; Some b2], [[]])
              ∧ ∃ merged pl',
                  TemplateGenerator [None; None; Some b1] [None; None; Some b2]
                                    [[]] pl device ACL.ATTRIBUTES
                  = Ok ([merged], pl')
                  ∧ lines merged
                    = [<[LINENUM := PInt 0]> t; <[LINENUM := PInt 1]> d]).
Proof.
  split_and!.
  - unfold ACL.LineScore, getitem. rewrite Ht, Hd. simpl.
    by rewrite decide_True.
  - apply mismatch_matching.
  - eexists. split; [apply mismatch_matrix_filled|done].
  - do 2 eexists. split; [apply mismatch_alignment|].
    do 2 eexists. split; [apply mismatch_merge|done].
Qed.
End mismatch.

(** C3 as stated fails: for [permit tcp any any] against [permit udp any any]
    the matcher returns 40, which is one LINE_PENALTY_ACL and neither
    INFINITY nor twice the penalty, and the alignment score is 40. *)
Lemma ACL_protocol_mismatch_counterexample :
  @PrefixList.BipartiteMatching Reference.library
    [Examples.aclLine "TCP"] [Examples.aclLine "UDP"] ∅ ACL.ATTRIBUTES
  = Ok (40, [])
  ∧ 40 ≠ commonFunctions.INFINITY
  ∧ (λ dp, score (MetaTemplater.cell dp 1 1) - score (MetaTemplater.cell dp 0 0))
      <$> MetaTemplater.fillMatrix (@main.aclFunctions Reference.library)
            Examples.tcpSegment Examples.udpSegment Examples.aclBookkeeping
    = Ok 40
  ∧ 40 ≠ 2 * ACL.LINE_PENALTY.
Proof. by vm_compute. Qed.

Lemma ACL_protocol_mismatch_witness :
  Examples.aclLine "TCP" !! TAG = Some (PStr "TCP")
  ∧ Examples.aclLine "UDP" !! TAG = Some (PStr "UDP")
  ∧ PStr "TCP" ≠ PStr "UDP"
  ∧ Examples.aclLine "TCP" !! LINENUM = Some (PInt 0)
  ∧ @PrefixList.lineHash Reference.library (Examples.aclLine "TCP")
    ≠ @PrefixList.lineHash Reference.library (Examples.aclLine "UDP")
  ∧ @munkres_compute Reference.library [[commonFunctions.INFINITY]] = [(0, 0)%nat]
  ∧ blocks Examples.tcpSegment = [mkBlock (Some "PERMIT") [Examples.aclLine "TCP"]]
  ∧ blocks Examples.udpSegment = [mkBlock (Some "PERMIT") [Examples.aclLine "UDP"]]
  ∧ ACL.LineScore (Examples.aclLine "TCP") (Examples.aclLine "UDP")
      (parameterDistribution Examples.aclBookkeeping)
    = Ok commonFunctions.INFINITY
  ∧ @PrefixList.BipartiteMatching Reference.library
      [Examples.aclLine "TCP"] [Examples.aclLine "UDP"]
      (parameterDistribution Examples.aclBookkeeping) ACL.ATTRIBUTES
    = Ok (ACL.LINE_PENALTY, [])
  ∧ (∃ dp, MetaTemplater.fillMatrix (@main.aclFunctions Reference.library)
             Examples.tcpSegment Examples.udpSegment Examples.aclBookkeeping
           = Ok dp
           ∧ MetaTemplater.cell dp 0 0 = newCell
           ∧ MetaTemplater.cell dp 1 1 = mkCell ACL.LINE_PENALTY 1 [])
  ∧ (∃ b1 b2,
       MetaTemplater.AlignSequences (@main.aclFunctions Reference.library)
         Examples.tcpSegment Examples.udpSegment Examples.aclBookkeeping
       = Ok ([None; None; Some b1], [None; None; Some b2], [[]])
       ∧ ∃ merged pl',
           PrefixList.TemplateGenerator [None; None; Some b1] [None; None; Some b2]
             [[]] Examples.aclBookkeeping "B" ACL.ATTRIBUTES
           = Ok ([merged], pl')
           ∧ lines merged
             = [<[LINENUM := PInt 0]> (Examples.aclLine "TCP");
                <[LINENUM := PInt 1]> (Examples.aclLine "UDP")]).
Proof.
  assert (Examples.aclLine "TCP" !! TAG = Some (PStr "TCP")) as Ht
    by reflexivity.
  assert (Examples.aclLine "UDP" !! TAG = Some (PStr "UDP")) as Hd
    by reflexivity.
  assert (PStr "TCP" ≠ PStr "UDP") as Hne by discriminate.
  assert (Examples.aclLine "TCP" !! LINENUM = Some (PInt 0)) as Hold
    by reflexivity.
  assert (@PrefixList.lineHash Reference.library (Examples.aclLine "TCP")
          ≠ @PrefixList.lineHash Reference.library (Examples.aclLine "UDP"))
    as Hhash by (vm_compute; discriminate).
  assert (@munkres_compute Reference.library [[commonFunctions.INFINITY]]
          = [(0, 0)%nat]) as Hsolver by reflexivity.
  split_and!; [exact Ht|exact Hd|exact Hne|exact Hold|exact Hhash|exact Hsolver
              |reflexivity|reflexivity|..];
    apply (@ACL_protocol_mismatch Reference.library _ _ _ _ _ Ht Hd Hne Hold Hhash
             Hsolver (Some "PERMIT") Examples.tcpSegment Examples.udpSegment
             eq_refl eq_refl Examples.aclBookkeeping "B").
Defined.

(** ** The template merger (C6, C7) *)

Section merger.
Import PrefixList.

Lemma addParameter_lookup pl param value newDevice device :
  parameters (addParameter pl param value newDevice) !! device
  = (λ data, if decide (device ≠ newDevice) then <[param := value]> data else data)
      <$> parameters pl !! device.
Proof.
  unfold addParameter. simpl. rewrite map_lookup_imap.
  by destruct (parameters pl !! device).
Qed.

(** What the allocation of a fresh parameter does. *)
Lemma newParameter_spec pl device line a tv dv data :
  parameters pl !! device = Some data →
  ∃ pl',
    newParameter pl device line a tv dv
    = Ok (pl', <[a := paramName (counter pl)]> line)
    ∧ counter pl' = S (counter pl)
    ∧ parameters pl' !! device = Some (<[paramName (counter pl) := dv]> data)
    ∧ (∀ other, other ≠ device →
         parameters pl' !! other
         = <[paramName (counter pl) := tv]> <$> parameters pl !! other)
    ∧ lineMapping pl' = lineMapping pl.
Proof.
  intros Hdata. unfold newParameter, setParameter, getitem. simpl.
  rewrite Hdata. simpl. eexists. split; [reflexivity|].
  split_and!; [done| | |done].
  - rewrite addParameter_lookup. simpl. rewrite lookup_insert_eq. simpl.
    by rewrite decide_False by (by intros ?).
  - intros other Hother. rewrite addParameter_lookup. simpl.
    rewrite lookup_insert_ne by done.
    destruct (parameters pl !! other); simpl; [|done].
    by rewrite decide_True.
Qed.

(** C6: at a matched pair of lines, when attribute [k] is present on both
    sides with different values and the value of the template is not a
    parameter of the parameter-value map, the parameter [P<counter>] is
    allocated and the counter incremented; the new device gets its own
    value for it, every other device of the bookkeeping gets the old
    literal of the template, and the merged line carries the parameter at
    attribute [k].  For [permit 10.0.0.0/8 exact] on device A and
    [permit 10.1.0.0/8 exact] on device B the only parameter is P0, at the
    second octet (attribute 4), with value "0" for A and "1" for B. *)
Theorem MergeLines_fresh_parameter (paramValueMap : ParamValueMap)
    (newDevice : string) (tLine dLine line : Line) (pl : ParametersLinesMap)
    (k : nat) (templateVal deviceVal : pyval) (data : gmap pyval pyval) :
  tLine !! Z.of_nat k = Some templateVal →
  dLine !! Z.of_nat k = Some deviceVal →
  truthy templateVal = true →
  truthy deviceVal = true →
  templateVal ≠ deviceVal →
  paramValueMap !! templateVal = None →
  parameters pl !! newDevice = Some data →
  (∃ pl',
     mergeAttribute paramValueMap newDevice tLine dLine (pl, line) k
     = Ok (pl', <[Z.of_nat k := paramName (counter pl)]> line)
     ∧ counter pl' = S (counter pl)
     ∧ parameters pl' !! newDevice
       = Some (<[paramName (counter pl) := deviceVal]> data)
     ∧ (∀ d, d ≠ newDevice →
          parameters pl' !! d
          = <[paramName (counter pl) := templateVal]> <$> parameters pl !! d))
  ∧ (λ r : option (Segment * ParametersLinesMap) * nat
           * Scan (list PrefixJson),
       (λ mp : Segment * ParametersLinesMap,
          (counter mp.2, parameters mp.2,
           (λ b, (.!! 4) <$> lines b) <$> blocks mp.1)) <$> r.1.1)
      <$> MetaTemplater.generalize
            (@GetBlockSequence Reference.library)
            (@main.prefixListFunctions Reference.library) "X$"
            [Examples.deviceWith "A" [Examples.permit10];
             Examples.deviceWith "B" [Examples.permit10_1]]
            (mkScan ∅ ∅ [])
    = Ok (Some (1%nat,
                {[ "A" := {[ paramName 0 := PStr "0" ]};
                   "B" := {[ paramName 0 := PStr "1" ]} ]},
                [[Some (paramName 0)]])).
Proof.
  intros Ht Hd Htt Htd Hne Hpvm Hdata. split; [|by vm_compute].
  unfold mergeAttribute. simpl. rewrite Ht, Hd. simpl. rewrite Htt, Htd. simpl.
  unfold getitem. rewrite Ht, Hd. simpl.
  rewrite decide_True by done. rewrite Hpvm.
  destruct (newParameter_spec pl newDevice line (Z.of_nat k) templateVal
              deviceVal data Hdata) as (pl' & Hnew & Hc & Hdev & Hoth & _).
  exists pl'. by split_and!.
Qed.

(** *** The order of the merged lines *)

Lemma unmatched_snoc (pre : list Line) x tmp :
  unmatched (pre ++ [x]) tmp
  = unmatched pre tmp ++ (if decide (length pre ∈ tmp) then [] else [x]).
Proof.
  unfold unmatched. rewrite enumerate_snoc, filter_app, fmap_app. f_equal.
  rewrite filter_cons, filter_nil. simpl.
  destruct (decide (length pre ∈ tmp)).
  - by rewrite decide_False by (intros Hn; by apply Hn).
  - by rewrite decide_True.
Qed.

Lemma renumbered_snoc start ls x :
  renumbered start (ls ++ [x])
  = renumbered start ls ++ [<[LINENUM := PInt (start + Z.of_nat (length ls))]> x].
Proof.
  unfold renumbered. rewrite imap_app. simpl. by rewrite Nat.add_0_r.
Qed.

Lemma recorded_snoc start ls x :
  recorded start (ls ++ [x])
  = recorded start ls ++ [(oldOf x, start + Z.of_nat (length ls))].
Proof.
  unfold recorded. rewrite imap_app. simpl. by rewrite Nat.add_0_r.
Qed.

Lemma identities_snoc start n :
  identities start (S n) = identities start n ++ [start + Z.of_nat n].
Proof.
  unfold identities. by rewrite seq_S, fmap_app.
Qed.

Lemma elem_of_leftout n tmp i :
  i ∈ leftout n tmp ↔ (i < n)%nat ∧ i ∉ tmp.
Proof.
  unfold leftout. rewrite list_elem_of_filter, elem_of_seq. naive_solver lia.
Qed.

(** First pass. *)
Lemma templateOnly_loop (templateLines : list Line) tmp st :
  Forall (λ l, is_Some (l !! LINENUM)) templateLines →
  ∀ pre, pre `prefix_of` templateLines →
  rfoldl (templateOnly (leftout (length templateLines) tmp)) (st, [])
         (enumerate pre)
  = Ok (mkMerge (parametersLines st)
                (recordAll (oldtoNewLineMap st)
                           (recorded (lineNum st) (unmatched pre tmp)))
                (newDeviceLines st)
                (lineNum st + Z.of_nat (length (unmatched pre tmp))),
        renumbered (lineNum st) (unmatched pre tmp)).
Proof.
  intros Hall. induction pre as [|x pre IH] using rev_ind; intros Hpre.
  { simpl. destruct st. simpl. do 3 f_equal. lia. }
  rewrite enumerate_snoc, rfoldl_app, IH
    by (etrans; [|done]; by apply prefix_app_r).
  simpl. rewrite unmatched_snoc.
  assert (length pre < length templateLines)%nat as Hlt.
  { apply prefix_length in Hpre. rewrite length_app in Hpre. simpl in Hpre. lia. }
  assert (is_Some (x !! LINENUM)) as [old Hold].
  { rewrite Forall_forall in Hall. apply Hall.
    destruct Hpre as [k ->]. set_solver. }
  destruct (decide (length pre ∈ tmp)) as [Hin|Hnin].
  - rewrite decide_False by (rewrite elem_of_leftout; naive_solver).
    by rewrite !app_nil_r.
  - rewrite decide_True by (rewrite elem_of_leftout; naive_solver).
    unfold getitem. rewrite Hold. simpl.
    rewrite recorded_snoc, renumbered_snoc, length_app. simpl.
    unfold recordAll. rewrite foldl_snoc. simpl.
    unfold oldOf. rewrite Hold. simpl.
    do 3 f_equal. lia.
Qed.

(** Second pass. *)
Lemma deviceOnly_loop (deviceLines : list Line) tmp st out :
  ∀ pre, pre `prefix_of` deviceLines →
  foldl (deviceOnly (leftout (length deviceLines) tmp)) (st, out)
        (enumerate pre)
  = (mkMerge (parametersLines st) (oldtoNewLineMap st)
             (newDeviceLines st
              ++ identities (lineNum st) (length (unmatched pre tmp)))
             (lineNum st + Z.of_nat (length (unmatched pre tmp))),
     out ++ renumbered (lineNum st) (unmatched pre tmp)).
Proof.
  induction pre as [|x pre IH] using rev_ind; intros Hpre.
  { simpl. destruct st. simpl. rewrite !app_nil_r. do 2 f_equal. lia. }
  rewrite enumerate_snoc, foldl_snoc, IH
    by (etrans; [|done]; by apply prefix_app_r).
  simpl. rewrite unmatched_snoc.
  assert (length pre < length deviceLines)%nat as Hlt.
  { apply prefix_length in Hpre. rewrite length_app in Hpre. simpl in Hpre. lia. }
  destruct (decide (length pre ∈ tmp)) as [Hin|Hnin].
  - rewrite decide_False by (rewrite elem_of_leftout; naive_solver).
    by rewrite !app_nil_r.
  - rewrite decide_True by (rewrite elem_of_leftout; naive_solver).
    rewrite renumbered_snoc, length_app. simpl.
    rewrite Nat.add_1_r, identities_snoc.
    rewrite <- !app_assoc. do 2 f_equal. lia.
Qed.

Lemma recorded_cons start x ls :
  recorded start (x :: ls) = (oldOf x, start) :: recorded (start + 1) ls.
Proof.
  unfold recorded. cbn -[Z.of_nat Z.add]. change (Z.of_nat 0) with 0.
  rewrite Z.add_0_r. f_equal.
  apply imap_ext. intros k l _. cbn -[Z.of_nat Z.add]. f_equal. lia.
Qed.

Lemma identities_cons start n :
  identities start (S n) = start :: identities (start + 1) n.
Proof.
  unfold identities. cbn -[Z.of_nat Z.add]. change (Z.of_nat 0) with 0.
  rewrite Z.add_0_r. f_equal.
  rewrite <- fmap_S_seq, <- list_fmap_compose.
  apply list_fmap_ext. intros _ k _. cbn -[Z.of_nat Z.add]. lia.
Qed.

Lemma identities_app start n m :
  identities start (n + m)
  = identities start n ++ identities (start + Z.of_nat n) m.
Proof.
  revert start. induction n as [|n IH]; intros start.
  - simpl. by rewrite Z.add_0_r.
  - simpl Nat.add. rewrite !identities_cons, IH. simpl. do 3 f_equal. lia.
Qed.

Lemma mergeAttribute_ok pvm device tLine dLine pl line k :
  is_Some (parameters pl !! device) →
  ∃ pl' line',
    mergeAttribute pvm device tLine dLine (pl, line) k = Ok (pl', line')
    ∧ is_Some (parameters pl' !! device)
    ∧ line' !! LINENUM = line !! LINENUM.
Proof.
  intros [data Hdata].
  assert (∀ tv dv, ∃ pl' line',
            newParameter pl device line (Z.of_nat k) tv dv = Ok (pl', line')
            ∧ is_Some (parameters pl' !! device)
            ∧ line' !! LINENUM = line !! LINENUM) as Hnew.
  { intros tv dv.
    destruct (newParameter_spec pl device line (Z.of_nat k) tv dv data Hdata)
      as (pl' & Hn & _ & Hd & _).
    exists pl', (<[Z.of_nat k := paramName (counter pl)]> line).
    split_and!; [done|by rewrite Hd|].
    unfold LINENUM. by rewrite lookup_insert_ne by lia. }
  unfold mergeAttribute. simpl.
  destruct (tLine !! Z.of_nat k) as [tv|] eqn:Ht;
    destruct (dLine !! Z.of_nat k) as [dv|] eqn:Hd; simpl;
    unfold getitem; rewrite ?Ht, ?Hd; simpl.
  - destruct (truthy tv) eqn:Htt; destruct (truthy dv) eqn:Htd; simpl;
      try apply Hnew; try (exists pl, line; by split_and!).
    destruct (decide (tv ≠ dv)); [|exists pl, line; by split_and!].
    destruct (pvm !! tv); [|apply Hnew].
    unfold setParameter, getitem. rewrite Hdata. simpl.
    do 2 eexists. split_and!; [done| |done]. simpl.
    by rewrite lookup_insert_eq.
  - rewrite andb_false_r. exists pl, line. by split_and!.
  - destruct (truthy dv); [apply Hnew|exists pl, line; by split_and!].
  - exists pl, line. by split_and!.
Qed.

Lemma mergeAttributes_ok pvm device tLine dLine attributes :
  ∀ pl line, is_Some (parameters pl !! device) →
  ∃ pl' line',
    rfoldl (mergeAttribute pvm device tLine dLine) (pl, line) attributes
    = Ok (pl', line')
    ∧ is_Some (parameters pl' !! device)
    ∧ line' !! LINENUM = line !! LINENUM.
Proof.
  induction attributes as [|k attributes IH]; intros pl line Hdev; simpl.
  { exists pl, line. by split_and!. }
  destruct (mergeAttribute_ok pvm device tLine dLine pl line k Hdev)
    as (pl1 & line1 & -> & Hdev1 & Hl1).
  simpl. destruct (IH pl1 line1 Hdev1) as (pl2 & line2 & -> & Hdev2 & Hl2).
  exists pl2, line2. split_and!; [done..|congruence].
Qed.

(** Third pass. *)
Lemma mergePair_loop pvm device n (templateLines deviceLines : list Line) :
  Forall (λ l, is_Some (l !! LINENUM)) templateLines →
  ∀ matching st out,
  Forall (λ ij : nat * nat, (ij.1 < length templateLines)%nat
                            ∧ (ij.2 < length deviceLines)%nat) matching →
  is_Some (parameters (parametersLines st) !! device) →
  ∃ pl' merged,
    rfoldl (mergePair pvm device n templateLines deviceLines) (st, out) matching
    = Ok (mkMerge pl'
                  (recordAll (oldtoNewLineMap st)
                             (recorded (lineNum st)
                                       (matchedTemplate templateLines matching)))
                  (newDeviceLines st ++ identities (lineNum st) (length matching))
                  (lineNum st + Z.of_nat (length matching)),
          out ++ merged)
    ∧ length merged = length matching
    ∧ ∀ k line, merged !! k = Some line →
        line !! LINENUM = Some (PInt (lineNum st + Z.of_nat k)).
Proof.
  intros Hall.
  induction matching as [|[i j] matching IH]; intros st out Hin Hdev.
  { exists (parametersLines st), []. simpl. destruct st. simpl.
    rewrite !app_nil_r. split_and!; [do 3 f_equal; lia|done|done]. }
  apply Forall_cons in Hin as [[Hi Hj] Hin]. simpl in Hi, Hj.
  destruct (lookup_lt_is_Some_2 _ _ Hi) as [tLine HtLine].
  destruct (lookup_lt_is_Some_2 _ _ Hj) as [dLine HdLine].
  assert (is_Some (tLine !! LINENUM)) as [old Hold]
    by exact (Forall_lookup_1 _ _ _ _ Hall HtLine).
  destruct (mergeAttributes_ok pvm device tLine dLine (seq 0 n)
              (parametersLines st) tLine Hdev)
    as (pl1 & line1 & Hattrs & Hdev1 & Hl1).
  assert (mergePair pvm device n templateLines deviceLines (st, out) (i, j)
          = Ok (mkMerge pl1 (<[old := lineNum st]> (oldtoNewLineMap st))
                        (newDeviceLines st ++ [lineNum st]) (lineNum st + 1),
                out ++ [<[LINENUM := PInt (lineNum st)]> line1])) as Hstep.
  { unfold mergePair, listitem. simpl.
    rewrite HtLine. simpl. rewrite HdLine. simpl. rewrite Hattrs. simpl.
    unfold getitem. by rewrite Hl1, Hold. }
  cbn [rfoldl]. rewrite Hstep. cbn [mbind result_bind].
  edestruct (IH (mkMerge pl1 (<[old := lineNum st]> (oldtoNewLineMap st))
                         (newDeviceLines st ++ [lineNum st]) (lineNum st + 1))
                (out ++ [<[LINENUM := PInt (lineNum st)]> line1]))
    as (pl2 & merged & Hrun & Hlen & Hids); [done|done|].
  rewrite Hrun. cbn [lineNum oldtoNewLineMap newDeviceLines parametersLines].
  exists pl2, (<[LINENUM := PInt (lineNum st)]> line1 :: merged).
  split_and!.
  - unfold matchedTemplate. rewrite fmap_cons.
    rewrite recorded_cons. cbn [length]. rewrite identities_cons.
    cbn [fst snd]. rewrite HtLine. cbn [default].
    unfold oldOf at 1, id. rewrite Hold. cbn [default recordAll foldl fst snd].
    rewrite <- !app_assoc. cbn [app].
    do 3 f_equal. lia.
  - simpl. by rewrite Hlen.
  - intros [|k] line; simpl.
    + intros [= <-]. unfold LINENUM. rewrite lookup_insert_eq.
      do 2 f_equal. lia.
    + intros Hk. rewrite (Hids k line Hk). simpl. do 2 f_equal. lia.
Qed.

Lemma recordAll_app m l k : recordAll m (l ++ k) = recordAll (recordAll m l) k.
Proof. unfold recordAll. by rewrite foldl_app. Qed.

(** C7: [MergeLines] emits first the lines of the template that are not
    in the matching, in their order and with fresh contiguous identities
    from the running line number on, recording their old -> new identities
    and leaving them out of the lines of the new device; then the lines of
    the device that are not in the matching, whose fresh identities are
    added to the lines of the new device; then the matched pairs, whose
    identities are recorded and added to the lines of the new device. *)
Theorem MergeLines_order (templateLines deviceLines : list Line) (st : Merge)
    (matching : list (nat * nat)) (device : string) (noOfAttributes : nat) :
  Forall (λ l, is_Some (l !! LINENUM)) templateLines →
  Forall (λ ij : nat * nat, (ij.1 < length templateLines)%nat
                            ∧ (ij.2 < length deviceLines)%nat) matching →
  is_Some (parameters (parametersLines st) !! device) →
  ∃ combinedLines st',
    MergeLines templateLines deviceLines st matching device noOfAttributes
    = Ok (combinedLines, st')
    ∧ mergedInOrder templateLines deviceLines st matching combinedLines st'.
Proof.
  intros Hall Hin Hdev. unfold MergeLines.
  rewrite (templateOnly_loop templateLines matching.*1 st Hall templateLines)
    by done.
  cbn [mbind result_bind].
  rewrite (deviceOnly_loop deviceLines matching.*2 _ _ deviceLines) by done.
  cbn [lineNum oldtoNewLineMap newDeviceLines parametersLines].
  edestruct (mergePair_loop (parameterDistribution (parametersLines st)) device
               noOfAttributes templateLines deviceLines Hall matching)
    as (pl' & merged & Hrun & Hlen & Hids); [exact Hin| |].
  2: { rewrite Hrun. cbn [mbind result_bind fst snd].
       do 2 eexists. split; [reflexivity|].
       exists merged. cbn [lineNum oldtoNewLineMap newDeviceLines parametersLines].
       split_and!.
       - by rewrite <- app_assoc.
       - done.
       - intros k line Hk. rewrite (Hids k line Hk). done.
       - done.
       - by rewrite <- app_assoc.
       - by rewrite recordAll_app. }
  done.
Qed.
End merger.

Lemma MergeLines_fresh_parameter_witness :
  Examples.prefixLine 0 "10" "0" !! Z.of_nat 4 = Some (PStr "0")
  ∧ Examples.prefixLine 0 "10" "1" !! Z.of_nat 4 = Some (PStr "1")
  ∧ truthy (PStr "0") = true
  ∧ truthy (PStr "1") = true
  ∧ PStr "0" ≠ PStr "1"
  ∧ (∅ : ParamValueMap) !! PStr "0" = None
  ∧ parameters Examples.bookkeeping !! "B" = Some ∅
  ∧ ∃ pl',
      PrefixList.mergeAttribute ∅ "B" (Examples.prefixLine 0 "10" "0")
        (Examples.prefixLine 0 "10" "1")
        (Examples.bookkeeping, Examples.prefixLine 0 "10" "0") 4
      = Ok (pl', <[Z.of_nat 4 := paramName (counter Examples.bookkeeping)]>
                   (Examples.prefixLine 0 "10" "0"))
      ∧ counter pl' = S (counter Examples.bookkeeping)
      ∧ parameters pl' !! "B"
        = Some (<[paramName (counter Examples.bookkeeping) := PStr "1"]> ∅)
      ∧ (∀ d, d ≠ "B" →
           parameters pl' !! d
           = <[paramName (counter Examples.bookkeeping) := PStr "0"]>
               <$> parameters Examples.bookkeeping !! d).
Proof.
  assert (Examples.prefixLine 0 "10" "0" !! Z.of_nat 4 = Some (PStr "0")) as Ht
    by reflexivity.
  assert (Examples.prefixLine 0 "10" "1" !! Z.of_nat 4 = Some (PStr "1")) as Hd
    by reflexivity.
  assert (PStr "0" ≠ PStr "1") as Hne by discriminate.
  assert ((∅ : ParamValueMap) !! PStr "0" = None) as Hpvm by reflexivity.
  assert (parameters Examples.bookkeeping !! "B" = Some ∅) as Hdata
    by reflexivity.
  split_and!; [exact Ht|exact Hd|reflexivity|reflexivity|exact Hne|exact Hpvm
              |exact Hdata|].
  exact (proj1 (MergeLines_fresh_parameter ∅ "B" _ _
                  (Examples.prefixLine 0 "10" "0") Examples.bookkeeping 4 _ _ ∅
                  Ht Hd eq_refl eq_refl Hne Hpvm Hdata)).
Defined.

Lemma MergeLines_order_witness :
  Forall (λ l : Line, is_Some (l !! LINENUM)) Examples.LS1
  ∧ Forall (λ ij : nat * nat, (ij.1 < length Examples.LS1)%nat
                              ∧ (ij.2 < length Examples.LS2)%nat) [(0, 1)%nat]
  ∧ is_Some (parameters Examples.bookkeeping !! "B")
  ∧ ∃ combinedLines st',
      PrefixList.MergeLines Examples.LS1 Examples.LS2
        (PrefixList.mkMerge Examples.bookkeeping ∅ [] 0) [(0, 1)%nat] "B" 11
      = Ok (combinedLines, st')
      ∧ mergedInOrder Examples.LS1 Examples.LS2
          (PrefixList.mkMerge Examples.bookkeeping ∅ [] 0) [(0, 1)%nat]
          combinedLines st'.
Proof.
  assert (Forall (λ l : Line, is_Some (l !! LINENUM)) Examples.LS1) as Hall
    by (repeat constructor; by eexists).
  assert (Forall (λ ij : nat * nat, (ij.1 < length Examples.LS1)%nat
                                    ∧ (ij.2 < length Examples.LS2)%nat)
                 [(0, 1)%nat]) as Hin
    by (repeat constructor; simpl; lia).
  assert (is_Some (parameters Examples.bookkeeping !! "B")) as Hdev
    by (by eexists).
  split_and!; [exact Hall|exact Hin|exact Hdev|].
  exact (MergeLines_order Examples.LS1 Examples.LS2
           (PrefixList.mkMerge Examples.bookkeeping ∅ [] 0) [(0, 1)%nat] "B" 11
           Hall Hin Hdev).
Defined.

Example MergeLines_example :
  (λ r : list Line * PrefixList.Merge,
     ((λ l : Line, (l !! LINENUM, l !! 3, l !! 4)) <$> r.1,
      PrefixList.newDeviceLines r.2, PrefixList.lineNum r.2))
    <$> PrefixList.MergeLines Examples.LS1 Examples.LS2
          (PrefixList.mkMerge Examples.bookkeeping ∅ [] 0) [(0, 1)%nat] "B" 11
  = Ok ([(Some (PInt 0), Some (PStr "11"), Some (PStr "0"));
         (Some (PInt 1), Some (PStr "10"), Some (PStr "1"));
         (Some (PInt 2), Some (PStr "10"), Some (PStr "0"))],
        [1; 2], 3).
Proof. by vm_compute. Qed.

(** ** The predicate builder (C9) *)

Section predicates.
Import PrefixList.

Lemma rfoldl_invariant {A B} (P : A → Prop) (f : A → B → result A) l :
  (∀ a b a', P a → f a b = Ok a' → P a') →
  ∀ a a', P a → rfoldl f a l = Ok a' → P a'.
Proof.
  intros Hf. induction l as [|b l IH]; intros a a' Ha; simpl.
  - by intros [= <-].
  - destruct (f a b) as [a1|] eqn:Hab; simpl; [|done].
    apply IH. by eapply Hf.
Qed.

Lemma od_set_fresh {K V} `{EqDecision K} (d : list (K * V)) k v :
  k ∉ d.*1 → od_set d k v = d ++ [(k, v)].
Proof.
  induction d as [|[k' v'] d IH]; simpl; [done|].
  intros Hk. apply not_elem_of_cons in Hk as [Hne Hk].
  rewrite decide_False by done. by rewrite IH.
Qed.

(** *** Lines with the same truth table *)

Lemma existsb_bits (stt : list (list nat * list Z)) bits :
  existsb (λ t : list nat * list Z, bool_decide (t.1 = bits)) stt = true
  ↔ bits ∈ stt.*1.
Proof.
  induction stt as [|[b ls] stt IH]; simpl.
  - split; [done|by intros ?%elem_of_nil].
  - rewrite orb_true_iff, IH, elem_of_cons, bool_decide_eq_true. naive_solver.
Qed.

Definition bump (bits : list nat) (k : Z) (t : list nat * list Z)
    : list nat * list Z :=
  if decide (t.1 = bits) then (t.1, t.2 ++ [k]) else t.

Lemma addTruth_absent (stt : list (list nat * list Z)) bits k :
  bits ∉ stt.*1 → bump bits k <$> stt = stt.
Proof.
  induction stt as [|[b ls] stt IH]; [done|].
  rewrite !fmap_cons. intros [Hne Hk]%not_elem_of_cons. simpl in Hne.
  unfold bump at 1. simpl. rewrite decide_False by done. by rewrite IH.
Qed.

Lemma addTruth_present (stt : list (list nat * list Z)) bits k :
  NoDup stt.*1 → bits ∈ stt.*1 →
  (bump bits k <$> stt).*1 = stt.*1
  ∧ concat (bump bits k <$> stt).*2 ≡ₚ concat stt.*2 ++ [k].
Proof.
  induction stt as [|[b ls] stt IH].
  { by intros _ ?%elem_of_nil. }
  rewrite !fmap_cons. cbn [fst snd concat].
  intros [Hb Hnd]%NoDup_cons Hin.
  unfold bump at 1 3. cbn [fst snd].
  destruct (decide (b = bits)) as [->|Hne]; cbn [fst snd].
  - rewrite addTruth_absent by done. split; [done|].
    rewrite <- !app_assoc. f_equiv. apply Permutation_app_comm.
  - apply elem_of_cons in Hin as [?|Hin]; [done|].
    destruct (IH Hnd Hin) as [-> Hperm]. split; [done|].
    by rewrite Hperm, app_assoc.
Qed.

Lemma addTruth_ok (stt : list (list nat * list Z)) k bits :
  NoDup stt.*1 →
  NoDup (addTruth stt (k, bits)).*1
  ∧ concat (addTruth stt (k, bits)).*2 ≡ₚ concat stt.*2 ++ [Z.of_nat k].
Proof.
  intros Hnd. unfold addTruth. cbn [fst snd].
  change (λ t : list nat * list Z,
            if decide (t.1 = bits) then (t.1, t.2 ++ [Z.of_nat k]) else t)
    with (bump bits (Z.of_nat k)).
  destruct (existsb _ stt) eqn:Hex.
  - apply existsb_bits in Hex.
    destruct (addTruth_present stt bits (Z.of_nat k) Hnd Hex) as [Hfst Hperm].
    split; [by rewrite Hfst|done].
  - assert (bits ∉ stt.*1) as Hnin.
    { intros Hin%existsb_bits. congruence. }
    rewrite !fmap_app, concat_app. simpl. split; [|done].
    apply NoDup_app. split_and!; [done| |apply NoDup_singleton].
    by intros b Hb ->%list_elem_of_singleton.
Qed.

Lemma sameTruthTable_ok (bitMap : list (list nat)) :
  let stt := foldl addTruth [] (enumerate bitMap) in
  NoDup stt.*1 ∧ concat stt.*2 ≡ₚ Z.of_nat <$> seq 0 (length bitMap).
Proof.
  induction bitMap as [|bits bitMap IH] using rev_ind; simpl.
  { split; [apply NoDup_nil_2|done]. }
  destruct IH as [Hnd Hperm].
  rewrite enumerate_snoc, foldl_snoc, length_app. simpl.
  destruct (addTruth_ok _ (length bitMap) bits Hnd) as [Hnd' Hperm'].
  split; [done|].
  rewrite Hperm', Hperm, Nat.add_1_r, seq_S, fmap_app. done.
Qed.

(** *** The names of the predicates *)

Lemma namePredicate_fold (allTrue : list nat) (stt : list (list nat * list Z)) :
  ∀ (acc : list (string * list Z)) (c : nat),
  NoDup stt.*1 → NoDup acc.*1 →
  (∀ nm, nm ∈ acc.*1 →
     nm = "A" ∨ ∃ c', (c' < c)%nat ∧ nm = "R" +:+ pretty c') →
  ("A" ∈ acc.*1 → allTrue ∉ stt.*1) →
  NoDup (foldl (namePredicate allTrue) (acc, c) stt).1.*1
  ∧ (foldl (namePredicate allTrue) (acc, c) stt).1.*2 = acc.*2 ++ stt.*2.
Proof.
  induction stt as [|[bits ls] stt IH]; intros acc c Hstt Hacc Hnames HA.
  { simpl. by rewrite app_nil_r. }
  rewrite fmap_cons in Hstt. apply NoDup_cons in Hstt as [Hbits Hstt].
  cbn [foldl].
  destruct (decide (bits ≠ allTrue)) as [Hne|Heq].
  - assert ("R" +:+ pretty c ∉ acc.*1) as Hfresh.
    { intros [[=]|(c' & Hlt & Heq)]%Hnames.
      simpl in Heq. injection Heq as Heq.
      change ("" +:+ pretty c) with (pretty c) in Heq.
      change ("" +:+ pretty c') with (pretty c') in Heq.
      apply (inj pretty) in Heq. lia. }
    assert (namePredicate allTrue (acc, c) (bits, ls)
            = (acc ++ [("R" +:+ pretty c, ls)], S c)) as ->.
    { unfold namePredicate. cbn [fst snd]. rewrite decide_True by done.
      by rewrite od_set_fresh. }
    destruct (IH (acc ++ [("R" +:+ pretty c, ls)]) (S c)) as [Hnd Hsnd].
    + done.
    + rewrite fmap_app. apply NoDup_app. split_and!; [done| |apply NoDup_singleton].
      by intros nm Hnm ->%list_elem_of_singleton.
    + intros nm. rewrite fmap_app, elem_of_app.
      intros [[->|(c' & ? & ->)]%Hnames| ->%list_elem_of_singleton]; eauto.
      right. exists c'. split; [lia|done].
    + rewrite fmap_app, elem_of_app.
      intros [Hin|[=]%list_elem_of_singleton].
      specialize (HA Hin). rewrite fmap_cons in HA. set_solver.
    + split; [done|]. rewrite Hsnd, fmap_app. simpl. by rewrite <- app_assoc.
  - apply dec_stable in Heq. subst bits.
    assert ("A" ∉ acc.*1) as Hfresh.
    { intros Hin. apply (HA Hin). rewrite fmap_cons. set_solver. }
    assert (namePredicate allTrue (acc, c) (allTrue, ls)
            = (acc ++ [("A", ls)], c)) as ->.
    { unfold namePredicate. cbn [fst snd].
      rewrite decide_False by (intros Hn; by apply Hn).
      by rewrite od_set_fresh. }
    destruct (IH (acc ++ [("A", ls)]) c) as [Hnd Hsnd].
    + done.
    + rewrite fmap_app. apply NoDup_app. split_and!; [done| |apply NoDup_singleton].
      by intros nm Hnm ->%list_elem_of_singleton.
    + intros nm. rewrite fmap_app, elem_of_app.
      intros [?%Hnames| ->%list_elem_of_singleton]; eauto.
    + done.
    + split; [done|]. rewrite Hsnd, fmap_app. simpl. by rewrite <- app_assoc.
Qed.

Lemma markGroup_length bitMap tuples bitMap' :
  markGroup bitMap tuples = Ok bitMap' → length bitMap' = length bitMap.
Proof.
  unfold markGroup. intros (marked & Hmarked & [= <-])%rbind_Ok.
  rewrite length_imap.
  revert Hmarked. apply (rfoldl_invariant (λ bm, length bm = length bitMap));
    [|done].
  intros bm line bm' Hbm. unfold markPresent. case_decide; [|done].
  intros [= <-]. by rewrite length_alter.
Qed.

(** After [predicateGenerator] the predicates partition [0 .. totalLines]. *)
Lemma predicateGenerator_partition pl totalLines pl' :
  predicateGenerator pl totalLines = Ok pl' →
  isPartition (predicates pl') (Z.to_nat (totalLines + 1))
  ∧ counter pl' = counter pl ∧ parameters pl' = parameters pl.
Proof.
  unfold predicateGenerator. intros (bitMap & HbitMap & [= <-])%rbind_Ok.
  cbn [predicates counter parameters]. split; [|done].
  assert (length bitMap = Z.to_nat (totalLines + 1)) as Hlen.
  { revert HbitMap.
    apply (rfoldl_invariant (λ bm, length bm = Z.to_nat (totalLines + 1))).
    - intros bm g bm' Hbm Hmark. apply markGroup_length in Hmark. congruence.
    - by rewrite length_replicate. }
  destruct (sameTruthTable_ok bitMap) as [Hnd Hperm].
  edestruct (namePredicate_fold
               (replicate (length (foldl (λ gl (dl : string * list Z),
                                            addToGroups gl dl.2 dl.1) []
                                         (sortedLineMapping pl))) 1%nat)
               (foldl addTruth [] (enumerate bitMap)) [] 0)
    as [Hnames Hlists]; [done|apply NoDup_nil_2| | |].
  { by intros nm ?%elem_of_nil. }
  { by intros ?%elem_of_nil. }
  split_and!; [done|..].
  - rewrite Hlists. simpl. rewrite Hperm.
    apply NoDup_fmap_2; [apply _|apply NoDup_seq].
  - intros z. rewrite Hlists. simpl. rewrite Hperm, Hlen.
    rewrite list_elem_of_fmap. setoid_rewrite elem_of_seq.
    split.
    + intros (k & -> & Hk). lia.
    + intros Hz. exists (Z.to_nat z). lia.
Qed.

(** *** Renumbering in predicate order *)

Lemma sortedInsert_Permutation {A} (le : A → A → bool) x l :
  sortedInsert le x l ≡ₚ x :: l.
Proof.
  induction l as [|y l IH]; simpl; [done|].
  destruct (le x y); [done|]. rewrite IH. apply Permutation_swap.
Qed.

Lemma isort_Permutation {A} (le : A → A → bool) l : isort le l ≡ₚ l.
Proof.
  unfold isort. induction l as [|x l IH]; simpl; [done|].
  by rewrite sortedInsert_Permutation, IH.
Qed.

Lemma recorded_app start ls ks :
  recorded start (ls ++ ks)
  = recorded start ls ++ recorded (start + Z.of_nat (length ls)) ks.
Proof.
  unfold recorded. rewrite imap_app. f_equal.
  apply imap_ext. intros k l _. simpl. f_equal. lia.
Qed.

Lemma renumbered_app start ls ks :
  renumbered start (ls ++ ks)
  = renumbered start ls ++ renumbered (start + Z.of_nat (length ls)) ks.
Proof.
  unfold renumbered. rewrite imap_app. f_equal.
  apply imap_ext. intros k l _. simpl. do 2 f_equal. lia.
Qed.

Lemma renumberSorted_loop block (sorted : list (option string * nat)) :
  ∀ oldtoNewMap seqN out r,
  rfoldl (renumberSorted block) (oldtoNewMap, seqN, out) sorted = Ok r →
  ∃ picked,
    r = (recordAll oldtoNewMap (recorded seqN picked),
         seqN + Z.of_nat (length picked),
         out ++ renumbered seqN picked)
    ∧ Forall2 (λ (p : option string * nat) l, lines block !! p.2 = Some l)
              sorted picked
    ∧ Forall (λ l, is_Some (l !! LINENUM)) picked.
Proof.
  induction sorted as [|p sorted IH]; intros o2n seqN out r; simpl.
  { intros [= <-]. exists []. simpl. rewrite Z.add_0_r, app_nil_r.
    by split_and!. }
  unfold renumberSorted at 1, listitem, getitem.
  destruct (lines block !! p.2) as [line|] eqn:Hline; simpl; [|done].
  destruct (line !! LINENUM) as [old|] eqn:Hold; simpl; [|done].
  intros (picked & -> & Hpicked & Hall)%IH.
  exists (line :: picked). split_and!.
  - rewrite recorded_cons. unfold renumbered. cbn [imap length recordAll foldl].
    cbn [default fst snd].
    rewrite <- app_assoc. cbn [app].
    f_equal; [f_equal|].
    + unfold oldOf at 1. by rewrite Hold.
    + lia.
    + f_equal. change (Z.of_nat 0) with 0. rewrite Z.add_0_r. f_equal.
      apply imap_ext. intros k l _. cbn -[Z.of_nat Z.add]. do 2 f_equal. lia.
  - by constructor.
  - constructor; [by eexists|done].
Qed.

Lemma tuples_indices (lpm : gmap Z string) (ls : list Line) tuples :
  rmapM (λ il : nat * Line,
           old ← getitem il.2 LINENUM; Ok (lookupLine lpm old, il.1))
        (enumerate ls) = Ok tuples →
  tuples.*2 = seq 0 (length ls).
Proof.
  intros Hm. rewrite <- enumerate_fst.
  apply list_eq. intros i. rewrite !list_lookup_fmap.
  destruct (enumerate ls !! i) as [[k l]|] eqn:Hi; simpl.
  - destruct (rmapM_Ok_lookup _ _ _ _ _ Hm Hi) as (b & -> & Hb). simpl in *.
    unfold getitem in Hb. destruct (l !! LINENUM); simpl in Hb; [|done].
    by injection Hb as <-.
  - apply rmapM_Ok_length in Hm.
    apply lookup_ge_None in Hi. rewrite <- Hm in Hi.
    by apply lookup_ge_None in Hi as ->.
Qed.

Lemma picked_Permutation (ls : list Line) (sorted : list (option string * nat))
    picked :
  sorted.*2 ≡ₚ seq 0 (length ls) →
  Forall2 (λ (p : option string * nat) l, ls !! p.2 = Some l) sorted picked →
  picked ≡ₚ ls.
Proof.
  intros Hperm Hpick.
  assert (picked = (λ i, default ∅ (ls !! i)) <$> sorted.*2) as ->.
  { clear Hperm.
    induction Hpick as [|p l sorted picked Hp _ IH]; [done|].
    rewrite !fmap_cons, Hp, IH. done. }
  rewrite Hperm.
  clear. induction ls as [|l ls IH] using rev_ind; [done|].
  rewrite length_app. simpl. rewrite Nat.add_1_r, seq_S, fmap_app. simpl.
  rewrite lookup_app_r, Nat.sub_diag by lia. simpl.
  f_equiv. etrans; [|exact IH].
  assert ((λ i, default ∅ ((ls ++ [l]) !! i)) <$> seq 0 (length ls)
          = (λ i, default ∅ (ls !! i)) <$> seq 0 (length ls)) as ->; [|done].
  apply list_fmap_ext. intros _ i Hi%list_elem_of_lookup_2%elem_of_seq.
  by rewrite lookup_app_l by lia.
Qed.

Lemma sortBlock_spec lpm oldtoNewMap seqN newBlocks block r :
  sortBlock lpm (oldtoNewMap, seqN, newBlocks) block = Ok r →
  ∃ picked,
    r = (recordAll oldtoNewMap (recorded seqN picked),
         seqN + Z.of_nat (length picked),
         newBlocks ++ [mkBlock (action_type block) (renumbered seqN picked)])
    ∧ picked ≡ₚ lines block
    ∧ Forall (λ l, is_Some (l !! LINENUM)) picked.
Proof.
  unfold sortBlock.
  intros (tuples & Htuples & (sorted & Hsorted & Hrest)%rbind_Ok)%rbind_Ok.
  apply rbind_Ok in Hrest as ([[o2n' seqN'] out] & Hloop & [= <-]).
  apply renumberSorted_loop in Hloop as (picked & [= -> -> ->] & Hpick & Hall).
  exists picked. split_and!; [done| |done].
  apply (picked_Permutation _ sorted); [|done].
  unfold sortTuples in Hsorted. case_match; [done|].
  injection Hsorted as <-.
  by rewrite isort_Permutation, (tuples_indices _ _ _ Htuples).
Qed.

Lemma sortBlocks_spec lpm bs :
  ∀ (done : list Line) newBlocks r,
  concat (lines <$> newBlocks) = renumbered 0 done →
  rfoldl (sortBlock lpm)
         (recordAll ∅ (recorded 0 done), Z.of_nat (length done), newBlocks) bs
  = Ok r →
  ∃ picked,
    r.1 = (recordAll ∅ (recorded 0 picked), Z.of_nat (length picked))
    ∧ concat (lines <$> r.2) = renumbered 0 picked
    ∧ picked ≡ₚ done ++ concat (lines <$> bs)
    ∧ (Forall (λ l, is_Some (l !! LINENUM)) done →
       Forall (λ l, is_Some (l !! LINENUM)) picked).
Proof.
  induction bs as [|block bs IH]; intros done newBlocks r Hnb; simpl.
  { intros [= <-]. exists done. simpl. by rewrite app_nil_r. }
  intros (r1 & Hblock & Hrest)%rbind_Ok.
  apply sortBlock_spec in Hblock as (picked & -> & Hperm & Hall).
  assert (recordAll (recordAll ∅ (recorded 0 done))
                    (recorded (Z.of_nat (length done)) picked)
          = recordAll ∅ (recorded 0 (done ++ picked))) as Hrec
    by (by rewrite recorded_app, recordAll_app).
  rewrite Hrec in Hrest. clear Hrec.
  replace (Z.of_nat (length done) + Z.of_nat (length picked))
    with (Z.of_nat (length (done ++ picked))) in Hrest
    by (rewrite length_app; lia).
  apply IH in Hrest as (all & Hr & Hlines & Hperm' & Hall').
  - exists all. split_and!; [done|done| |].
    + by rewrite Hperm', Hperm, app_assoc.
    + intros Hdone. apply Hall'. by apply Forall_app.
  - rewrite fmap_app, concat_app. simpl. rewrite app_nil_r, Hnb.
    by rewrite renumbered_app, Z.add_0_l.
Qed.

Lemma recordAll_snoc m l on :
  recordAll m (l ++ [on]) = <[on.1 := on.2]> (recordAll m l).
Proof. unfold recordAll. by rewrite foldl_snoc. Qed.

Lemma recordAll_lookup m (pairs : list (pyval * Z)) k v :
  NoDup pairs.*1 → (k, v) ∈ pairs → recordAll m pairs !! k = Some v.
Proof.
  induction pairs as [|[k' v'] pairs IH] using rev_ind; [by intros _ ?%elem_of_nil|].
  rewrite fmap_app, recordAll_snoc. simpl.
  intros (Hnd & Hdisj & _)%NoDup_app
         [Hin|[= -> ->]%list_elem_of_singleton]%elem_of_app.
  - rewrite lookup_insert_ne; [by apply IH|].
    intros <-. apply (Hdisj k'); [|set_solver].
    apply list_elem_of_fmap. by exists (k', v).
  - by rewrite lookup_insert_eq.
Qed.

Lemma recordAll_lookup_inv (pairs : list (pyval * Z)) k v :
  recordAll ∅ pairs !! k = Some v → (k, v) ∈ pairs.
Proof.
  induction pairs as [|[k' v'] pairs IH] using rev_ind; [done|].
  rewrite recordAll_snoc. simpl. rewrite lookup_insert.
  case_decide as Hk.
  - intros [= <-]. subst. set_solver.
  - intros ?%IH. set_solver.
Qed.

(** The map from old to new identities built over lines whose identities
    are [0 .. n-1] in some order is a bijection of [0 .. n-1]. *)
Lemma renumbering_bijection (picked : list Line) (n : nat) :
  oldOf <$> picked ≡ₚ (λ k, PInt (Z.of_nat k)) <$> seq 0 n →
  let R := λ z z' : Z, recordAll ∅ (recorded 0 picked) !! PInt z = Some z' in
  (∀ z v w, R z v → R w v → z = w)
  ∧ (∀ z v, R z v → 0 ≤ v < Z.of_nat n)
  ∧ (∀ v, 0 ≤ v < Z.of_nat n → ∃ z, 0 ≤ z < Z.of_nat n ∧ R z v).
Proof.
  intros Hperm R.
  assert (length picked = n) as Hlen.
  { apply Permutation_length in Hperm.
    by rewrite !length_fmap, length_seq in Hperm. }
  assert (NoDup (recorded 0 picked).*1) as Hnd.
  { assert ((recorded 0 picked).*1 = oldOf <$> picked) as ->.
    { unfold recorded. rewrite fmap_imap.
      apply list_eq. intros i.
      rewrite list_lookup_imap, list_lookup_fmap. by destruct (picked !! i). }
    rewrite Hperm. apply NoDup_fmap_2, NoDup_seq.
    intros ?? [= ?]. lia. }
  assert (∀ key v, (key, v) ∈ recorded 0 picked ↔
            ∃ k l, picked !! k = Some l ∧ key = oldOf l ∧ v = Z.of_nat k)
    as Hrec.
  { intros key v. unfold recorded. rewrite elem_of_lookup_imap.
    split; intros (k & l & ?); exists k, l; naive_solver lia. }
  split_and!.
  - intros z v w (k & l & Hl & Hz & ->)%recordAll_lookup_inv%Hrec
                 (k' & l' & Hl' & Hw & Hk)%recordAll_lookup_inv%Hrec.
    assert (k' = k) as -> by lia. simplify_eq. congruence.
  - intros z v (k & l & Hl & _ & ->)%recordAll_lookup_inv%Hrec.
    apply lookup_lt_Some in Hl. lia.
  - intros v Hv.
    destruct (lookup_lt_is_Some_2 picked (Z.to_nat v)) as [l Hl]; [lia|].
    assert (oldOf l ∈ oldOf <$> picked) as Hin.
    { apply list_elem_of_fmap. exists l. split; [done|].
      by eapply list_elem_of_lookup_2. }
    rewrite Hperm in Hin.
    apply list_elem_of_fmap in Hin as (k & Hk & Hkin%elem_of_seq).
    exists (Z.of_nat k). split; [lia|].
    unfold R. rewrite <- Hk. apply recordAll_lookup; [done|].
    apply Hrec. exists (Z.to_nat v), l. split_and!; [done..|lia].
Qed.

Lemma rmapM_Forall2 {A B} (f : A → result B) (l : list A) (k : list B) :
  rmapM f l = Ok k → Forall2 (λ a b, f a = Ok b) l k.
Proof.
  revert k. induction l as [|a l IH]; intros k; simpl.
  - intros [= <-]. constructor.
  - intros (b & Hb & (bs & Hbs & [= <-])%rbind_Ok)%rbind_Ok.
    constructor; [done | by apply IH].
Qed.

Lemma getitem_Ok `{Lookup K V M} (d : M) (k : K) (v : V) :
  getitem d k = Ok v ↔ d !! k = Some v.
Proof. unfold getitem. destruct (d !! k); naive_solver. Qed.

(** A renumbering that is a bijection of [0 .. n-1] carries a partition of
    that range to a partition of it. *)
Lemma isPartition_renumber (m : gmap pyval Z) (preds np : list (string * list Z))
    (n : nat) :
  (∀ z v w, m !! PInt z = Some v → m !! PInt w = Some v → z = w) →
  (∀ z v, 0 ≤ z < Z.of_nat n → m !! PInt z = Some v → 0 ≤ v < Z.of_nat n) →
  (∀ v, 0 ≤ v < Z.of_nat n →
        ∃ z, 0 ≤ z < Z.of_nat n ∧ m !! PInt z = Some v) →
  Forall2 (λ p q : string * list Z,
             q.1 = p.1
             ∧ Forall2 (λ z v, m !! PInt z = Some v) p.2 q.2) preds np →
  isPartition preds n → isPartition np n.
Proof.
  intros Hinj Hrange Hsurj Hall (Hnames & Hnd & Hcover).
  assert (np.*1 = preds.*1) as Hfst.
  { clear -Hall. induction Hall as [|p q ps qs [Hq _] _ IH]; [done|].
    rewrite !fmap_cons. by rewrite Hq, IH. }
  assert (Forall2 (λ z v, m !! PInt z = Some v)
                  (concat preds.*2) (concat np.*2)) as Hmap.
  { clear -Hall. induction Hall as [|p q ps qs [_ Hq] _ IH]; [constructor|].
    rewrite !fmap_cons. simpl. by apply Forall2_app. }
  clear Hall. split_and!.
  - by rewrite Hfst.
  - clear Hcover. induction Hmap as [|z v zs vs Hzv Hrest IH]; [constructor|].
    apply NoDup_cons in Hnd as [Hz Hnd]. apply NoDup_cons. split; [|by apply IH].
    intros (i & Hi)%list_elem_of_lookup_1.
    destruct (Forall2_lookup_r _ _ _ _ _ Hrest Hi) as (w & Hw & Hwv).
    assert (z = w) as -> by eauto.
    apply Hz. by eapply list_elem_of_lookup_2.
  - intros v. split.
    + intros (i & Hi)%list_elem_of_lookup_1.
      destruct (Forall2_lookup_r _ _ _ _ _ Hmap Hi) as (z & Hz & Hzv).
      apply (Hrange z); [|done]. apply Hcover. by eapply list_elem_of_lookup_2.
    + intros (z & Hz & Hzv)%Hsurj.
      apply Hcover in Hz as (i & Hi)%list_elem_of_lookup_1.
      destruct (Forall2_lookup_l _ _ _ _ _ Hmap Hi) as (v' & Hv' & Hzv').
      assert (v' = v) as -> by congruence.
      by eapply list_elem_of_lookup_2.
Qed.

Lemma contiguousIds_oldOf bs n :
  contiguousIds bs n →
  oldOf <$> concat (lines <$> bs) = (λ k, PInt (Z.of_nat k)) <$> seq 0 n.
Proof.
  unfold contiguousIds, lineIds. intros Hids.
  apply list_eq. intros i.
  apply (f_equal (.!! i)) in Hids. rewrite !list_lookup_fmap in Hids.
  rewrite !list_lookup_fmap. unfold oldOf.
  destruct (concat (lines <$> bs) !! i), (seq 0 n !! i);
    simpl in *; simplify_eq; [|done]. by rewrite Hids.
Qed.

Lemma lineIds_renumbered (picked : list Line) :
  (.!! LINENUM) <$> renumbered 0 picked
  = (λ k, Some (PInt (Z.of_nat k))) <$> seq 0 (length picked).
Proof.
  unfold renumbered. apply list_eq. intros i.
  rewrite !list_lookup_fmap, list_lookup_imap.
  destruct (picked !! i) as [l|] eqn:Hl; simpl.
  - rewrite lookup_seq_lt by (by eapply lookup_lt_Some).
    simpl. by rewrite lookup_insert_eq.
  - by rewrite lookup_seq_ge by (by apply lookup_ge_None).
Qed.

(** [groupAndSortPredicates]: the lines of the template are renumbered
    [0 .. n-1] in their new order, and the predicates stay a partition. *)
Lemma groupAndSortPredicates_partition pl mt mt' pl' n :
  contiguousIds (blocks mt) n →
  isPartition (predicates pl) n →
  groupAndSortPredicates pl mt = Ok (mt', pl') →
  isPartition (predicates pl') n ∧ contiguousIds (blocks mt') n.
Proof.
  intros Hids Hpart. unfold groupAndSortPredicates. cbv zeta.
  intros ([[oldtoNewMap seqN] newBlocks] & Hsort & Hrest)%rbind_Ok.
  apply rbind_Ok in Hrest as (np & Hnp & (ng & _ & [= <- <-])%rbind_Ok).
  cbn [blocks predicates].
  change (∅, 0, []) with
    (recordAll ∅ (recorded 0 []), Z.of_nat (length (@nil Line)),
     @nil Block) in Hsort.
  apply sortBlocks_spec in Hsort as (picked & [= -> ->] & Hlines & Hperm & _);
    [|done].
  simpl in Hperm, Hlines.
  assert (oldOf <$> picked ≡ₚ (λ k, PInt (Z.of_nat k)) <$> seq 0 n) as Hold.
  { by rewrite Hperm, (contiguousIds_oldOf _ _ Hids). }
  assert (length picked = n) as Hlen.
  { apply Permutation_length in Hold.
    by rewrite !length_fmap, length_seq in Hold. }
  destruct (renumbering_bijection picked n Hold) as (Hinj & Hrange & Hsurj).
  split.
  - eapply isPartition_renumber; [exact Hinj| |exact Hsurj| |exact Hpart].
    + intros z v _. apply Hrange.
    + apply rmapM_Forall2 in Hnp.
      eapply Forall2_impl; [exact Hnp|].
      intros p q (ls & Hls & [= <-])%rbind_Ok. split; [done|]. simpl.
      apply rmapM_Forall2 in Hls.
      eapply Forall2_impl; [exact Hls|].
      intros z v. by rewrite getitem_Ok.
  - unfold contiguousIds, lineIds. rewrite Hlines, <- Hlen.
    apply lineIds_renumbered.
Qed.

Lemma lastLineNumber_contiguous mt n totalLines :
  contiguousIds (blocks mt) n → lastLineNumber mt = Ok totalLines →
  Z.to_nat (totalLines + 1) = n.
Proof.
  unfold contiguousIds, lineIds, lastLineNumber. intros Hids.
  destruct (last (blocks mt)) as [block|] eqn:Hblock; [|done].
  destruct (last (lines block)) as [line|] eqn:Hline; [|done].
  intros (v & Hv%getitem_Ok & Hz)%rbind_Ok.
  destruct v as [z|]; [|done]. injection Hz as ->.
  apply last_Some in Hblock as [bs Hbs]. apply last_Some in Hline as [ls Hls].
  apply (f_equal last) in Hids. revert Hids.
  rewrite Hbs, fmap_app, concat_app. simpl. rewrite Hls, app_nil_r.
  rewrite !fmap_last, !app_assoc, last_snoc. simpl. rewrite Hv.
  destruct n as [|n]; [done|].
  rewrite seq_S, last_snoc. simpl. intros [= ->]. lia.
Qed.

Section mapLines.
Context {S : Type} (f : S → Line → result (S * Line)).
Hypothesis f_LINENUM :
  ∀ s l s' l', f s l = Ok (s', l') → l' !! LINENUM = l !! LINENUM.

Lemma mapBlockM_lines ls :
  ∀ s acc r,
  rfoldl (λ (a : S * list Line) line,
            '(st', line') ← f a.1 line; Ok (st', a.2 ++ [line']))
         (s, acc) ls = Ok r →
  (.!! LINENUM) <$> r.2
  = ((.!! LINENUM) <$> acc) ++ ((.!! LINENUM) <$> ls).
Proof.
  induction ls as [|l ls IH]; intros s acc r; simpl.
  - intros [= <-]. simpl. by rewrite app_nil_r.
  - intros (a & ([s' l'] & Hf & [= <-])%rbind_Ok & Hrest)%rbind_Ok.
    apply IH in Hrest. rewrite Hrest, fmap_app. simpl.
    rewrite (f_LINENUM _ _ _ _ Hf). by rewrite <- app_assoc.
Qed.

Lemma mapBlocksM_lineIds bs :
  ∀ st acc r,
  rfoldl (mapBlockM f) (st, acc) bs = Ok r →
  lineIds r.2 = lineIds acc ++ lineIds bs.
Proof.
  unfold lineIds.
  induction bs as [|b bs IH]; intros st acc r; simpl.
  - intros [= <-]. simpl. by rewrite app_nil_r.
  - intros (a & Hblock & Hrest)%rbind_Ok.
    unfold mapBlockM in Hblock.
    apply rbind_Ok in Hblock as ([st' ls] & Hls & [= <-]).
    apply mapBlockM_lines in Hls. simpl in Hls.
    apply IH in Hrest. rewrite Hrest. simpl.
    rewrite !fmap_app, !concat_app, !fmap_app. simpl.
    rewrite app_nil_r, Hls. by rewrite <- app_assoc.
Qed.

Lemma mapLinesM_lineIds st bs r :
  mapLinesM f st bs = Ok r → lineIds r.2 = lineIds bs.
Proof. intros Hr%mapBlocksM_lineIds. by rewrite Hr. Qed.
End mapLines.

Lemma ModifyErase_lineIds mt pl replaceWith eraseList n mt' pl' :
  ModifyErase mt pl replaceWith eraseList n = Ok (mt', pl') →
  lineIds (blocks mt') = lineIds (blocks mt).
Proof.
  unfold ModifyErase. intros ([[] bs] & Hbs & [= <- _])%rbind_Ok.
  apply mapLinesM_lineIds in Hbs; [done|].
  intros _ l s' l' (line' & Hline & [= _ <-])%rbind_Ok.
  revert Hline. apply (rfoldl_invariant (λ x, x !! LINENUM = l !! LINENUM));
    [|done].
  intros a b a' Ha. unfold eraseAttribute.
  intros (v & _ & Hv)%rbind_Ok. case_decide; injection Hv as <-; [|done].
  rewrite lookup_insert_ne; [done|]. unfold LINENUM. lia.
Qed.

Lemma RemapParameters_lineIds mt pl n mt' pl' :
  RemapParameters mt pl n = Ok (mt', pl') →
  lineIds (blocks mt') = lineIds (blocks mt) ∧ predicates pl' = predicates pl.
Proof.
  unfold RemapParameters. intros ([oc bs] & Hbs & [= <- <-])%rbind_Ok.
  split; [|done].
  apply mapLinesM_lineIds in Hbs; [done|].
  intros s l s' l' ([[o c] line'] & Hline & [= _ <-])%rbind_Ok.
  revert Hline.
  apply (rfoldl_invariant
           (λ x : gmap pyval pyval * nat * Line, x.2 !! LINENUM = l !! LINENUM));
    [|done].
  intros [[o1 c1] l1] b [[o2 c2] l2] Ha. simpl in Ha. unfold remapAttribute.
  assert (Z.of_nat b ≠ LINENUM) as Hb by (unfold LINENUM; lia).
  intros (v & _ & Hv)%rbind_Ok. destruct v as [z|s0]; [done|].
  destruct (startsWithChar "P" s0); [|by injection Hv as <- <- <-].
  destruct (o1 !! PStr s0) as [new|];
    [destruct (truthy new)|]; injection Hv as <- <- <-; simpl;
    by rewrite lookup_insert_ne.
Qed.

(** C9: after [MinimizeParameters] on a meta-template whose [n] lines carry
    the identities [0 .. n-1] (as every template built by [createBlocks] or
    [TemplateGenerator] does), no predicate name is repeated, no line
    identity occurs twice in the line lists of the predicates -- neither
    inside one list nor in two of them -- and the identities that occur are
    exactly [0 .. n-1], which are again the identities of the lines of the
    minimized template, in order. *)
Theorem MinimizeParameters_predicate_partition mt pl noOfAttributes mt' pl' n :
  contiguousIds (blocks mt) n →
  MinimizeParameters mt pl noOfAttributes = Ok (mt', pl') →
  isPartition (predicates pl') n ∧ contiguousIds (blocks mt') n.
Proof.
  intros Hids. unfold MinimizeParameters.
  intros (lineParamMap & _ & (pl1 & _ & (common & _ & Hrest)%rbind_Ok)
            %rbind_Ok)%rbind_Ok.
  apply rbind_Ok in Hrest as ([mt2 pl2] & Herase & Hrest).
  apply rbind_Ok in Hrest as (totalLines & Hlast & Hrest).
  apply rbind_Ok in Hrest as (pl3 & Hgen & Hrest).
  apply rbind_Ok in Hrest as ([mt4 pl4] & Hsort & Hremap).
  assert (contiguousIds (blocks mt2) n) as Hids2.
  { revert Herase.
    apply (rfoldl_invariant
             (λ a : Segment * ParametersLinesMap, contiguousIds (blocks a.1) n));
      [|done].
    intros [mta pla] x [mtb plb] Ha. destruct x as [|r e]; [done|].
    intros Hx%ModifyErase_lineIds. unfold contiguousIds in *. simpl in *.
    by rewrite Hx. }
  apply predicateGenerator_partition in Hgen as (Hpart & _).
  rewrite (lastLineNumber_contiguous _ _ _ Hids2 Hlast) in Hpart.
  destruct (groupAndSortPredicates_partition _ _ _ _ _ Hids2 Hpart Hsort)
    as (Hpart4 & Hids4).
  apply RemapParameters_lineIds in Hremap as (Hlines & Hpreds).
  split; [by rewrite Hpreds|]. unfold contiguousIds in *. by rewrite Hlines.
Qed.
End predicates.

(** Device [A] has both lines of the template, device [B] only the first. *)
Lemma MinimizeParameters_predicate_partition_witness :
  let mt := mkSegment "X" "Template" [mkBlock (Some "PERMIT") Examples.LS1] "cisco" in
  let pl := mkPLM 0 {["A" := ∅; "B" := ∅]} [("A", [0; 1]); ("B", [0])] [] [] in
  contiguousIds (blocks mt) 2
  ∧ ∃ mt' pl',
      PrefixList.MinimizeParameters mt pl 11 = Ok (mt', pl')
      ∧ predicates pl' = [("A", [0]); ("R0", [1])]
      ∧ isPartition (predicates pl') 2 ∧ contiguousIds (blocks mt') 2.
Proof.
  intros mt pl.
  assert (contiguousIds (blocks mt) 2) as Hids by reflexivity.
  split; [exact Hids|].
  destruct (PrefixList.MinimizeParameters mt pl 11) as [[mt' pl']|e] eqn:Hmin.
  - exists mt', pl'. split; [done|]. split.
    + vm_compute in Hmin. by injection Hmin as <- <-.
    + exact (MinimizeParameters_predicate_partition mt pl 11 mt' pl' 2 Hids Hmin).
  - vm_compute in Hmin. discriminate Hmin.
Defined.
(** ** The driver: the classifications *)

Section driver.
Context `{Library}.
Import PrefixList.

Lemma foldl_id {A B} (f : A → B → A) (a : A) (l : list B) :
  (∀ b a', b ∈ l → f a' b = a') → foldl f a l = a.
Proof.
  revert a. induction l as [|b l IH]; intros a Hf; simpl; [done|].
  rewrite Hf by set_solver. apply IH. intros. apply Hf. set_solver.
Qed.

Lemma bind_nil {A B} (f : A → list B) (l : list A) :
  (∀ a, a ∈ l → f a = []) → l ≫= f = [].
Proof.
  induction l as [|a l IH]; intros Hf; [done|].
  rewrite bind_cons, Hf by set_solver. simpl. apply IH.
  intros. apply Hf. set_solver.
Qed.

Lemma filter_none {A} (P : A → Prop) `{∀ x, Decision (P x)} (l : list A) :
  (∀ x, x ∈ l → ¬ P x) → filter P l = [].
Proof.
  induction l as [|x l IH]; intros Hl; [done|].
  rewrite filter_cons, decide_False by (apply Hl; set_solver).
  apply IH. intros. apply Hl. set_solver.
Qed.

(** Without parameter values there is no outlier question. *)
Lemma singleParamQuestions_noParameters pl :
  noParameters pl → singleParamQuestions pl = [].
Proof.
  intros Hno. unfold singleParamQuestions.
  assert (paramCounts pl = ∅) as ->; [|by rewrite map_to_list_empty].
  unfold paramCounts. apply foldl_id.
  intros [device data] m Hin%elem_of_map_to_list. simpl.
  by rewrite (Hno _ _ Hin), map_to_list_empty.
Qed.

Lemma spuriousParamQuestions_noParameters pl :
  noParameters pl → spuriousParamQuestions pl = [].
Proof.
  intros Hno. unfold spuriousParamQuestions.
  apply bind_nil. intros i _. apply bind_nil. intros j _.
  unfold spuriousPair.
  assert (filter (λ rd : string * gmap pyval pyval,
                    is_Some (rd.2 !! paramName i) ∧ is_Some (rd.2 !! paramName j))
                 (map_to_list (parameters pl)) = []) as ->.
  { apply filter_none. intros [device data] Hin%elem_of_map_to_list [[v Hv] _].
    simpl in Hv. by rewrite (Hno _ _ Hin), lookup_empty in Hv. }
  simpl. by rewrite andb_false_r.
Qed.

Lemma updateGroup_length groups device exactOnes :
  length (updateGroup groups device exactOnes) = length groups.
Proof.
  induction groups as [|[l ds] groups IH]; simpl; [done|].
  case_decide; simpl; by rewrite ?IH.
Qed.

(** [addExactRouters] keeps the counter and the number of groups, and
    gives the devices it adds the parameters of the device they equal. *)
Lemma addExactRouters_spec pl exactMap pl' sizes :
  addExactRouters pl exactMap = Ok (pl', sizes) →
  counter pl' = counter pl
  ∧ length (groupsList pl') = length (groupsList pl)
  ∧ (noParameters pl → noParameters pl').
Proof.
  unfold addExactRouters.
  intros ([pl1 gs] & Hfold & [= <- _])%rbind_Ok. revert Hfold.
  apply (rfoldl_invariant
           (λ a : ParametersLinesMap * list nat,
              counter a.1 = counter pl
              ∧ length (groupsList a.1) = length (groupsList pl)
              ∧ (noParameters pl → noParameters a.1)));
    [|done].
  intros [pla gsa] de [plb gsb] (Hc & Hg & Hno). unfold addExactRouter.
  intros (myMapping & _ & (myParams & Hmy%getitem_Ok & [= <- _])%rbind_Ok)
           %rbind_Ok.
  simpl in *. rewrite updateGroup_length. split_and!; [done..|].
  intros Hpl. specialize (Hno Hpl). unfold noParameters in *. simpl.
  assert (myParams = ∅) as -> by eauto.
  clear Hmy. revert Hno. generalize (parameters pla).
  induction de.2 as [|r rs IH]; intros ps Hps; simpl; [done|].
  apply IH. intros device data.
  rewrite lookup_insert. case_decide; [by intros [= <-]|apply Hps].
Qed.

Lemma eraseDevice_empty replaceWith eraseList :
  eraseDevice replaceWith eraseList ∅ = ∅.
Proof.
  unfold eraseDevice.
  assert (foldl (λ (a : gmap pyval pyval * option pyval) removals,
                   match a.1 !! removals with
                   | Some v => (delete removals a.1, Some v)
                   | None => a
                   end) (∅, None) eraseList = (∅, None)) as ->; [|done].
  induction eraseList as [|removals eraseList IH]; simpl; [done|].
  by rewrite lookup_empty.
Qed.

Lemma addToGroups_nonempty groups ls device :
  addToGroups groups ls device ≠ [].
Proof. destruct groups as [|[l ds] groups]; simpl; [done|]. by case_decide. Qed.

Lemma renameKeys_empty oldtoNewParamMap : renameKeys oldtoNewParamMap ∅ = ∅.
Proof. unfold renameKeys. by rewrite map_to_list_empty. Qed.

(** What [MinimizeParameters] keeps: there is a group as soon as a device
    is known, one group when one device is known, and no parameter value
    appears from nowhere. *)
Lemma MinimizeParameters_groups mt pl n mt' pl' :
  MinimizeParameters mt pl n = Ok (mt', pl') →
  (lineMapping pl ≠ [] → groupsList pl' ≠ [])
  ∧ (length (lineMapping pl) = 1%nat → length (groupsList pl') = 1%nat)
  ∧ (noParameters pl → noParameters pl').
Proof.
  unfold MinimizeParameters.
  intros (lineParamMap & _ & (pl1 & Hprune & (common & _ & Hrest)%rbind_Ok)
            %rbind_Ok)%rbind_Ok.
  apply rbind_Ok in Hrest as ([mt2 pl2] & Herase & Hrest).
  apply rbind_Ok in Hrest as (totalLines & _ & Hrest).
  apply rbind_Ok in Hrest as (pl3 & Hgen & Hrest).
  apply rbind_Ok in Hrest as ([mt4 pl4] & Hsort & Hremap).
  assert (lineMapping pl1 = lineMapping pl
          ∧ (noParameters pl → noParameters pl1)) as [Hlm1 Hno1].
  { revert Hprune.
    apply (rfoldl_invariant
             (λ a, lineMapping a = lineMapping pl
                   ∧ (noParameters pl → noParameters a))); [|done].
    intros a dl a' [Hlm Hno]. unfold pruneDevice.
    intros (data & Hdata%getitem_Ok & [= <-])%rbind_Ok. split; [done|].
    intros Hpl device data'. simpl. rewrite lookup_insert.
    case_decide; [|by apply Hno].
    intros [= <-]. rewrite (Hno Hpl _ _ Hdata). apply map_filter_empty. }
  assert (lineMapping pl2 = lineMapping pl
          ∧ (noParameters pl → noParameters pl2)) as [Hlm2 Hno2].
  { revert Herase.
    apply (rfoldl_invariant
             (λ a : Segment * ParametersLinesMap,
                lineMapping a.2 = lineMapping pl
                ∧ (noParameters pl → noParameters a.2))); [|done].
    intros [mta pla] x [mtb plb] [Hlm Hno]. destruct x as [|r e]; [done|].
    unfold ModifyErase. intros ([[] bs] & _ & [= _ <-])%rbind_Ok. split; [done|].
    intros Hpl device data. simpl. rewrite lookup_fmap.
    intros (data0 & Hdata0 & ->)%fmap_Some.
    rewrite (Hno Hpl _ _ Hdata0). apply eraseDevice_empty. }
  unfold predicateGenerator in Hgen.
  apply rbind_Ok in Hgen as (bitMap & _ & [= <-]).
  unfold groupAndSortPredicates in Hsort. cbv zeta in Hsort.
  apply rbind_Ok in Hsort as ([[oldtoNewMap seqN] newBlocks] & _ & Hsort).
  apply rbind_Ok in Hsort as (np & _ & (ng & Hng & [= _ <-])%rbind_Ok).
  apply rmapM_Ok_length in Hng. cbn [groupsList] in Hng.
  unfold RemapParameters in Hremap.
  apply rbind_Ok in Hremap as ([oc bs] & _ & [= _ <-]).
  cbn [groupsList parameters remapLineNumbers withLineMapping].
  unfold sortedLineMapping in Hng. rewrite Hlm2 in Hng.
  split_and!.
  - intros Hne Hnil. rewrite Hnil in Hng.
    destruct (lineMapping pl) as [|dl lm _] using rev_ind; [done|].
    rewrite fmap_app, fmap_cons, fmap_nil, foldl_snoc in Hng.
    symmetry in Hng. apply length_zero_iff_nil in Hng.
    by apply addToGroups_nonempty in Hng.
  - intros Hone. rewrite Hng.
    destruct (lineMapping pl) as [|dl [|??]]; simplify_eq/=. done.
  - intros Hpl device data. cbn [parameters]. rewrite lookup_fmap.
    intros (data0 & Hdata0 & ->)%fmap_Some.
    rewrite (Hno2 Hpl _ _ Hdata0). apply renameKeys_empty.
Qed.

Lemma od_set_nonempty {K V} `{EqDecision K} (d : list (K * V)) k v :
  od_set d k v ≠ [].
Proof. destruct d as [|[k' v'] d]; simpl; [done|]. by case_decide. Qed.

Section flavor.
Context {J : Type}.
Variable GetBlockSequence :
  string → DeviceInfo J → string → Scan J →
  result (list Segment * list Z * Scan J).
Variable functions : MetaTemplater.Functions.
Hypothesis functions_GenerateTemplate :
  MetaTemplater.GenerateTemplate functions = TemplateGenerator.
Hypothesis functions_MinimizeParameters :
  MetaTemplater.MinimizeParameters functions = MinimizeParameters.
Hypothesis functions_PrintTemplate :
  MetaTemplater.PrintTemplate functions = PrintTemplate.

(** Every segment after the first is one merge. *)
Lemma mergeSegment_merges segs :
  ∀ mt pl c r,
  rfoldl (MetaTemplater.mergeSegment functions) (Some (mt, pl), c) segs = Ok r →
  r.2 = (c + length segs)%nat
  ∧ ∃ mt' pl', r.1 = Some (mt', pl')
               ∧ (lineMapping pl ≠ [] → lineMapping pl' ≠ []).
Proof.
  induction segs as [|[lc seg] segs IH]; intros mt pl c r; simpl.
  - intros [= <-]. simpl. split; [lia|]. by exists mt, pl.
  - intros (a & Hstep & Hrest)%rbind_Ok.
    apply rbind_Ok in Hstep as ([[b1 b2] lm] & _ & Hstep).
    apply rbind_Ok in Hstep as ([bs pl2] & Hgen & [= <-]).
    apply IH in Hrest as (Hc & mt' & pl' & Hr & Hlm). simpl in Hc.
    split; [lia|]. exists mt', pl'. split; [done|].
    intros _. apply Hlm. revert Hgen.
    rewrite functions_GenerateTemplate. unfold TemplateGenerator.
    case_decide; [done|].
    intros ([[st mergedBlocks] j] & _ & [= _ <-])%rbind_Ok. simpl.
    apply od_set_nonempty.
Qed.

Lemma mergeSegments_spec segs m c :
  MetaTemplater.mergeSegments functions segs = Ok (m, c) →
  match segs with
  | [] => m = None
  | (lineCount, segment) :: rest =>
      c = length rest
      ∧ ∃ mt pl,
          m = Some (mt, pl) ∧ lineMapping pl ≠ []
          ∧ (c = 0%nat →
             pl = mkPLM 0 {[deviceName segment := ∅]}
                    [(deviceName segment,
                      Z.of_nat <$> seq 0 (Z.to_nat (lineCount + 1)))] [] [])
  end.
Proof.
  unfold MetaTemplater.mergeSegments.
  destruct segs as [|[lineCount segment] rest]; simpl; [by intros [= <- _]|].
  intros Hrest.
  destruct (mergeSegment_merges _ _ _ _ _ Hrest) as (Hc & mt & pl & Hm & Hlm).
  simpl in Hc, Hm. subst c m. split; [done|]. exists mt, pl.
  split_and!; [done|by apply Hlm|].
  intros Hzero. destruct rest; [|done]. simpl in Hrest. by simplify_eq.
Qed.

(** The classification of a pattern for which a segment is retained. *)
Lemma StructuredGeneralization_codes patternString devicesInfo scan o scan' :
  MetaTemplater.StructuredGeneralization GetBlockSequence functions
    patternString devicesInfo scan = Ok (o, scan') →
  MetaTemplater.out_code o ≠ "NotFound" →
  ∃ lineCountMap metaTemplate pl0 templatingCount mt pl exactGroupSizes,
    MetaTemplater.collectSegments GetBlockSequence patternString devicesInfo
      (mkScan (foundDevices scan) (emptyDefDevices scan) [])
    = Ok (lineCountMap, scan')
    ∧ MetaTemplater.generalize GetBlockSequence functions patternString
        devicesInfo scan
      = Ok (Some (metaTemplate, pl0), templatingCount, scan')
    ∧ S templatingCount = length (MetaTemplater.segmentOrder lineCountMap)
    ∧ MetaTemplater.finish functions metaTemplate pl0 scan'
      = Ok (mt, pl, exactGroupSizes)
    ∧ (templatingCount = 0%nat → noParameters pl)
    ∧ (MetaTemplater.out_code o = "Exact Consistency"
       ↔ templatingCount = 0%nat)
    ∧ (MetaTemplater.out_code o = "Reorder Consistency"
       ↔ templatingCount ≠ 0%nat ∧ counter pl = 0%nat
         ∧ length (groupsList pl) = 1%nat
         ∧ singleParamQuestions pl = [] ∧ spuriousParamQuestions pl = []).
Proof.
  unfold MetaTemplater.StructuredGeneralization. intros Hsg Hcode.
  apply rbind_Ok in Hsg as ([[m c] scan1] & Hgeneralize & Hsg).
  simpl in Hsg. destruct m as [[mt0 pl0]|]; [|by injection Hsg as <- _].
  apply rbind_Ok in Hsg as ([[mt pl] sizes] & Hfinish & [= <- <-]).
  clear Hcode.
  pose proof Hgeneralize as Hg. unfold MetaTemplater.generalize in Hg.
  apply rbind_Ok in Hg as ([lineCountMap scan2] & Hcollect & Hg).
  apply rbind_Ok in Hg as (merged & Hmerge & [= -> ->]).
  exists lineCountMap, mt0, pl0, c, mt, pl, sizes.
  apply mergeSegments_spec in Hmerge.
  destruct (MetaTemplater.segmentOrder lineCountMap)
    as [|[lineCount segment] rest]; [done|].
  destruct Hmerge as (Hc & ? & ? & [= <- <-] & Hlm & Hfirst).
  pose proof Hfinish as Hf. unfold MetaTemplater.finish in Hf.
  rewrite functions_MinimizeParameters in Hf.
  apply rbind_Ok in Hf as ([mt1 pl1] & Hmp & Hf).
  apply rbind_Ok in Hf as ([pl2 sz] & Hexact & [= -> -> _]).
  apply MinimizeParameters_groups in Hmp as (Hne & Hone & Hno).
  apply addExactRouters_spec in Hexact as (Hcounter & Hlen & Hno').
  assert (groupsList pl ≠ []) as Hgroups.
  { intros Hnil. apply (Hne Hlm). apply length_zero_iff_nil.
    by rewrite <- Hlen, Hnil. }
  assert (c = 0%nat →
          noParameters pl ∧ length (groupsList pl) = 1%nat) as Hzero.
  { intros ->. specialize (Hfirst eq_refl). subst pl0. split.
    - apply Hno', Hno. intros device data. cbn [parameters].
      by intros [_ <-]%lookup_singleton_Some.
    - rewrite Hlen. by apply Hone. }
  assert (noParameters pl →
          singleParamQuestions pl = [] ∧ spuriousParamQuestions pl = [])
    as Hquiet.
  { split; [by apply singleParamQuestions_noParameters
           |by apply spuriousParamQuestions_noParameters]. }
  unfold MetaTemplater.classify. rewrite functions_PrintTemplate.
  unfold PrintTemplate. cbv zeta.
  change (singleParamQuestions (formatGroups pl))
    with (singleParamQuestions pl).
  change (spuriousParamQuestions (formatGroups pl))
    with (spuriousParamQuestions pl).
  change (counter (formatGroups pl)) with (counter pl).
  assert (length (groupsList (formatGroups pl)) = length (groupsList pl))
    as ->.
  { unfold formatGroups. simpl. apply Permutation_length, isort_Permutation. }
  split_and!; [done..|by rewrite Hc| done |naive_solver| |].
  - case_decide as Hreport.
    + simpl. split; [done|]. intros (Hpl & Hone')%Hzero.
      destruct (Hquiet Hpl) as [Hs Hp]. rewrite Hs, Hp, Hone' in Hreport.
      destruct Hreport as [?|[?|?]]; [lia|done..].
    + repeat case_decide; simpl; naive_solver.
  - case_decide as Hreport.
    + simpl. split; [done|]. intros (_ & _ & Hone' & Hs & Hp).
      rewrite Hs, Hp, Hone' in Hreport.
      destruct Hreport as [?|[?|?]]; [lia|done..].
    + assert (length (groupsList pl) = 1%nat) as Hone'.
      { destruct (groupsList pl) as [|? [|??]]; [done..|].
        exfalso. apply Hreport. left. simpl. lia. }
      assert (singleParamQuestions pl = []) as Hs.
      { destruct (decide (singleParamQuestions pl = [])); [done|].
        exfalso. apply Hreport. by right; left. }
      assert (spuriousParamQuestions pl = []) as Hp.
      { destruct (decide (spuriousParamQuestions pl = [])); [done|].
        exfalso. apply Hreport. by right; right. }
      repeat case_decide; simpl; naive_solver.
Qed.
End flavor.

Lemma rfoldl_invariant_in {A B} (P : A → Prop) (f : A → B → result A) l :
  (∀ a b a', b ∈ l → P a → f a b = Ok a' → P a') →
  ∀ a a', P a → rfoldl f a l = Ok a' → P a'.
Proof.
  induction l as [|b l IH]; intros Hf a a' Ha; simpl.
  - by intros [= <-].
  - destruct (f a b) as [a1|] eqn:Hab; simpl; [|done].
    apply IH; [|eapply Hf; [|done..]]; [|set_solver].
    intros ??? Hin. apply Hf. set_solver.
Qed.

(** The exact-equivalence fast path, one definition at a time. *)
Lemma scanSegment_oneRetained json lineCountMap device info pattern
    segments lineCounts scan sj segments' lineCounts' scan' :
  (re_match pattern sj.1 = true → sj.2 = json) →
  oneRetained json lineCountMap segments lineCounts (exactDefMatchMap scan) →
  scanSegment device info pattern (segments, lineCounts, scan) sj
  = Ok (segments', lineCounts', scan') →
  oneRetained json lineCountMap segments' lineCounts' (exactDefMatchMap scan').
Proof.
  intros Hjson Hinv. unfold scanSegment.
  destruct (re_match pattern sj.1); [|by intros [= <- <- <-]].
  specialize (Hjson eq_refl). rewrite Hjson.
  intros (parsedSegment & Hparse & Hscan)%rbind_Ok.
  unfold PrefixList_init in Hparse.
  apply rbind_Ok in Hparse as (bs & _ & [= <-]).
  destruct (nonEmpty _); [|by injection Hscan as <- <- <-].
  unfold checkJSONEquality in Hscan.
  destruct Hinv as [(-> & -> & -> & Hmap)
                   |(segment & lineCount & exact & Hmap & Hwhere)];
    rewrite Hmap in Hscan; simpl in Hscan.
  - apply rbind_Ok in Hscan as (totalLines & _ & [= <- <- <-]).
    right. eexists (mkSegment _ _ _ _), totalLines, []. simpl.
    split; [done|]. by left.
  - unfold instanceCheck in Hscan.
    rewrite bool_decide_eq_true_2 in Hscan by done.
    injection Hscan as <- <- <-. right.
    eexists segment, lineCount, _. simpl. split; [done|]. exact Hwhere.
Qed.

Lemma collectDevice_oneRetained json pattern device info
    lineCountMap scan lineCountMap' scan' :
  (∀ segments segmentName segmentJson,
     od_get (di_sections info) "routeFilterLists" = Some segments →
     (segmentName, segmentJson) ∈ segments →
     re_match pattern segmentName = true → segmentJson = json) →
  oneRetained json lineCountMap [] [] (exactDefMatchMap scan) →
  MetaTemplater.collectDevice GetBlockSequence pattern (lineCountMap, scan)
                              (device, info)
  = Ok (lineCountMap', scan') →
  oneRetained json lineCountMap' [] [] (exactDefMatchMap scan').
Proof.
  intros Hjson Hinv. unfold MetaTemplater.collectDevice. simpl.
  intros ([[segments lineCounts] scan1] & Hget & [= <- <-])%rbind_Ok.
  assert (oneRetained json lineCountMap segments lineCounts
                      (exactDefMatchMap scan1)) as Hinv1.
  { unfold GetBlockSequence in Hget.
    destruct (od_get (di_sections info) "routeFilterLists")
      as [[|s ss]|] eqn:Hsections; [by injection Hget as <- <- <-| |
                                    by injection Hget as <- <- <-].
    revert Hget.
    apply (rfoldl_invariant_in
             (λ a : list Segment * list Z * Scan (list PrefixJson),
                oneRetained json lineCountMap a.1.1 a.1.2
                            (exactDefMatchMap a.2))); [|done].
    intros [[sa la] ca] [nm js] [[sb lb] cb] Hin Ha Hstep.
    eapply scanSegment_oneRetained; [|exact Ha|exact Hstep].
    simpl. by apply (Hjson _ _ _ eq_refl Hin). }
  destruct Hinv1 as [(-> & -> & -> & Hmap)
                    |(segment & lineCount & exact & Hmap
                      & [(-> & -> & ->)|(-> & -> & ->)])].
  - by left.
  - right. exists segment, lineCount, exact. split; [done|]. by right.
  - right. exists segment, lineCount, exact. split; [done|]. by right.
Qed.

Lemma collectSegments_oneRetained json pattern devicesInfo scan
    lineCountMap scan' :
  sameDefinition pattern json devicesInfo →
  exactDefMatchMap scan = [] →
  MetaTemplater.collectSegments GetBlockSequence pattern devicesInfo scan
  = Ok (lineCountMap, scan') →
  oneRetained json lineCountMap [] [] (exactDefMatchMap scan').
Proof.
  intros Hsame Hfresh. unfold MetaTemplater.collectSegments.
  apply (rfoldl_invariant_in
           (λ a : list (Z * list Segment) * Scan (list PrefixJson),
              oneRetained json a.1 [] [] (exactDefMatchMap a.2)));
    [|by left].
  intros [la ca] [device info] [lb cb] Hin Ha Hstep.
  eapply collectDevice_oneRetained; [|exact Ha|exact Hstep].
  intros segments segmentName segmentJson Hsections Hseg Hmatch.
  by eapply Hsame.
Qed.

Lemma segmentOrder_one lineCount segment :
  MetaTemplater.segmentOrder [(lineCount, [segment])] = [(lineCount, segment)].
Proof.
  unfold MetaTemplater.segmentOrder. simpl. by rewrite decide_True.
Qed.

(** C8: for either flavor record, when a segment is retained (the code is
    not NotFound), the driver returns Exact Consistency exactly when
    [templatingCount] is 0, that is when one segment was retained and
    nothing was merged, and then no device has a parameter value; it
    returns Reorder Consistency exactly when [templatingCount] is not 0,
    the counter after minimization is 0, there is one group and there are
    no outlier questions.  When all the route filter lists that match the
    pattern have the same definition, the first is retained, the others
    are only recorded in the map of exact definitions, nothing is merged,
    no device has a parameter value and the code is Exact Consistency. *)
Theorem StructuredGeneralization_classification :
  (∀ (J : Type)
     (GetBlockSequence : string → DeviceInfo J → string → Scan J →
                         result (list Segment * list Z * Scan J))
     functions patternString devicesInfo scan o scan',
     isFlavor functions →
     MetaTemplater.StructuredGeneralization GetBlockSequence functions
       patternString devicesInfo scan = Ok (o, scan') →
     MetaTemplater.out_code o ≠ "NotFound" →
     ∃ lineCountMap metaTemplate pl0 templatingCount mt pl exactGroupSizes,
       MetaTemplater.collectSegments GetBlockSequence patternString devicesInfo
         (mkScan (foundDevices scan) (emptyDefDevices scan) [])
       = Ok (lineCountMap, scan')
       ∧ MetaTemplater.generalize GetBlockSequence functions patternString
           devicesInfo scan
         = Ok (Some (metaTemplate, pl0), templatingCount, scan')
       ∧ S templatingCount = length (MetaTemplater.segmentOrder lineCountMap)
       ∧ MetaTemplater.finish functions metaTemplate pl0 scan'
         = Ok (mt, pl, exactGroupSizes)
       ∧ (templatingCount = 0%nat → noParameters pl)
       ∧ (MetaTemplater.out_code o = "Exact Consistency"
          ↔ templatingCount = 0%nat)
       ∧ (MetaTemplater.out_code o = "Reorder Consistency"
          ↔ templatingCount ≠ 0%nat ∧ counter pl = 0%nat
            ∧ length (groupsList pl) = 1%nat
            ∧ singleParamQuestions pl = []
            ∧ spuriousParamQuestions pl = []))
  ∧ (∀ patternString json devicesInfo scan o scan',
       sameDefinition patternString json devicesInfo →
       MetaTemplater.StructuredGeneralization GetBlockSequence
         main.prefixListFunctions patternString devicesInfo scan
       = Ok (o, scan') →
       MetaTemplater.out_code o ≠ "NotFound" →
       MetaTemplater.out_code o = "Exact Consistency"
       ∧ ∃ segment lineCount exact metaTemplate pl0 mt pl exactGroupSizes,
           MetaTemplater.collectSegments GetBlockSequence patternString
             devicesInfo (mkScan (foundDevices scan) (emptyDefDevices scan) [])
           = Ok ([(lineCount, [segment])], scan')
           ∧ exactDefMatchMap scan' = [(deviceName segment, (exact, json))]
           ∧ MetaTemplater.generalize GetBlockSequence main.prefixListFunctions
               patternString devicesInfo scan
             = Ok (Some (metaTemplate, pl0), 0%nat, scan')
           ∧ MetaTemplater.finish main.prefixListFunctions metaTemplate pl0 scan'
             = Ok (mt, pl, exactGroupSizes)
           ∧ noParameters pl).
Proof.
  split.
  - intros J GBS functions patternString devicesInfo scan o scan' Hflavor.
    apply StructuredGeneralization_codes; by destruct Hflavor as [->| ->].
  - intros patternString json devicesInfo scan o scan' Hsame Hsg Hcode.
    destruct (StructuredGeneralization_codes GetBlockSequence
                main.prefixListFunctions eq_refl eq_refl eq_refl
                _ _ _ _ _ Hsg Hcode)
      as (lineCountMap & mt0 & pl0 & c & mt & pl & sizes
          & Hcollect & Hgeneralize & Hc & Hfinish & Hno & Hexact & _).
    pose proof (collectSegments_oneRetained
                  json patternString devicesInfo
                  (mkScan (foundDevices scan) (emptyDefDevices scan) [])
                  lineCountMap scan' Hsame eq_refl Hcollect)
      as [(-> & _)|(segment & lineCount & exact & Hmap
                    & [(_ & ? & _)|(-> & _)])]; [done..|].
    rewrite segmentOrder_one in Hc. injection Hc as ->.
    split; [by apply Hexact|].
    exists segment, lineCount, exact, mt0, pl0, mt, pl, sizes.
    split_and!; [done..|by apply Hno].
Qed.
End driver.

(** Two devices with the lines in opposite orders, and two devices with the
    same definition. *)
Lemma StructuredGeneralization_classification_witness :
  let run := MetaTemplater.StructuredGeneralization PrefixList.GetBlockSequence
               main.prefixListFunctions "X$" in
  let reordered :=
    [Examples.deviceWith "A" [Examples.permit10; Examples.permit11];
     Examples.deviceWith "B" [Examples.permit11; Examples.permit10]] in
  let equal :=
    [Examples.deviceWith "A" [Examples.permit10];
     Examples.deviceWith "B" [Examples.permit10]] in
  (∃ o scan',
     run reordered (mkScan ∅ ∅ []) = Ok (o, scan')
     ∧ MetaTemplater.out_code o = "Reorder Consistency"
     ∧ ∃ lineCountMap metaTemplate pl0 mt pl exactGroupSizes,
         MetaTemplater.generalize PrefixList.GetBlockSequence
           main.prefixListFunctions "X$" reordered (mkScan ∅ ∅ [])
         = Ok (Some (metaTemplate, pl0), 1%nat, scan')
         ∧ length (MetaTemplater.segmentOrder lineCountMap) = 2%nat
         ∧ MetaTemplater.finish main.prefixListFunctions metaTemplate pl0 scan'
           = Ok (mt, pl, exactGroupSizes)
         ∧ counter pl = 0%nat ∧ length (groupsList pl) = 1%nat)
  ∧ sameDefinition "X$" [Examples.permit10] equal
  ∧ (∃ o scan',
       run equal (mkScan ∅ ∅ []) = Ok (o, scan')
       ∧ MetaTemplater.out_code o = "Exact Consistency"
       ∧ ∃ segment exact, exactDefMatchMap scan'
                          = [(deviceName segment, (exact, [Examples.permit10]))]).
Proof.
  intros run reordered equal. subst run.
  assert (sameDefinition "X$" [Examples.permit10] equal) as Hsame.
  { intros device info segments segmentName segmentJson Hin Hsections Hseg _.
    repeat (apply elem_of_cons in Hin as [Hin|Hin]; [injection Hin as -> ->|]);
      [| |by apply elem_of_nil in Hin];
      injection Hsections as <-;
      by apply list_elem_of_singleton in Hseg as [= _ ->]. }
  split_and!; [|exact Hsame|].
  - destruct (MetaTemplater.StructuredGeneralization _ _ _ reordered _) as [[o scan']|e] eqn:Hrun;
      [|vm_compute in Hrun; discriminate Hrun].
    assert (MetaTemplater.out_code o = "Reorder Consistency") as Hcode.
    { pose proof Hrun as Hrun'. vm_compute in Hrun'. by injection Hrun' as <- _. }
    exists o, scan'. split; [done|]. split; [done|].
    destruct (proj1 (StructuredGeneralization_classification
                       (H := Reference.library))
                _ _ _ _ _ _ _ _ (or_introl eq_refl) Hrun)
      as (lineCountMap & mt0 & pl0 & c & mt & pl & sizes
          & _ & Hgeneralize & Hc & Hfinish & _ & _ & Hreorder).
    { by rewrite Hcode. }
    apply Hreorder in Hcode as (Hmerged & Hcounter & Hgroups & _).
    assert (c = 1%nat) as ->.
    { pose proof Hgeneralize as Hg. vm_compute in Hg. by injection Hg as _ _ <-. }
    exists lineCountMap, mt0, pl0, mt, pl, sizes. by split_and!.
  - destruct (MetaTemplater.StructuredGeneralization _ _ _ equal _) as [[o scan']|e] eqn:Hrun;
      [|vm_compute in Hrun; discriminate Hrun].
    assert (MetaTemplater.out_code o ≠ "NotFound") as Hcode.
    { pose proof Hrun as Hrun'. vm_compute in Hrun'. by injection Hrun' as <- _. }
    exists o, scan'. split; [done|].
    destruct (proj2 (StructuredGeneralization_classification
                       (H := Reference.library))
                _ _ _ _ _ _ Hsame Hrun Hcode)
      as (Hexact & segment & lineCount & exact & mt0 & pl0 & mt & pl & sizes
          & _ & Hmap & _).
    split; [done|]. by exists segment, exact.
Defined.
(** ** The scan over the segment names: faults *)

(** [getSrcOrDstIps] raises on an IpSpace of a class it does not know. *)
Lemma getSrcOrDstIps_unknown_class :
  ACL.getSrcOrDstIps (Some Examples.unknownSpace) = Raise NotImplementedError.
Proof. reflexivity. Qed.

(** [Block.__init__] raises on a length range without a dash. *)
Lemma GetBlockSequence_malformed :
  PrefixList.GetBlockSequence (H := Reference.library) "B"
    (Examples.deviceWith "B" [Examples.malformed]).2 "X$" (mkScan ∅ ∅ [])
  = Raise ValueError.
Proof. reflexivity. Qed.

Section scan.
Context {J : Type}.
Variable GetBlockSequence :
  string → DeviceInfo J → string → Scan J →
  result (list Segment * list Z * Scan J).
Variable functions : MetaTemplater.Functions.

Lemma collectSegments_raises patternString before device info after scan acc e :
  MetaTemplater.collectSegments GetBlockSequence patternString before scan
  = Ok acc →
  GetBlockSequence device info patternString acc.2 = Raise e →
  MetaTemplater.collectSegments GetBlockSequence patternString
    (before ++ (device, info) :: after) scan = Raise e.
Proof.
  unfold MetaTemplater.collectSegments. intros Hbefore Hraise.
  rewrite rfoldl_app, Hbefore. destruct acc as [lineCountMap scan1].
  simpl in *.
  assert (MetaTemplater.collectDevice GetBlockSequence patternString
            (lineCountMap, scan1) (device, info) = Raise e) as ->; [|done].
  unfold MetaTemplater.collectDevice. simpl. by rewrite Hraise.
Qed.

(** C2, as the code has it: the [try] of [AllSegments] is around the call
    of [StructuredGeneralization] for one segment name.  If
    [GetBlockSequence] raises on one device -- after the devices before it
    were scanned -- the call raises for the whole pattern, whatever the
    devices after it hold: nothing is templated for that segment name, the
    Error tally grows by one, the group table and the comparison with
    exact grouping are unchanged, and the loop goes on with the next
    segment names.  With a pattern other than [.*] there is no [try]:
    [AllSegments] raises. *)
Theorem AllSegments_bad_segment patternString before device info after acc e :
  MetaTemplater.collectSegments GetBlockSequence patternString before
    (mkScan ∅ ∅ []) = Ok acc →
  GetBlockSequence device info patternString acc.2 = Raise e →
  let devicesInfo := before ++ (device, info) :: after in
  MetaTemplater.StructuredGeneralization GetBlockSequence functions
    patternString devicesInfo (mkScan ∅ ∅ []) = Raise e
  ∧ (∀ segmentName report,
       patternString = segmentName +:+ "$" →
       main.scanName GetBlockSequence functions devicesInfo report segmentName
       = main.mkReport (main.increment (main.differentCounts report) "Error")
                       (main.csvgen report) (main.exactVsSelfStarter report))
  ∧ (∀ segmentName report names1 names2,
       patternString = segmentName +:+ "$" →
       foldl (main.scanName GetBlockSequence functions devicesInfo) report
             (names1 ++ segmentName :: names2)
       = let report1 :=
           foldl (main.scanName GetBlockSequence functions devicesInfo)
                 report names1 in
         foldl (main.scanName GetBlockSequence functions devicesInfo)
               (main.mkReport
                  (main.increment (main.differentCounts report1) "Error")
                  (main.csvgen report1) (main.exactVsSelfStarter report1))
               names2)
  ∧ (∀ segmentType,
       patternString ≠ ".*" →
       main.AllSegments GetBlockSequence functions devicesInfo segmentType
                        patternString = Raise e).
Proof.
  intros Hbefore Hraise devicesInfo.
  assert (MetaTemplater.StructuredGeneralization GetBlockSequence functions
            patternString devicesInfo (mkScan ∅ ∅ []) = Raise e) as Hsg.
  { unfold MetaTemplater.StructuredGeneralization, MetaTemplater.generalize.
    simpl. unfold devicesInfo.
    by rewrite (collectSegments_raises _ _ _ _ _ _ _ _ Hbefore Hraise). }
  assert (∀ segmentName report,
            patternString = segmentName +:+ "$" →
            main.scanName GetBlockSequence functions devicesInfo report
                          segmentName
            = main.mkReport (main.increment (main.differentCounts report) "Error")
                            (main.csvgen report) (main.exactVsSelfStarter report))
    as Hscan.
  { intros segmentName report Hname. unfold main.scanName.
    by rewrite <- Hname, Hsg. }
  split_and!; [done|done| |].
  - intros segmentName report names1 names2 Hname.
    rewrite foldl_app. simpl. by rewrite Hscan.
  - intros segmentType Hpattern. unfold main.AllSegments.
    rewrite decide_False by done. by rewrite Hsg.
Qed.
End scan.

(** Devices [A] and [C] hold the same two entries, [B] a malformed one:
    the scan of [X] ends with the Error tally only, and nothing is reported
    for [A] and [C], although the two alone are classified. *)
Lemma AllSegments_bad_segment_counterexample :
  let good := [Examples.permit10; Examples.permit11] in
  let remaining := [Examples.deviceWith "A" good; Examples.deviceWith "C" good] in
  let devicesInfo :=
    [Examples.deviceWith "A" good; Examples.deviceWith "B" [Examples.malformed];
     Examples.deviceWith "C" good] in
  let AllSegments devices :=
    main.AllSegments PrefixList.GetBlockSequence main.prefixListFunctions devices
                     ["routeFilterLists"; "route6FilterLists"] ".*" in
  AllSegments devicesInfo = Ok (main.mkReport [("Error", 1%nat)] [] [])
  ∧ AllSegments remaining
    = Ok (main.mkReport
            [("Error", 0%nat); ("No Empty Clauses- Exact Consistency", 1%nat)]
            [] []).
Proof. split; vm_compute; reflexivity. Qed.

Lemma AllSegments_bad_segment_witness :
  let good := [Examples.permit10; Examples.permit11] in
  let before := [Examples.deviceWith "A" good] in
  let after := [Examples.deviceWith "C" good] in
  let info := (Examples.deviceWith "B" [Examples.malformed]).2 in
  ∃ acc,
    MetaTemplater.collectSegments PrefixList.GetBlockSequence "X$" before
      (mkScan ∅ ∅ []) = Ok acc
    ∧ PrefixList.GetBlockSequence "B" info "X$" acc.2 = Raise ValueError
    ∧ MetaTemplater.StructuredGeneralization PrefixList.GetBlockSequence
        main.prefixListFunctions "X$" (before ++ ("B", info) :: after)
        (mkScan ∅ ∅ []) = Raise ValueError
    ∧ main.scanName PrefixList.GetBlockSequence main.prefixListFunctions
        (before ++ ("B", info) :: after) (main.mkReport [("Error", 0%nat)] [] [])
        "X"
      = main.mkReport [("Error", 1%nat)] [] [].
Proof.
  intros good before after info.
  destruct (MetaTemplater.collectSegments PrefixList.GetBlockSequence "X$" before
              (mkScan ∅ ∅ [])) as [acc|e] eqn:Hbefore;
    [|vm_compute in Hbefore; discriminate Hbefore].
  assert (PrefixList.GetBlockSequence "B" info "X$" acc.2 = Raise ValueError)
    as Hraise.
  { pose proof Hbefore as Hacc. vm_compute in Hacc. injection Hacc as <-.
    vm_compute. reflexivity. }
  exists acc. split; [done|]. split; [exact Hraise|].
  destruct (AllSegments_bad_segment PrefixList.GetBlockSequence
              main.prefixListFunctions "X$" before "B" info after acc ValueError
              Hbefore Hraise) as (Hsg & Hscan & _).
  split; [exact Hsg|].
  exact (Hscan "X" (main.mkReport [("Error", 0%nat)] [] []) eq_refl).
Defined.
(** ** Parsing of prefix lists *)

Section parsing.
Import PrefixList.

Lemma splitOn_cons c s : ∃ w ws, splitOn c s = w :: ws.
Proof.
  induction s as [|c' s IH]; simpl; [by eexists _, _|].
  case_decide; [by eexists _, _|].
  destruct IH as (w & ws & ->). by eexists _, _.
Qed.

Lemma splitOn_contains c s :
  containsChar c s = true → ∃ w w' ws, splitOn c s = w :: w' :: ws.
Proof.
  induction s as [|c' s IH]; simpl; [done|].
  case_decide.
  - intros _. destruct (splitOn_cons c s) as (w & ws & ->). by eexists _, _, _.
  - intros (w & w' & ws & ->)%IH. by eexists _, _, _.
Qed.

Lemma octetsAt_lookup_lt line octets k :
  k < 3 → octetsAt line octets !! k = line !! k.
Proof.
  intros Hk. unfold octetsAt. generalize (enumerate octets). intros l.
  revert line. induction l as [|[i o] l IH]; intros line; simpl; [done|].
  rewrite IH. apply lookup_insert_ne. lia.
Qed.

Lemma encodeLine_eq lineNum prefix :
  encodeLine lineNum prefix
  = match splitOn "-" (lengthRange prefix) with
    | [lo; hi] => Ok (encoded lineNum prefix lo hi)
    | _ => Raise ValueError
    end.
Proof.
  unfold encodeLine, encoded.
  destruct (splitOn "-" (lengthRange prefix)) as [|lo [|hi [|??]]]; [done..| |done].
  cbn [mbind result_bind]. cbv zeta.
  destruct (containsChar "/" (ipWildcard prefix)) eqn:Hslash.
  - destruct (splitOn_contains _ _ Hslash) as (w & w' & ws & ->).
    by destruct (containsChar ":" (ipWildcard prefix)).
  - destruct (splitOn_cons "/" (ipWildcard prefix)) as (w & ws & ->).
    by destruct (containsChar ":" (ipWildcard prefix)).
Qed.

Lemma encoded_LINENUM lineNum prefix lo hi :
  encoded lineNum prefix lo hi !! LINENUM = Some (PInt lineNum).
Proof.
  unfold encoded. cbv zeta.
  destruct (containsChar ":" (ipWildcard prefix));
    rewrite ?lookup_insert_ne by (unfold LINENUM; lia);
    rewrite octetsAt_lookup_lt by (unfold LINENUM; lia);
    rewrite !lookup_insert_ne by (unfold LINENUM, TAG; lia);
    apply lookup_singleton_eq.
Qed.

Lemma rfoldl_Raise {A B} (f : A → B → result A) l :
  ∀ a e, rfoldl f a l = Raise e →
  ∃ pre x post a', l = pre ++ x :: post
                   ∧ rfoldl f a pre = Ok a' ∧ f a' x = Raise e.
Proof.
  induction l as [|b l IH]; intros a e; simpl; [done|].
  destruct (f a b) as [a1|e1] eqn:Hab; simpl.
  - intros (pre & x & post & a' & -> & Hpre & Hx)%IH.
    exists (b :: pre), x, post, a'. simpl. by rewrite Hab.
  - intros [= ->]. by exists [], b, l, a.
Qed.

Lemma rmapM_Raise {A B} (f : A → result B) l e :
  rmapM f l = Raise e → ∃ x, x ∈ l ∧ f x = Raise e.
Proof.
  induction l as [|a l IH]; simpl; [done|].
  destruct (f a) as [b|e1] eqn:Ha; simpl.
  - destruct (rmapM f l); simpl; [done|].
    intros [= ->]. destruct IH as (x & ? & ?); [done|]. exists x. set_solver.
  - intros [= ->]. exists a. set_solver.
Qed.

Lemma rmapM_Forall2_iff {A B} (f : A → result B) (l : list A) (k : list B) :
  rmapM f l = Ok k ↔ Forall2 (λ a b, f a = Ok b) l k.
Proof.
  split; [apply rmapM_Forall2|].
  induction 1 as [|a b l k Hab _ IH]; simpl; [done|]. by rewrite Hab, IH.
Qed.

Lemma encodeLine_wellFormed lineNum prefix :
  wellFormed prefix → ∃ line, encodeLine lineNum prefix = Ok line.
Proof.
  unfold wellFormed. rewrite encodeLine_eq.
  destruct (splitOn "-" (lengthRange prefix)) as [|lo [|hi [|??]]]; [done..| |done].
  eauto.
Qed.

Lemma encodeLine_Raise lineNum prefix e :
  encodeLine lineNum prefix = Raise e → e = ValueError ∧ ¬ wellFormed prefix.
Proof.
  unfold wellFormed. rewrite encodeLine_eq.
  destruct (splitOn "-" (lengthRange prefix)) as [|lo [|hi [|??]]];
    intros [=]; done.
Qed.

Lemma encodeLine_LINENUM lineNum prefix line :
  encodeLine lineNum prefix = Ok line → line !! LINENUM = Some (PInt lineNum).
Proof.
  rewrite encodeLine_eq.
  destruct (splitOn "-" (lengthRange prefix)) as [|lo [|hi [|??]]]; [done..| |done].
  intros [= <-]. apply encoded_LINENUM.
Qed.

Lemma Block_init_spec start action entries b :
  Block_init (Z.of_nat start) action entries = Ok b
  ↔ action_type b = action ∧ encodedFrom start entries (lines b).
Proof.
  unfold Block_init, encodedFrom. rewrite rbind_Ok. split.
  - intros (ls & Hls%rmapM_Forall2_iff & [= <-]). split; [done|]. simpl.
    eapply Forall2_impl; [exact Hls|]. intros [k e] line. simpl.
    by rewrite Nat2Z.inj_add.
  - intros [<- Hls]. exists (lines b). split; [|by destruct b].
    apply rmapM_Forall2_iff. eapply Forall2_impl; [exact Hls|].
    intros [k e] line. simpl. by rewrite Nat2Z.inj_add.
Qed.

Lemma encodedFrom_app start l1 l2 r1 r2 :
  encodedFrom start l1 r1 → encodedFrom (start + length l1) l2 r2 →
  encodedFrom start (l1 ++ l2) (r1 ++ r2).
Proof.
  unfold encodedFrom, enumerate. intros H1 H2. rewrite imap_app.
  apply Forall2_app; [done|].
  apply Forall2_lookup. intros i.
  pose proof (proj1 (Forall2_lookup _ _ _) H2 i) as Hi.
  rewrite list_lookup_imap in Hi. rewrite list_lookup_imap.
  destruct (l2 !! i); simpl in *; inversion Hi as [?? Henc|]; constructor.
  simpl in *. by rewrite <- Nat.add_assoc in Henc.
Qed.

Lemma encodedFrom_lineIds entries ls :
  encodedFrom 0 entries ls →
  (.!! LINENUM) <$> ls
  = (λ k, Some (PInt (Z.of_nat k))) <$> seq 0 (length entries).
Proof.
  unfold encodedFrom. intros Hls. apply list_eq. intros i.
  rewrite !list_lookup_fmap.
  pose proof (Forall2_length _ _ _ Hls) as Hlen.
  unfold enumerate in Hlen. rewrite length_imap in Hlen.
  destruct (ls !! i) as [line|] eqn:Hline; simpl.
  - destruct (Forall2_lookup_r _ _ _ _ _ Hls Hline) as ([k e] & Hke & Henc).
    unfold enumerate in Hke.
    apply list_lookup_imap_Some in Hke as (e' & He' & [= <- <-]).
    rewrite lookup_seq_lt by (by eapply lookup_lt_Some). simpl in *.
    by rewrite (encodeLine_LINENUM _ _ _ Henc).
  - apply lookup_ge_None in Hline.
    rewrite lookup_seq_ge by lia. done.
Qed.

Lemma createStep_inv pre st e st' :
  createInv pre st → createStep st (length pre, e) = Ok st' →
  createInv (pre ++ [e]) st'.
Proof.
  intros (s & Hstart & Hle & Hblock & Hdone). unfold createStep.
  assert (createInv (pre ++ [e])
            (mkBlocks (Some (action e)) (block st ++ [e])
                      (startingLineNumber st) (parsed st))) as Hsame.
  { exists s. simpl. split_and!; [done|rewrite length_app; lia| |].
    - by rewrite drop_app_le, Hblock by done.
    - by rewrite take_app_le by done. }
  case_bool_decide; [by intros [= <-]|].
  case_decide as Haction; simpl.
  - intros (b & Hinit & [= <-])%rbind_Ok. rewrite Hstart in Hinit.
    apply Block_init_spec in Hinit as [Hb Hlines].
    exists (length pre). simpl. split_and!; [done|rewrite length_app; lia| |].
    + by rewrite drop_app_length.
    + rewrite take_app_length, fmap_app, concat_app. simpl.
      rewrite app_nil_r, <- (take_drop s pre) at 1.
      apply encodedFrom_app; [done|].
      rewrite length_take, Nat.min_l by done. simpl. by rewrite <- Hblock.
  - intros [= <-]. destruct (presentAction st) as [a|] eqn:Ha; [|naive_solver].
    assert (a = action e) as -> by (destruct (decide (a = action e)); naive_solver).
    done.
Qed.

Lemma createSteps_inv json :
  ∀ pre st st',
  createInv pre st →
  rfoldl createStep st (imap (λ k, pair (length pre + k)%nat) json) = Ok st' →
  createInv (pre ++ json) st'.
Proof.
  induction json as [|e json IH]; intros pre st st' Hinv; simpl.
  - intros [= <-]. by rewrite app_nil_r.
  - rewrite Nat.add_0_r. intros (st1 & Hstep & Hrest)%rbind_Ok.
    rewrite (cons_middle e pre json), app_assoc. apply (IH _ st1).
    + by eapply createStep_inv.
    + rewrite length_app. simpl.
      erewrite imap_ext; [exact Hrest|]. intros k x _. simpl. f_equal. lia.
Qed.

Lemma createBlocks_encoded json bs :
  createBlocks json = Ok bs →
  encodedFrom 0 json (concat (lines <$> bs)) ∧ bs ≠ [].
Proof.
  unfold createBlocks. intros (st & Hfold & Hlast)%rbind_Ok.
  apply (createSteps_inv json [] _ st) in Hfold;
    [|exists 0%nat; simpl; split_and!; [done..|constructor]].
  destruct Hfold as (s & Hstart & Hle & Hblock & Hdone). simpl in *.
  rewrite Hstart in Hlast.
  apply rbind_Ok in Hlast as (b & [Hb Hlines]%Block_init_spec & [= <-]).
  split; [|by destruct (parsed st)].
  rewrite fmap_app, concat_app. simpl.
  rewrite app_nil_r, <- (take_drop s json) at 1.
  apply encodedFrom_app; [done|].
  rewrite length_take, Nat.min_l by done. simpl. by rewrite <- Hblock.
Qed.

(** X1: the lines of the blocks that [createBlocks] builds are, in order,
    the encodings of the entries with the line numbers 0, 1, 2, ...: no
    entry is lost or repeated at a change of action, the line identities
    are contiguous from 0 on, and there is at least one block. *)
Theorem createBlocks_lines (prefixListJson : list PrefixJson) (bs : list Block) :
  createBlocks prefixListJson = Ok bs →
  encodedFrom 0 prefixListJson (concat (lines <$> bs))
  ∧ contiguousIds bs (length prefixListJson)
  ∧ bs ≠ [].
Proof.
  intros [Hlines Hne]%createBlocks_encoded. split_and!; [done| |done].
  by apply encodedFrom_lineIds.
Qed.

Lemma rmapM_total_Ok {A B} (f : A → result B) (l : list A) :
  (∀ x, x ∈ l → ∃ y, f x = Ok y) → ∃ k, rmapM f l = Ok k.
Proof.
  induction l as [|a l IH]; intros Hf; simpl; [by eexists|].
  destruct (Hf a) as [b ->]; [set_solver|].
  destruct IH as [k ->]; [intros; apply Hf; set_solver|]. by eexists.
Qed.

Lemma Block_init_total lineNum action entries :
  Forall wellFormed entries → ∃ b, Block_init lineNum action entries = Ok b.
Proof.
  intros Hwf. unfold Block_init.
  destruct (rmapM_total_Ok
              (λ ip : nat * PrefixJson, encodeLine (lineNum + Z.of_nat ip.1) ip.2)
              (enumerate entries)) as [ls ->]; [|by eexists].
  intros [k e] (i & e' & [= -> ->] & He')%elem_of_lookup_imap_1. simpl.
  apply encodeLine_wellFormed. rewrite Forall_forall in Hwf. apply Hwf.
  by eapply list_elem_of_lookup_2.
Qed.

Lemma Block_init_Raise lineNum action entries e :
  Block_init lineNum action entries = Raise e → e = ValueError.
Proof.
  unfold Block_init.
  destruct (rmapM _ _) as [ls|e'] eqn:Hls; simpl; [done|]. intros [= ->].
  apply rmapM_Raise in Hls as ([k p] & _ & Hraise).
  by apply encodeLine_Raise in Hraise as [-> _].
Qed.

Lemma createSteps_total (l : list (nat * PrefixJson)) :
  ∀ st, Forall wellFormed (block st) → Forall wellFormed l.*2 →
  ∃ st', rfoldl createStep st l = Ok st' ∧ Forall wellFormed (block st').
Proof.
  induction l as [|[k e] l IH]; intros st Hblock Hl; simpl; [by eexists|].
  apply Forall_cons in Hl as [He Hl]. simpl in He.
  assert (∃ st1, createStep st (k, e) = Ok st1
                 ∧ Forall wellFormed (block st1)) as (st1 & -> & Hst1).
  { unfold createStep. case_bool_decide.
    { eexists. split; [done|]. simpl. apply Forall_app. by split; [|constructor]. }
    case_decide.
    - destruct (Block_init_total (startingLineNumber st) (presentAction st)
                  (block st) Hblock) as [b ->].
      eexists. split; [done|]. simpl. by constructor.
    - eexists. split; [done|]. simpl. apply Forall_app. by split; [|constructor]. }
  simpl. by apply IH.
Qed.

(** X2: [createBlocks] returns when the length range of every entry has
    exactly one dash; it raises nothing but ValueError, and only when some
    length range has not. *)
Theorem createBlocks_errors (prefixListJson : list PrefixJson) :
  (Forall wellFormed prefixListJson →
   ∃ bs, createBlocks prefixListJson = Ok bs)
  ∧ (∀ e, createBlocks prefixListJson = Raise e →
          e = ValueError ∧ ¬ Forall wellFormed prefixListJson).
Proof.
  assert (Forall wellFormed prefixListJson →
          ∃ bs, createBlocks prefixListJson = Ok bs) as Htotal.
  { intros Hwf. unfold createBlocks.
    destruct (createSteps_total (enumerate prefixListJson)
                (mkBlocks None [] 0 [])) as (st & -> & Hblock);
      [constructor| |].
    - assert ((enumerate prefixListJson).*2 = prefixListJson) as ->; [|done].
      unfold enumerate. rewrite fmap_imap.
      rewrite (imap_ext _ (λ _ x, x)) by done. clear.
      induction prefixListJson as [|? ? IH]; simpl; [done|]. f_equal.
      by rewrite <- IH at 2.
    - simpl.
      destruct (Block_init_total (startingLineNumber st) (presentAction st)
                  (block st) Hblock) as [b ->].
      by eexists. }
  split; [done|]. intros e Hraise. split.
  - unfold createBlocks in Hraise.
    destruct (rfoldl createStep _ _) as [st|e'] eqn:Hfold; simpl in Hraise.
    + destruct (Block_init _ _ _) as [b|e'] eqn:Hb; simpl in Hraise; [done|].
      injection Hraise as ->. by eapply Block_init_Raise.
    + injection Hraise as ->.
      apply rfoldl_Raise in Hfold as (pre & [k p] & post & st & _ & _ & Hstep).
      unfold createStep in Hstep. case_bool_decide; [done|].
      case_decide; [|done].
      destruct (Block_init _ _ _) as [b|e'] eqn:Hb; simpl in Hstep; [done|].
      injection Hstep as ->. by eapply Block_init_Raise.
  - intros [bs Hbs]%Htotal. by rewrite Hbs in Hraise.
Qed.
End parsing.

Lemma createBlocks_lines_witness :
  ∃ bs,
    PrefixList.createBlocks [Examples.permit10; Examples.permit11] = Ok bs
    ∧ encodedFrom 0 [Examples.permit10; Examples.permit11]
                  (concat (lines <$> bs))
    ∧ contiguousIds bs 2 ∧ bs ≠ [].
Proof.
  destruct (PrefixList.createBlocks [Examples.permit10; Examples.permit11])
    as [bs|e] eqn:Hbs; [|vm_compute in Hbs; discriminate Hbs].
  exists bs. split; [done|].
  exact (createBlocks_lines [Examples.permit10; Examples.permit11] bs Hbs).
Defined.

Lemma createBlocks_errors_witness :
  Forall wellFormed [Examples.permit10; Examples.permit11]
  ∧ (∃ bs, PrefixList.createBlocks [Examples.permit10; Examples.permit11] = Ok bs)
  ∧ PrefixList.createBlocks [Examples.permit10; Examples.malformed]
    = Raise ValueError
  ∧ ¬ Forall wellFormed [Examples.permit10; Examples.malformed].
Proof.
  assert (Forall wellFormed [Examples.permit10; Examples.permit11]) as Hwf
    by (repeat constructor).
  assert (PrefixList.createBlocks [Examples.permit10; Examples.malformed]
          = Raise ValueError) as Hraise by reflexivity.
  split_and!; [exact Hwf| |exact Hraise|].
  - exact (proj1 (createBlocks_errors _) Hwf).
  - exact (proj2 (proj2 (createBlocks_errors _) _ Hraise)).
Defined.
(** ** The template generator: line identities *)

Section generator.
Import PrefixList.

Lemma numberedFrom_start st :
  0 ≤ lineNum st →
  Forall (λ z, 0 ≤ z < lineNum st) (newDeviceLines st) →
  numberedFrom (lineNum st) st [].
Proof. intros. split_and!; [done|simpl; lia|done|done]. Qed.

(** One emitted line. *)
Lemma numberedFrom_emit start st ls pl o2n nd line :
  numberedFrom start st ls →
  (nd = newDeviceLines st ∨ nd = newDeviceLines st ++ [lineNum st]) →
  numberedFrom start (mkMerge pl o2n nd (lineNum st + 1))
               (ls ++ [<[LINENUM := PInt (lineNum st)]> line]).
Proof.
  intros (Hstart & Hnum & Hids & Hdev) Hnd. split_and!; simpl.
  - done.
  - rewrite length_app. simpl. lia.
  - rewrite fmap_app, length_app, Hids. simpl.
    rewrite Nat.add_1_r, seq_S, fmap_app. simpl.
    by rewrite lookup_insert_eq, Hnum.
  - assert (Forall (λ z, 0 ≤ z < lineNum st + 1) (newDeviceLines st)) as Hdev'.
    { eapply Forall_impl; [exact Hdev|]. simpl. lia. }
    destruct Hnd as [-> | ->]; [done|].
    apply Forall_app. split; [done|]. repeat constructor; lia.
Qed.

Lemma numberedFrom_parameters start st ls pl :
  numberedFrom start st ls →
  numberedFrom start
    (mkMerge pl (oldtoNewLineMap st) (newDeviceLines st) (lineNum st)) ls.
Proof. by intros (? & ? & ? & ?). Qed.

Lemma renumberDevice_numbered start acc line :
  numberedFrom start acc.1 acc.2 →
  numberedFrom start (renumberDevice acc line).1 (renumberDevice acc line).2.
Proof.
  destruct acc as [st ls]. simpl. intros Hinv.
  apply numberedFrom_emit; [done|by right].
Qed.

Lemma renumberTemplate_numbered start acc line acc' :
  numberedFrom start acc.1 acc.2 → renumberTemplate acc line = Ok acc' →
  numberedFrom start acc'.1 acc'.2.
Proof.
  destruct acc as [st ls]. simpl. intros Hinv.
  intros (old & _ & [= <-])%rbind_Ok. simpl.
  apply numberedFrom_emit; [done|by left].
Qed.

Lemma templateOnly_numbered start leftout acc il acc' :
  numberedFrom start acc.1 acc.2 → templateOnly leftout acc il = Ok acc' →
  numberedFrom start acc'.1 acc'.2.
Proof.
  destruct acc as [st ls]. simpl. intros Hinv.
  case_decide; [|by intros [= <-]].
  intros (old & _ & [= <-])%rbind_Ok. simpl.
  apply numberedFrom_emit; [done|by left].
Qed.

Lemma deviceOnly_numbered start leftout acc il :
  numberedFrom start acc.1 acc.2 →
  numberedFrom start (deviceOnly leftout acc il).1 (deviceOnly leftout acc il).2.
Proof.
  destruct acc as [st ls]. simpl. intros Hinv.
  case_decide; [|done]. simpl. apply numberedFrom_emit; [done|by right].
Qed.

Lemma mergePair_numbered start pvm device n tls dls acc ij acc' :
  numberedFrom start acc.1 acc.2 →
  mergePair pvm device n tls dls acc ij = Ok acc' →
  numberedFrom start acc'.1 acc'.2.
Proof.
  destruct acc as [st ls]. simpl. intros Hinv.
  intros (tLine & _ & (dLine & _ & Hrest)%rbind_Ok)%rbind_Ok.
  apply rbind_Ok in Hrest as ([pl line] & _ & (old & _ & [= <-])%rbind_Ok).
  simpl. apply numberedFrom_emit; [done|by right].
Qed.

Lemma foldl_invariant {A B} (P : A → Prop) (f : A → B → A) l :
  (∀ a b, P a → P (f a b)) → ∀ a, P a → P (foldl f a l).
Proof.
  intros Hf. induction l as [|b l IH]; intros a Ha; simpl; [done|].
  by apply IH, Hf.
Qed.

(** [MergeLines] numbers the lines it emits from the running line number
    on, whatever the matching is. *)
Lemma MergeLines_numbered templateLines deviceLines st matching device n ls st' :
  0 ≤ lineNum st →
  Forall (λ z, 0 ≤ z < lineNum st) (newDeviceLines st) →
  MergeLines templateLines deviceLines st matching device n = Ok (ls, st') →
  numberedFrom (lineNum st) st' ls.
Proof.
  intros Hstart Hdev. unfold MergeLines. cbv zeta.
  intros (acc1 & H1 & (acc3 & H3 & [= <- <-])%rbind_Ok)%rbind_Ok.
  revert H3.
  apply (rfoldl_invariant
           (λ a : Merge * list Line, numberedFrom (lineNum st) a.1 a.2)).
  { intros ???. apply mergePair_numbered. }
  apply (foldl_invariant
           (λ a : Merge * list Line, numberedFrom (lineNum st) a.1 a.2)).
  { intros ??. apply deviceOnly_numbered. }
  revert H1.
  apply (rfoldl_invariant
           (λ a : Merge * list Line, numberedFrom (lineNum st) a.1 a.2)).
  { intros ???. apply templateOnly_numbered. }
  by apply numberedFrom_start.
Qed.

Lemma contiguousIds_snoc bs n st ls action :
  contiguousIds bs n → numberedFrom (Z.of_nat n) st ls →
  contiguousIds (bs ++ [mkBlock action ls]) (n + length ls).
Proof.
  unfold contiguousIds, lineIds. intros Hbs (_ & _ & Hls & _).
  rewrite fmap_app, concat_app, fmap_app, Hbs. simpl.
  rewrite app_nil_r, Hls, seq_app, fmap_app. f_equal.
  apply list_eq. intros i. rewrite !list_lookup_fmap.
  destruct (decide (i < length ls)%nat).
  - rewrite !lookup_seq_lt by done. simpl. by rewrite Nat2Z.inj_add.
  - by rewrite !lookup_seq_ge by lia.
Qed.

Lemma od_get_set {K V} `{EqDecision K} (d : list (K * V)) k v :
  od_get (od_set d k v) k = Some v.
Proof.
  induction d as [|[k' v'] d IH]; simpl.
  - by rewrite decide_True.
  - case_decide; simpl; [by rewrite decide_True|]. by rewrite decide_False.
Qed.

Lemma generateStep_inv lineMatchings device noOfAttributes acc vw acc' :
  generateStep lineMatchings device noOfAttributes acc vw = Ok acc' →
  (∃ n, lineNum acc.1.1 = Z.of_nat n ∧ contiguousIds acc.1.2 n
        ∧ Forall (λ z, 0 ≤ z < lineNum acc.1.1) (newDeviceLines acc.1.1)) →
  ∃ n, lineNum acc'.1.1 = Z.of_nat n ∧ contiguousIds acc'.1.2 n
       ∧ Forall (λ z, 0 ≤ z < lineNum acc'.1.1) (newDeviceLines acc'.1.1).
Proof.
  destruct acc as [[st mergedBlocks] j]. simpl.
  intros Hstep (n & Hn & Hbs & Hdev).
  assert (numberedFrom (Z.of_nat n) st []) as Hstart
    by (rewrite <- Hn; apply numberedFrom_start; [lia|done]).
  assert (∀ st' ls action,
            numberedFrom (Z.of_nat n) st' ls →
            ∃ n', lineNum st' = Z.of_nat n'
                  ∧ contiguousIds (mergedBlocks ++ [mkBlock action ls]) n'
                  ∧ Forall (λ z, 0 ≤ z < lineNum st') (newDeviceLines st'))
    as Hblock.
  { intros st' ls action Hls. exists (n + length ls)%nat.
    split_and!; [|by eapply contiguousIds_snoc|].
    - destruct Hls as (_ & -> & _). lia.
    - by destruct Hls as (_ & _ & _ & ?). }
  destruct vw as [[v|] [b2|]]; simpl in Hstep.
  - apply rbind_Ok in Hstep as (matching & _ & Hstep).
    apply rbind_Ok in Hstep as ([ls st'] & Hmerge & [= <-]). simpl.
    apply Hblock. rewrite <- Hn.
    eapply MergeLines_numbered; [lia|done|done].
  - apply rbind_Ok in Hstep as ([st' ls] & Hfold & [= <-]). simpl.
    apply Hblock. revert Hfold.
    apply (rfoldl_invariant
             (λ a : Merge * list Line, numberedFrom (Z.of_nat n) a.1 a.2));
      [|done].
    intros ???. apply renumberTemplate_numbered.
  - destruct (foldl renumberDevice (st, []) (lines b2)) as [st' ls] eqn:Hfold.
    injection Hstep as <-. simpl. apply Hblock.
    change (numberedFrom (Z.of_nat n) (st', ls).1 (st', ls).2).
    rewrite <- Hfold.
    apply (foldl_invariant
             (λ a : Merge * list Line, numberedFrom (Z.of_nat n) a.1 a.2));
      [|done].
    intros ??. apply renumberDevice_numbered.
  - injection Hstep as <-. simpl. by exists n.
Qed.

(** X3: the blocks that [TemplateGenerator] returns carry the line
    identities 0, 1, 2, ... in order, whatever the alignment and the line
    matchings are, and the line list it stores for the new device holds
    only identities of these lines. *)
Theorem TemplateGenerator_identities
    (block1Alignment block2Alignment : list (option Block))
    (lineMatchings : list (list (nat * nat))) (pl : ParametersLinesMap)
    (device : string) (noOfAttributes : nat) (bs : list Block)
    (pl' : ParametersLinesMap) :
  TemplateGenerator block1Alignment block2Alignment lineMatchings pl device
                    noOfAttributes = Ok (bs, pl') →
  ∃ total deviceLines,
    contiguousIds bs total
    ∧ od_get (lineMapping pl') device = Some deviceLines
    ∧ Forall (λ z, 0 ≤ z < Z.of_nat total) deviceLines.
Proof.
  unfold TemplateGenerator. case_decide; [done|].
  intros ([[st mergedBlocks] j] & Hfold & [= <- <-])%rbind_Ok.
  assert (∃ n, lineNum st = Z.of_nat n ∧ contiguousIds mergedBlocks n
               ∧ Forall (λ z, 0 ≤ z < lineNum st) (newDeviceLines st))
    as (n & Hn & Hbs & Hdev).
  { revert Hfold.
    apply (rfoldl_invariant
             (λ a : Merge * list Block * nat,
                ∃ n, lineNum a.1.1 = Z.of_nat n ∧ contiguousIds a.1.2 n
                     ∧ Forall (λ z, 0 ≤ z < lineNum a.1.1)
                              (newDeviceLines a.1.1))).
    - intros a b a' Ha Hstep. by eapply generateStep_inv.
    - exists 0%nat. simpl. by split_and!; [| |constructor]. }
  exists n, (newDeviceLines st). split_and!; [done| |by rewrite <- Hn].
  apply od_get_set.
Qed.
End generator.

Lemma TemplateGenerator_identities_witness :
  ∃ bs pl' total deviceLines,
    PrefixList.TemplateGenerator
      [Some (mkBlock (Some "PERMIT") Examples.LS1); None]
      [Some (mkBlock (Some "PERMIT") Examples.LS2);
       Some (mkBlock (Some "DENY") [Examples.prefixLine 2 "12" "0"])]
      [[(0, 1)%nat]] Examples.bookkeeping "B" 11 = Ok (bs, pl')
    ∧ contiguousIds bs total
    ∧ od_get (lineMapping pl') "B" = Some deviceLines
    ∧ Forall (λ z, 0 ≤ z < Z.of_nat total) deviceLines.
Proof.
  destruct (PrefixList.TemplateGenerator
              [Some (mkBlock (Some "PERMIT") Examples.LS1); None]
              [Some (mkBlock (Some "PERMIT") Examples.LS2);
               Some (mkBlock (Some "DENY") [Examples.prefixLine 2 "12" "0"])]
              [[(0, 1)%nat]] Examples.bookkeeping "B" 11)
    as [[bs pl']|e] eqn:Hgen; [|vm_compute in Hgen; discriminate Hgen].
  destruct (TemplateGenerator_identities _ _ _ _ _ _ _ _ Hgen)
    as (total & deviceLines & H).
  by exists bs, pl', total, deviceLines.
Defined.
(** ** The pipeline: line identities from the parser to the minimizer *)

Section pipeline.
Context `{Library}.
Import PrefixList.

Lemma od_set_Forall {K V} `{EqDecision K} (P : K * V → Prop) d k v :
  Forall P d → P (k, v) → Forall P (od_set d k v).
Proof.
  induction d as [|[k' v'] d IH]; simpl; intros Hd Hkv; [by constructor|].
  apply Forall_cons in Hd as [??].
  case_decide; constructor; auto.
Qed.

Lemma od_get_Forall {K V} `{EqDecision K} (P : K * V → Prop) d k v :
  Forall P d → od_get d k = Some v → P (k, v).
Proof.
  induction d as [|[k' v'] d IH]; simpl; intros Hd; [done|].
  apply Forall_cons in Hd as [??].
  case_decide; [intros [= <-]; by subst|auto].
Qed.

Lemma PrefixList_init_numbered prefixListName device json format segment :
  PrefixList_init prefixListName device json format = Ok segment →
  numbered segment.
Proof.
  unfold PrefixList_init.
  intros (bs & [Hbs _]%createBlocks_encoded & [= <-])%rbind_Ok.
  exists (length json). by apply encodedFrom_lineIds.
Qed.

Lemma scanSegment_numbered device info pattern acc sj acc' :
  Forall numbered acc.1.1 →
  scanSegment device info pattern acc sj = Ok acc' →
  Forall numbered acc'.1.1.
Proof.
  destruct acc as [[segments lineCounts] scan]. simpl. intros Hall.
  unfold scanSegment. destruct (re_match pattern sj.1); [|by intros [= <-]].
  intros (parsedSegment & Hparse%PrefixList_init_numbered & Hscan)%rbind_Ok.
  destruct (nonEmpty parsedSegment); [|by injection Hscan as <-].
  destruct (checkJSONEquality _ _ _) as [exact equal].
  destruct equal; [by injection Hscan as <-|].
  apply rbind_Ok in Hscan as (totalLines & _ & [= <-]). simpl.
  apply Forall_app. by split; [|constructor].
Qed.

Lemma GetBlockSequence_numbered device info pattern scan segments lineCounts scan' :
  GetBlockSequence device info pattern scan = Ok (segments, lineCounts, scan') →
  Forall numbered segments.
Proof.
  unfold GetBlockSequence.
  destruct (od_get (di_sections info) "routeFilterLists") as [[|s ss]|];
    [by intros [= <- _ _]| |by intros [= <- _ _]].
  apply (rfoldl_invariant
           (λ a : list Segment * list Z * Scan (list PrefixJson),
              Forall numbered a.1.1)); [|done].
  intros a b a'. apply scanSegment_numbered.
Qed.

Section flavor.
Variable functions : MetaTemplater.Functions.
Hypothesis functions_GenerateTemplate :
  MetaTemplater.GenerateTemplate functions = TemplateGenerator.

Lemma collectSegments_numbered pattern devicesInfo scan lineCountMap scan' :
  MetaTemplater.collectSegments GetBlockSequence pattern devicesInfo scan
  = Ok (lineCountMap, scan') →
  Forall (λ cs : Z * list Segment, Forall numbered cs.2) lineCountMap.
Proof.
  unfold MetaTemplater.collectSegments.
  apply (rfoldl_invariant
           (λ a : list (Z * list Segment) * Scan (list PrefixJson),
              Forall (λ cs : Z * list Segment, Forall numbered cs.2) a.1));
    [|done].
  intros [lcm sc] [device info] [lcm' sc'] Hlcm.
  unfold MetaTemplater.collectDevice. simpl in *.
  intros ([[segments lineCounts] scan1] & Hget%GetBlockSequence_numbered
          & [= <- _])%rbind_Ok.
  assert (Forall (λ sl : Segment * Z, numbered sl.1)
                 (zip segments lineCounts)) as Hzip.
  { apply Forall_forall. intros [s l] Hin.
    apply elem_of_zip_l in Hin. rewrite Forall_forall in Hget. by apply Hget. }
  revert Hzip Hlcm. generalize (zip segments lineCounts). clear.
  intros l. revert lcm. induction l as [|[s c] l IH]; intros lcm Hl Hlcm;
    simpl; [done|].
  apply Forall_cons in Hl as [Hs Hl]. apply IH; [done|].
  apply od_set_Forall; [done|]. simpl. apply Forall_app. split; [|by constructor].
  destruct (od_get lcm c) as [ss|] eqn:Hc; simpl; [|done].
  by apply (od_get_Forall _ _ _ _ Hlcm Hc).
Qed.

Lemma segmentOrder_numbered lineCountMap :
  Forall (λ cs : Z * list Segment, Forall numbered cs.2) lineCountMap →
  Forall (λ ls : Z * Segment, numbered ls.2)
         (MetaTemplater.segmentOrder lineCountMap).
Proof.
  intros Hlcm. unfold MetaTemplater.segmentOrder.
  apply Forall_forall. intros [c s] ([n c'] & Hin & _)%list_elem_of_bind.
  apply list_elem_of_fmap in Hin as (s' & [= -> ->] & Hs). simpl in *.
  destruct (od_get lineCountMap c') as [ss|] eqn:Hc; simpl in Hs;
    [|by apply elem_of_nil in Hs].
  pose proof (od_get_Forall _ _ _ _ Hlcm Hc) as Hss. simpl in Hss.
  rewrite Forall_forall in Hss. by apply Hss.
Qed.

Lemma mergeSegments_numbered segments mt pl count :
  Forall (λ ls : Z * Segment, numbered ls.2) segments →
  MetaTemplater.mergeSegments functions segments = Ok (Some (mt, pl), count) →
  numbered mt.
Proof.
  intros Hall. unfold MetaTemplater.mergeSegments. intros Hfold.
  cut (match (Some (mt, pl), count).1 with
       | Some (mt', _) => numbered mt'
       | None => True
       end); [done|].
  revert Hfold.
  apply (rfoldl_invariant_in
           (λ a : option (Segment * ParametersLinesMap) * nat,
              match a.1 with
              | Some (mt', _) => numbered mt'
              | None => True
              end)); [|done].
  intros [[[mt1 pl1]|] c] [lc seg] a' Hin Ha; simpl.
  - intros ([[b1 b2] lm] & _ & ([bs pl2] & Hgen & [= <-])%rbind_Ok)%rbind_Ok.
    simpl. rewrite functions_GenerateTemplate in Hgen.
    unfold TemplateGenerator in Hgen. case_decide; [done|].
    apply rbind_Ok in Hgen as ([[st mergedBlocks] j] & Hfold & [= <- _]).
    assert (∃ n, lineNum st = Z.of_nat n ∧ contiguousIds mergedBlocks n
                 ∧ Forall (λ z, 0 ≤ z < lineNum st) (newDeviceLines st))
      as (n & _ & Hbs & _); [|by exists n].
    revert Hfold.
    apply (rfoldl_invariant
             (λ a : Merge * list Block * nat,
                ∃ n, lineNum a.1.1 = Z.of_nat n ∧ contiguousIds a.1.2 n
                     ∧ Forall (λ z, 0 ≤ z < lineNum a.1.1)
                              (newDeviceLines a.1.1))).
    + intros a b a'' Ha' Hstep. by eapply generateStep_inv.
    + exists 0%nat. simpl. by split_and!; [| |constructor].
  - intros [= <-]. simpl. rewrite Forall_forall in Hall.
    exact (Hall _ Hin).
Qed.
End flavor.

Lemma MinimizeParameters_partition mt pl noOfAttributes mt' pl' n :
  contiguousIds (blocks mt) n →
  MinimizeParameters mt pl noOfAttributes = Ok (mt', pl') →
  isPartition (predicates pl') n ∧ contiguousIds (blocks mt') n.
Proof.
  intros Hids. unfold MinimizeParameters.
  intros (lineParamMap & _ & (pl1 & _ & (common & _ & Hrest)%rbind_Ok)
            %rbind_Ok)%rbind_Ok.
  apply rbind_Ok in Hrest as ([mt2 pl2] & Herase & Hrest).
  apply rbind_Ok in Hrest as (totalLines & Hlast & Hrest).
  apply rbind_Ok in Hrest as (pl3 & Hgen & Hrest).
  apply rbind_Ok in Hrest as ([mt4 pl4] & Hsort & Hremap).
  assert (contiguousIds (blocks mt2) n) as Hids2.
  { revert Herase.
    apply (rfoldl_invariant
             (λ a : Segment * ParametersLinesMap, contiguousIds (blocks a.1) n));
      [|done].
    intros [mta pla] x [mtb plb] Ha. destruct x as [|r e]; [done|].
    intros Hx%ModifyErase_lineIds. unfold contiguousIds in *. simpl in *.
    by rewrite Hx. }
  apply predicateGenerator_partition in Hgen as (Hpart & _).
  rewrite (lastLineNumber_contiguous _ _ _ Hids2 Hlast) in Hpart.
  destruct (groupAndSortPredicates_partition _ _ _ _ _ Hids2 Hpart Hsort)
    as (Hpart4 & Hids4).
  apply RemapParameters_lineIds in Hremap as (Hlines & Hpreds).
  split; [by rewrite Hpreds|]. unfold contiguousIds in *. by rewrite Hlines.
Qed.

Lemma addExactRouters_predicates pl exactMap pl' sizes :
  addExactRouters pl exactMap = Ok (pl', sizes) →
  predicates pl' = predicates pl.
Proof.
  unfold addExactRouters.
  intros ([pl1 gs] & Hfold & [= <- _])%rbind_Ok. revert Hfold.
  apply (rfoldl_invariant
           (λ a : ParametersLinesMap * list nat,
              predicates a.1 = predicates pl)); [|done].
  intros [pla gsa] de [plb gsb] Ha. unfold addExactRouter.
  by intros (myMapping & _ & (myParams & _ & [= <- _])%rbind_Ok)%rbind_Ok.
Qed.

(** X4: in the prefix-list pipeline the hypothesis of the predicate
    partition always holds.  Whatever the devices hold, the meta-template
    that the two loops of [StructuredGeneralization] build carries the line
    identities 0 .. n-1 in order; and when the minimization and the
    folding in of the equal devices return, the line lists of the
    predicates partition 0 .. n-1, which are again the identities of the
    lines of the template. *)
Theorem generalize_numbered (functions : MetaTemplater.Functions)
    (patternString : string)
    (devicesInfo : list (string * DeviceInfo (list PrefixJson)))
    (scan scan' : Scan (list PrefixJson)) (metaTemplate : Segment)
    (pl : ParametersLinesMap) (templatingCount : nat) :
  isFlavor functions →
  MetaTemplater.generalize GetBlockSequence functions patternString
    devicesInfo scan = Ok (Some (metaTemplate, pl), templatingCount, scan') →
  ∃ n,
    contiguousIds (blocks metaTemplate) n
    ∧ ∀ mt pl' exactGroupSizes,
        MetaTemplater.finish functions metaTemplate pl scan'
        = Ok (mt, pl', exactGroupSizes) →
        isPartition (predicates pl') n ∧ contiguousIds (blocks mt) n.
Proof.
  intros Hflavor Hgeneralize.
  assert (MetaTemplater.GenerateTemplate functions = TemplateGenerator
          ∧ MetaTemplater.MinimizeParameters functions = MinimizeParameters)
    as [Hgen Hmin] by (by destruct Hflavor as [-> | ->]).
  unfold MetaTemplater.generalize in Hgeneralize.
  apply rbind_Ok in Hgeneralize as ([lineCountMap scan1] & Hcollect & Hrest).
  apply rbind_Ok in Hrest as (merged & Hmerge & [= -> ->]).
  apply collectSegments_numbered, segmentOrder_numbered in Hcollect.
  destruct (mergeSegments_numbered functions Hgen _ _ _ _ Hcollect Hmerge)
    as [n Hn].
  exists n. split; [done|].
  intros mt pl' sizes. unfold MetaTemplater.finish. rewrite Hmin.
  intros ([mt1 pl1] & Hminimize & Hexact)%rbind_Ok.
  apply rbind_Ok in Hexact as ([pl2 sz] & Hexact & [= <- <- _]).
  apply addExactRouters_predicates in Hexact. rewrite Hexact.
  by eapply MinimizeParameters_partition.
Qed.
End pipeline.

Lemma generalize_numbered_witness :
  let devicesInfo :=
    [Examples.deviceWith "A" [Examples.permit10; Examples.permit11];
     Examples.deviceWith "B" [Examples.permit10]] in
  isFlavor main.prefixListFunctions
  ∧ ∃ metaTemplate pl scan' mt pl' exactGroupSizes,
      MetaTemplater.generalize PrefixList.GetBlockSequence
        main.prefixListFunctions "X$" devicesInfo (mkScan ∅ ∅ [])
      = Ok (Some (metaTemplate, pl), 1%nat, scan')
      ∧ MetaTemplater.finish main.prefixListFunctions metaTemplate pl scan'
        = Ok (mt, pl', exactGroupSizes)
      ∧ contiguousIds (blocks metaTemplate) 2
      ∧ isPartition (predicates pl') 2 ∧ contiguousIds (blocks mt) 2.
Proof.
  intros devicesInfo.
  assert (isFlavor main.prefixListFunctions) as Hflavor by (by left).
  split; [exact Hflavor|].
  destruct (MetaTemplater.generalize PrefixList.GetBlockSequence
              main.prefixListFunctions "X$" devicesInfo (mkScan ∅ ∅ []))
    as [[[[[metaTemplate pl]|] count] scan']|e] eqn:Hgeneralize;
    [|vm_compute in Hgeneralize; discriminate Hgeneralize
     |vm_compute in Hgeneralize; discriminate Hgeneralize].
  assert (count = 1%nat) as ->.
  { pose proof Hgeneralize as Hg. vm_compute in Hg. by injection Hg as _ _ <-. }
  destruct (MetaTemplater.finish main.prefixListFunctions metaTemplate pl scan')
    as [[[mt pl'] sizes]|e] eqn:Hfinish.
  2: { exfalso. vm_compute in Hgeneralize. injection Hgeneralize as <- <- <-.
       vm_compute in Hfinish. discriminate Hfinish. }
  destruct (generalize_numbered (H := Reference.library) _ _ _ _ _ _ _ _
              Hflavor Hgeneralize) as (n & Hn & Hfin).
  assert (n = 2%nat) as ->.
  { pose proof Hgeneralize as Hg. vm_compute in Hg. injection Hg as <- _ _.
    unfold contiguousIds in Hn. apply (f_equal length) in Hn.
    rewrite (length_fmap _ (seq 0 n)), length_seq in Hn.
    vm_compute in Hn. done. }
  exists metaTemplate, pl, scan', mt, pl', sizes.
  split_and!; [done..| |]; by apply (Hfin _ _ _ Hfinish).
Defined.
(** ** The block aligner: the traceback *)

Section traceback.
Import MetaTemplater.
Variable functions : Functions.

Lemma bothPresent_snoc a1 a2 x y :
  length a1 = length a2 →
  bothPresent (a1 ++ [x]) (a2 ++ [y])
  = (bothPresent a1 a2 + if decide (is_Some x ∧ is_Some y) then 1 else 0)%nat.
Proof.
  intros Hlen. unfold bothPresent.
  rewrite zip_with_app by done. simpl.
  rewrite filter_app, length_app. f_equal.
  rewrite filter_cons. simpl. by case_decide.
Qed.

Lemma bothPresent_pad_l a1 a2 pad k :
  length a1 = length a2 →
  bothPresent (a1 ++ replicate k None) (a2 ++ pad) = bothPresent a1 a2.
Proof.
  intros Hlen. unfold bothPresent.
  rewrite zip_with_app by done. rewrite filter_app, length_app.
  rewrite (filter_none _ (zip_with pair (replicate k None) pad)); [simpl; lia|].
  intros [x y] Hin [Hx _]. apply elem_of_zip_l in Hin.
  apply elem_of_replicate in Hin as [-> _]. by destruct Hx.
Qed.

Lemma bothPresent_pad_r a1 a2 pad k :
  length a1 = length a2 →
  bothPresent (a1 ++ pad) (a2 ++ replicate k None) = bothPresent a1 a2.
Proof.
  intros Hlen. unfold bothPresent.
  rewrite zip_with_app by done. rewrite filter_app, length_app.
  rewrite (filter_none _ (zip_with pair pad (replicate k None))); [simpl; lia|].
  intros [x y] Hin [_ Hy]. apply elem_of_zip_r in Hin.
  apply elem_of_replicate in Hin as [-> _]. by destruct Hy.
Qed.

Lemma zip_reverse {A B} (l : list A) (k : list B) :
  length l = length k → zip (reverse l) (reverse k) = reverse (zip l k).
Proof.
  revert k. induction l as [|x l IH]; intros [|y k] Hlen; simplify_eq/=; [done|].
  rewrite !reverse_cons.
  rewrite zip_with_app by (by rewrite !length_reverse).
  by rewrite IH.
Qed.

Lemma bothPresent_reverse a1 a2 :
  length a1 = length a2 →
  bothPresent (reverse a1) (reverse a2) = bothPresent a1 a2.
Proof.
  intros Hlen. unfold bothPresent.
  by rewrite zip_reverse, filter_reverse, length_reverse.
Qed.

Lemma omap_reverse {A B} (f : A → option B) (l : list A) :
  omap f (reverse l) = reverse (omap f l).
Proof.
  induction l as [|x l IH]; [done|].
  rewrite reverse_cons, omap_app, IH. simpl.
  destruct (f x); simpl; by rewrite ?reverse_cons, ?app_nil_r.
Qed.

Lemma reverse_drop_pred {A} (l : list A) i x :
  l !! i = Some x → reverse (drop i l) = reverse (drop (S i) l) ++ [x].
Proof. intros Hx. by rewrite (drop_S _ _ _ Hx), reverse_cons. Qed.

Lemma cellRule_pointer diag up left subst gap1 gap2 matching c :
  cellRule diag up left subst gap1 gap2 matching c →
  pointer c = 1 ∨ pointer c = 2 ∨ pointer c = 3.
Proof.
  unfold cellRule. cbv zeta. intros (_ & H1 & H3 & H2).
  destruct (decide (score diag + subst ≤ score up + gap1)).
  - destruct (decide (score diag + subst ≤ score left + gap2)).
    + left. by apply H1.
    + right; left. apply H2. lia.
  - destruct (decide (score up + gap1 ≤ score left + gap2)).
    + right; right. apply H3. lia.
    + right; left. apply H2. lia.
Qed.

(** One iteration of the traceback loop. *)
Lemma traceback_S fuel dp blocks1 blocks2 t :
  traceback (S fuel) dp blocks1 blocks2 t
  = if decide (tr_i t = 0 ∨ tr_j t = 0)%nat then Ok t
    else
      let c := cell dp (tr_i t) (tr_j t) in
      if decide (pointer c = 1) then
        b1 ← listitem blocks1 (tr_i t - 1);
        b2 ← listitem blocks2 (tr_j t - 1);
        traceback fuel dp blocks1 blocks2
          (mkTrace (tr_i t - 1) (tr_j t - 1) (tr_pos t - 1)
                   (block1Alignment t ++ [Some b1])
                   (block2Alignment t ++ [Some b2])
                   (lineMatchings t ++ [matchedLines c]))
      else if decide (pointer c = 2) then
        b2 ← listitem blocks2 (tr_j t - 1);
        traceback fuel dp blocks1 blocks2
          (mkTrace (tr_i t) (tr_j t - 1) (tr_pos t - 1)
                   (block1Alignment t ++ [None])
                   (block2Alignment t ++ [Some b2])
                   (lineMatchings t))
      else if decide (pointer c = 3) then
        b1 ← listitem blocks1 (tr_i t - 1);
        traceback fuel dp blocks1 blocks2
          (mkTrace (tr_i t - 1) (tr_j t) (tr_pos t - 1)
                   (block1Alignment t ++ [Some b1])
                   (block2Alignment t ++ [None])
                   (lineMatchings t))
      else Raise ValueError.
Proof. done. Qed.

(** The loop has ended after [i + j] iterations: more fuel changes
    nothing. *)
Lemma traceback_fuel dp blocks1 blocks2 fuel :
  ∀ t, (tr_i t + tr_j t ≤ fuel)%nat →
  traceback (S fuel) dp blocks1 blocks2 t = traceback fuel dp blocks1 blocks2 t.
Proof.
  induction fuel as [|fuel IH]; intros t Hfuel.
  - rewrite traceback_S. rewrite decide_True by lia. done.
  - rewrite (traceback_S (S fuel)), (traceback_S fuel).
    case_decide as Hend; [done|]. cbv zeta.
    repeat case_decide; try done;
      repeat (destruct (listitem _ _); cbn [mbind result_bind]; [|done]);
      apply IH; simpl; lia.
Qed.

Lemma traceback_enough dp blocks1 blocks2 fuel k :
  ∀ t, (tr_i t + tr_j t ≤ fuel)%nat →
  traceback (fuel + k) dp blocks1 blocks2 t = traceback fuel dp blocks1 blocks2 t.
Proof.
  intros t Hfuel. induction k as [|k IH]; [by rewrite Nat.add_0_r|].
  rewrite Nat.add_succ_r, traceback_fuel by lia. done.
Qed.

Lemma traceback_spec dp blocks1 blocks2 :
  pointersSet dp (length blocks1) (length blocks2) →
  ∀ fuel t, traceInv blocks1 blocks2 t → (tr_i t + tr_j t ≤ fuel)%nat →
  ∃ t', traceback fuel dp blocks1 blocks2 t = Ok t'
        ∧ traceInv blocks1 blocks2 t'
        ∧ (tr_i t' = 0 ∨ tr_j t' = 0)%nat.
Proof.
  intros Hptr. induction fuel as [|fuel IH]; intros t Hinv Hfuel.
  { exists t. split_and!; [done|done|lia]. }
  rewrite traceback_S. case_decide as Hend; [by exists t|].
  destruct t as [i j pos a1 a2 lm].
  destruct Hinv as (Hi & Hj & Hpos & Hlen & Hlen2 & Ha1 & Ha2 & Hlm).
  simpl in *. destruct i as [|i]; [lia|]. destruct j as [|j]; [lia|].
  simpl. rewrite !Nat.sub_0_r.
  destruct (lookup_lt_is_Some_2 blocks1 i) as [b1 Hb1]; [lia|].
  destruct (lookup_lt_is_Some_2 blocks2 j) as [b2 Hb2]; [lia|].
  unfold listitem. rewrite Hb1, Hb2. cbn [mbind result_bind].
  destruct (Hptr i j) as [Hp|[Hp|Hp]]; [lia|lia|..]; rewrite Hp; simpl.
  - apply IH; [|simpl; lia]. unfold traceInv. simpl.
    rewrite !length_app, !omap_app, Ha1, Ha2. simpl.
    rewrite (reverse_drop_pred _ _ _ Hb1), (reverse_drop_pred _ _ _ Hb2).
    rewrite bothPresent_snoc by done.
    rewrite decide_True by (split; by eexists).
    split_and!; try done; lia.
  - apply IH; [|simpl; lia]. unfold traceInv. simpl.
    rewrite !length_app, !omap_app, Ha1, Ha2. simpl.
    rewrite (reverse_drop_pred _ _ _ Hb2), app_nil_r.
    rewrite bothPresent_snoc by done.
    rewrite decide_False by (intros [[? [=]] _]).
    split_and!; try done; lia.
  - apply IH; [|simpl; lia]. unfold traceInv. simpl.
    rewrite !length_app, !omap_app, Ha1, Ha2. simpl.
    rewrite (reverse_drop_pred _ _ _ Hb1), app_nil_r.
    rewrite bothPresent_snoc by done.
    rewrite decide_False by (intros [_ [? [=]]]).
    split_and!; try done; lia.
Qed.

Lemma padAlignment_spec bs :
  ∀ k i alignment,
  (i ≤ length bs)%nat → (i ≤ k)%nat →
  omap id alignment = reverse (drop i bs) →
  ∃ pad,
    padAlignment k bs i alignment = Ok (alignment ++ pad)
    ∧ length pad = k
    ∧ omap id (alignment ++ pad) = reverse bs
    ∧ (i = 0%nat → pad = replicate k None).
Proof.
  induction k as [|k IH]; intros i alignment Hi Hk Hal; simpl.
  { assert (i = 0%nat) as -> by lia. exists []. rewrite app_nil_r.
    by split_and!. }
  case_decide as Hpos.
  - destruct i as [|i]; [lia|]. simpl. rewrite Nat.sub_0_r.
    destruct (lookup_lt_is_Some_2 bs i) as [b Hb]; [lia|].
    unfold listitem. rewrite Hb. cbn [mbind result_bind].
    destruct (IH i (alignment ++ [Some b])) as (pad & Hrun & Hlen & Hall & _);
      [lia|lia| |].
    { rewrite omap_app, Hal. simpl. by rewrite (reverse_drop_pred _ _ _ Hb). }
    exists (Some b :: pad). rewrite Hrun, <- !app_assoc in *. simpl.
    split_and!; [done|by rewrite Hlen|done|done].
  - assert (i = 0%nat) as -> by lia.
    destruct (IH 0%nat (alignment ++ [None])) as (pad & Hrun & Hlen & Hall & Hpad);
      [lia|lia| |].
    { rewrite omap_app, Hal. simpl. by rewrite app_nil_r. }
    exists (None :: pad). rewrite Hrun, <- !app_assoc in *. simpl.
    split_and!; [done|by rewrite Hlen|done|]. intros _. by rewrite Hpad.
Qed.

(** X5: when the block matcher raises on no pair of blocks,
    [AlignSequences] returns; the traceback loop has ended within the
    [m + n] iterations it can take (more would change nothing) and never
    meets an undefined pointer; both alignments have [m + n + 1] entries
    and are the two block sequences, in order, with gaps in between; and
    there is exactly one line matching for every position that holds a
    block of each. *)
Theorem AlignSequences_alignment (bs1 bs2 : Segment) (pl : ParametersLinesMap) :
  scoresDefined functions bs1 bs2 pl →
  ∃ dp a1 a2 matchings,
    fillMatrix functions bs1 bs2 pl = Ok dp
    ∧ (∀ extra,
         traceback (length (blocks bs1) + length (blocks bs2) + extra) dp
           (blocks bs1) (blocks bs2)
           (mkTrace (length (blocks bs1)) (length (blocks bs2))
              (Z.of_nat (length (blocks bs1) + length (blocks bs2))) [] [] [])
         = traceback (length (blocks bs1) + length (blocks bs2)) dp
             (blocks bs1) (blocks bs2)
             (mkTrace (length (blocks bs1)) (length (blocks bs2))
                (Z.of_nat (length (blocks bs1) + length (blocks bs2))) [] [] []))
    ∧ AlignSequences functions bs1 bs2 pl = Ok (a1, a2, matchings)
    ∧ isAlignment (blocks bs1) (blocks bs2) a1 a2 matchings.
Proof.
  intros Htotal. unfold AlignSequences.
  set (m := length (blocks bs1)). set (n := length (blocks bs2)).
  assert (∃ dp, fillMatrix functions bs1 bs2 pl = Ok dp
                ∧ pointersSet dp m n) as (dp & Hdp & Hptr).
  { unfold fillMatrix. fold m n.
    set (dp2 := foldl (firstRow functions) _ _).
    assert (matrixDims dp2 m n) as Hdims.
    { apply foldl_dims; [intros; by apply setCell_dims|].
      apply foldl_dims; [intros; by apply setCell_dims|].
      apply initMatrix_dims. }
    destruct (fillRows_spec functions (parameterDistribution pl) (blocks bs1)
                (blocks bs2) m n eq_refl eq_refl Htotal dp2 Hdims (blocks bs1))
      as (dp & Hrun & _ & Hbefore); [done|].
    exists dp. split; [done|]. intros i j Hi Hj.
    destruct (lookup_lt_is_Some_2 (blocks bs1) i) as [b1 Hb1]; [done|].
    destruct (lookup_lt_is_Some_2 (blocks bs2) j) as [b2 Hb2]; [done|].
    destruct (Hbefore i j b1 b2 Hb1 Hb2) as (subst & matching & _ & Hrule);
      [fold m; lia|].
    by eapply cellRule_pointer. }
  rewrite Hdp. cbn [mbind result_bind].
  set (t0 := mkTrace m n (Z.of_nat (m + n)) [] [] []).
  destruct (traceback_spec dp (blocks bs1) (blocks bs2) Hptr (m + n) t0)
    as (t & Htrace & Hinv & Hend).
  { unfold traceInv, t0. simpl. unfold m, n.
    rewrite !drop_all. split_and!; try done; lia. }
  { simpl. lia. }
  rewrite Htrace. cbn [mbind result_bind].
  destruct Hinv as (Hi & Hj & Hpos & Hlen & Hlen2 & Ha1 & Ha2 & Hlm).
  fold m n in Hi, Hj, Hlen.
  destruct (padAlignment_spec (blocks bs1) (Z.to_nat (tr_pos t + 1)) (tr_i t)
              (block1Alignment t)) as (pad1 & Hpad1 & Hl1 & Hall1 & Hnone1);
    [done|lia|done|].
  destruct (padAlignment_spec (blocks bs2) (Z.to_nat (tr_pos t + 1)) (tr_j t)
              (block2Alignment t)) as (pad2 & Hpad2 & Hl2 & Hall2 & Hnone2);
    [done|lia|done|].
  rewrite Hpad1. cbn [mbind result_bind]. rewrite Hpad2. cbn [mbind result_bind].
  exists dp, (reverse (block1Alignment t ++ pad1)),
         (reverse (block2Alignment t ++ pad2)), (reverse (lineMatchings t)).
  split_and!; [done| |done|].
  { intros extra. apply traceback_enough. simpl. lia. }
  unfold isAlignment. fold m n.
  rewrite !length_reverse, !length_app, !omap_reverse, Hall1, Hall2.
  rewrite !reverse_involutive, Hl1, Hl2, Hlen2.
  rewrite bothPresent_reverse by (rewrite !length_app; lia).
  split_and!; [lia|lia|done|done|].
  rewrite Hlm. destruct Hend as [Hz|Hz].
  - rewrite (Hnone1 Hz). by rewrite bothPresent_pad_l.
  - rewrite (Hnone2 Hz). by rewrite bothPresent_pad_r.
Qed.
End traceback.

Lemma AlignSequences_alignment_witness :
  scoresDefined (@main.prefixListFunctions Reference.library)
    Examples.template Examples.device Examples.bookkeeping
  ∧ ∃ a1 a2 matchings,
      MetaTemplater.AlignSequences (@main.prefixListFunctions Reference.library)
        Examples.template Examples.device Examples.bookkeeping
      = Ok (a1, a2, matchings)
      ∧ isAlignment (blocks Examples.template) (blocks Examples.device)
                    a1 a2 matchings.
Proof.
  assert (scoresDefined (@main.prefixListFunctions Reference.library)
            Examples.template Examples.device Examples.bookkeeping) as Hdef.
  { intros b1 b2 H1 H2.
    repeat (apply elem_of_cons in H1 as [->|H1]);
      try (by apply elem_of_nil in H1);
      repeat (apply elem_of_cons in H2 as [->|H2]);
      try (by apply elem_of_nil in H2);
      eexists; vm_compute; reflexivity. }
  split; [exact Hdef|].
  destruct (AlignSequences_alignment _ _ _ _ Hdef)
    as (dp & a1 & a2 & matchings & _ & _ & Halign & His).
  by exists a1, a2, matchings.
Defined.
(** ** The minimizer: parameters with a common value *)

Section common.

Lemma od_get_None_fst {K V} `{EqDecision K} (d : list (K * V)) k :
  od_get d k = None ↔ k ∉ d.*1.
Proof.
  induction d as [|[k' v'] d IH]; simpl; [set_solver|].
  case_decide; [set_solver|]. rewrite IH. set_solver.
Qed.

Lemma od_set_fst {K V} `{EqDecision K} (d : list (K * V)) k v :
  is_Some (od_get d k) → (od_set d k v).*1 = d.*1.
Proof.
  induction d as [|[k' v'] d IH]; simpl; [by intros [? [=]]|].
  case_decide; [by subst|]. intros Hk. by rewrite fmap_cons, IH.
Qed.

Lemma od_pop_get {K V} `{EqDecision K} (d : list (K * V)) k q :
  is_Some (od_get (od_pop d k) q) → is_Some (od_get d q).
Proof.
  induction d as [|[k' v'] d IH]; simpl; [done|].
  case_decide.
  - intros Hq. case_decide; [by eexists|done].
  - simpl. case_decide; [by eexists|auto].
Qed.

Lemma od_set_get {K V} `{EqDecision K} (d : list (K * V)) k v q :
  is_Some (od_get d k) →
  is_Some (od_get (od_set d k v) q) → is_Some (od_get d q).
Proof.
  intros Hk Hq. destruct (od_get d q) eqn:Hd; [by eexists|].
  apply od_get_None_fst in Hd. rewrite <- (od_set_fst d k v Hk) in Hd.
  apply od_get_None_fst in Hd. rewrite Hd in Hq. by destruct Hq.
Qed.

Lemma od_pop_fst_sublist {K V} `{EqDecision K} (d : list (K * V)) k :
  (od_pop d k).*1 `sublist_of` d.*1.
Proof.
  induction d as [|[k' v'] d IH]; simpl; [done|].
  case_decide; simpl; [by apply sublist_cons|by apply sublist_skip].
Qed.

Lemma od_pop_gone {K V} `{EqDecision K} (d : list (K * V)) k :
  NoDup d.*1 → od_get (od_pop d k) k = None.
Proof.
  induction d as [|[k' v'] d IH]; simpl; [done|].
  intros [Hk' Hd]%NoDup_cons. case_decide.
  - subst. by apply od_get_None_fst.
  - simpl. rewrite decide_False by done. auto.
Qed.

(** One step of the loop over the parameters of a device: no key is
    added, the keys stay distinct, and a parameter whose value differs
    from that of [presentParam] is removed. *)
Lemma compatParam_get presentParam data cs pv q :
  is_Some (od_get (compatParam presentParam data cs pv) q) →
  is_Some (od_get cs q).
Proof.
  unfold compatParam. case_decide; [|done].
  destruct (data !! presentParam) as [v|]; [|done].
  destruct (od_get cs pv.1) as [n|] eqn:Hn.
  - case_decide; [|apply od_pop_get]. apply od_set_get. by eexists.
  - apply od_pop_get.
Qed.

Lemma compatParam_NoDup presentParam data cs pv :
  NoDup cs.*1 → NoDup (compatParam presentParam data cs pv).*1.
Proof.
  intros Hcs. unfold compatParam. case_decide; [|done].
  destruct (data !! presentParam) as [v|]; [|done].
  assert (NoDup (od_pop cs pv.1).*1) as Hpop
    by (eapply sublist_NoDup; [done|apply od_pop_fst_sublist]).
  destruct (od_get cs pv.1) as [n|] eqn:Hn; [|done].
  case_decide; [|done]. rewrite od_set_fst; [done|by eexists].
Qed.

Lemma compatParam_differ presentParam data cs pv v :
  NoDup cs.*1 → pv.1 ≠ presentParam →
  data !! presentParam = Some v → v ≠ pv.2 →
  od_get (compatParam presentParam data cs pv) pv.1 = None.
Proof.
  intros Hcs Hne Hv Hdiff. unfold compatParam.
  rewrite decide_True by done. rewrite Hv.
  destruct (od_get cs pv.1) as [n|] eqn:Hn.
  - rewrite decide_False by done. by apply od_pop_gone.
  - by apply od_pop_gone.
Qed.

Lemma compatParams_get presentParam data l :
  ∀ cs q, is_Some (od_get (foldl (compatParam presentParam data) cs l) q) →
          is_Some (od_get cs q).
Proof.
  induction l as [|pv l IH]; intros cs q; simpl; [done|].
  intros Hq%IH. by eapply compatParam_get.
Qed.

Lemma compatParams_NoDup presentParam data l :
  ∀ cs, NoDup cs.*1 → NoDup (foldl (compatParam presentParam data) cs l).*1.
Proof.
  induction l as [|pv l IH]; intros cs Hcs; simpl; [done|].
  by apply IH, compatParam_NoDup.
Qed.

Lemma compatParams_agree presentParam data l :
  ∀ cs q v w,
  NoDup cs.*1 → q ≠ presentParam →
  data !! presentParam = Some v → (q, w) ∈ l →
  is_Some (od_get (foldl (compatParam presentParam data) cs l) q) →
  v = w.
Proof.
  induction l as [|pv l IH]; intros cs q v w Hcs Hne Hv Hin Hq;
    [by apply elem_of_nil in Hin|].
  simpl in Hq. apply elem_of_cons in Hin as [<-|Hin].
  - destruct (decide (v = w)) as [|Hdiff]; [done|].
    apply compatParams_get in Hq.
    pose proof (compatParam_differ presentParam data cs (q, w) v
                  Hcs Hne Hv Hdiff) as Hgone.
    simpl in Hgone. rewrite Hgone in Hq. by destruct Hq.
  - eapply (IH (compatParam presentParam data cs pv)); [|done..].
    by apply compatParam_NoDup.
Qed.

(** The loop over the devices. *)
Lemma compatDevices_agree presentParam devices :
  ∀ cs q device data v w,
  NoDup cs.*1 → q ≠ presentParam →
  (device, data) ∈ devices →
  data !! presentParam = Some v → data !! q = Some w →
  is_Some (od_get (foldl (compatDevice presentParam) cs devices) q) →
  v = w.
Proof.
  induction devices as [|dd devices IH]; intros cs q device data v w
    Hcs Hne Hin Hv Hw Hq; [by apply elem_of_nil in Hin|].
  simpl in Hq.
  assert (NoDup (compatDevice presentParam cs dd).*1) as Hcs'
    by (by apply compatParams_NoDup).
  apply elem_of_cons in Hin as [<-|Hin].
  - assert (is_Some (od_get (compatDevice presentParam cs (device, data)) q))
      as Hq'.
    { clear -Hq. revert Hq. generalize (compatDevice presentParam cs (device, data)).
      induction devices as [|dd devices IH]; intros cs'; simpl; [done|].
      intros Hq%IH. by eapply compatParams_get. }
    eapply (compatParams_agree presentParam data _ cs q v w); [done..| |done].
    by apply elem_of_map_to_list.
  - by eapply (IH _ q device data v w Hcs').
Qed.

Lemma paramName_inj j k : paramName j = paramName k → j = k.
Proof.
  unfold paramName. intros [= Hjk].
  change ("" +:+ pretty j) with (pretty j) in Hjk.
  change ("" +:+ pretty k) with (pretty k) in Hjk.
  by apply (inj pretty) in Hjk.
Qed.

Lemma compatInit_NoDup maxParam i : NoDup (compatInit maxParam i).*1.
Proof.
  unfold compatInit. rewrite <- list_fmap_compose.
  apply NoDup_fmap_2.
  - intros j k Hjk. simpl in Hjk. by apply paramName_inj.
  - apply NoDup_filter, NoDup_seq.
Qed.

Lemma od_get_elem {K V} `{EqDecision K} (d : list (K * V)) k v :
  od_get d k = Some v → (k, v) ∈ d.
Proof.
  induction d as [|[k' v'] d IH]; simpl; [done|].
  case_decide; [intros [= <-]; subst; set_solver|]. set_solver.
Qed.

Lemma agree_sym pl p q : agree pl p q → agree pl q p.
Proof. intros Hpq device data v w Hd Hv Hw. symmetry. by eapply Hpq. Qed.

Lemma agree_refl pl p : agree pl p p.
Proof. intros device data v w _ Hv Hw. congruence. Qed.

(** A parameter that is left in the compatible set of another has the
    same value on every device that has both. *)
Lemma paramCompatableSets_agree pl p others q :
  od_get (paramCompatableSets pl) p = Some others →
  is_Some (od_get others q) → agree pl p q.
Proof.
  intros Hp%od_get_elem Hq. unfold paramCompatableSets in Hp.
  apply list_elem_of_fmap in Hp as (i & [= -> ->] & _).
  destruct (decide (q = paramName i)) as [->|Hne]; [apply agree_refl|].
  intros device data v w Hdevice Hv Hw.
  eapply (compatDevices_agree (paramName i) (map_to_list (parameters pl)));
    [apply compatInit_NoDup|done| |done..].
  by apply elem_of_map_to_list.
Qed.

(** X6: the parameters that [commonValueParams] puts in one list have the
    same value on every device that has both, so replacing them by the
    first loses no value; every list has at least two parameters and no
    parameter is in two lists or twice in one. *)
Theorem commonValueParams_sound (pl : ParametersLinesMap)
    (common : list (list pyval)) :
  commonValueParams pl = Ok common →
  Forall (λ g, pairwiseAgree pl g ∧ (2 ≤ length g)%nat) common
  ∧ NoDup (concat common).
Proof.
  unfold commonValueParams.
  destruct (rfoldl _ _ _) as [[common' D0]|e] eqn:Hfold; [|done].
  intros [= <-].
  cut ((∀ x, x ∈ concat common' → x ∈ D0)
       ∧ NoDup (concat common')
       ∧ Forall (λ g, pairwiseAgree pl g ∧ (2 ≤ length g)%nat) common');
    [naive_solver|].
  revert Hfold.
  apply (rfoldl_invariant
           (λ a : list (list pyval) * gset pyval,
              (∀ x, x ∈ concat a.1 → x ∈ a.2)
              ∧ NoDup (concat a.1)
              ∧ Forall (λ g, pairwiseAgree pl g ∧ (2 ≤ length g)%nat) a.1));
    [|split_and!; [set_solver|constructor|constructor]].
  clear. intros [common D] pc [common' D'] (Hin & Hnd & Hall). simpl in *.
  unfold commonParam. case_decide as Hfresh; [|by intros [= <- <-]].
  intros ([svp D1] & Hinner & Hout)%rbind_Ok.
  assert (D ⊆ D1 ∧ (∀ x, x ∈ svp → x ∈ D1 ∧ x ∉ D) ∧ NoDup svp
          ∧ pairwiseAgree pl svp) as (HD & Hsvp & Hnd1 & Hagree).
  { revert Hinner.
    apply (rfoldl_invariant
             (λ a : list pyval * gset pyval,
                D ⊆ a.2 ∧ (∀ x, x ∈ a.1 → x ∈ a.2 ∧ x ∉ D) ∧ NoDup a.1
                ∧ pairwiseAgree pl a.1)).
    - intros [s0 d0] cn [s1 d1] (Hd0 & Hs0 & Hnd0 & Hag0). simpl in *.
      unfold commonCandidate.
      destruct (decide (0 < cn.2)%nat); [|by intros [= <- <-]].
      intros (others & Hothers & Hstep)%rbind_Ok.
      destruct (forallb _ s0 && bool_decide (cn.1 ∉ d0)) eqn:Hadd;
        [|by injection Hstep as <- <-].
      injection Hstep as <- <-.
      apply andb_true_iff in Hadd as [Hcompat Hnew].
      apply bool_decide_eq_true in Hnew.
      rewrite forallb_forall in Hcompat.
      unfold od_getitem in Hothers.
      destruct (od_get (paramCompatableSets pl) cn.1) as [o|] eqn:Ho; [|done].
      injection Hothers as ->.
      assert (∀ p, p ∈ s0 → agree pl cn.1 p) as Hcn.
      { intros p Hp. eapply paramCompatableSets_agree; [done|].
        eapply bool_decide_eq_true_1, Hcompat.
        by apply list_elem_of_In. }
      split_and!.
      + set_solver.
      + intros x [Hx|Hx%list_elem_of_singleton]%elem_of_app; [set_solver|].
        subst x. set_solver.
      + apply NoDup_app. split_and!; [done| |apply NoDup_singleton].
        intros x Hx Hx'%list_elem_of_singleton. subst x.
        apply Hnew. by apply Hs0.
      + intros p q [Hp|Hp%list_elem_of_singleton]%elem_of_app
                   [Hq|Hq%list_elem_of_singleton]%elem_of_app; subst.
        * by apply Hag0.
        * by apply agree_sym, Hcn.
        * by apply Hcn.
        * apply agree_refl.
    - simpl. split_and!; [set_solver| |apply NoDup_singleton|].
      + intros x Hx%list_elem_of_singleton. subst x. set_solver.
      + intros p q Hp%list_elem_of_singleton Hq%list_elem_of_singleton.
        subst. apply agree_refl. }
  case_decide; injection Hout as <- <-; simpl.
  - rewrite concat_app. simpl. rewrite app_nil_r. split_and!.
    + intros x [Hx|Hx]%elem_of_app; [set_solver|by apply Hsvp].
    + apply NoDup_app. split_and!; [done| |done].
      intros x Hx Hx'. apply Hsvp in Hx' as [_ Hx']. by apply Hx', Hin.
    + apply Forall_app. split; [done|]. repeat constructor; [done|lia].
  - split_and!; [set_solver|done|done].
Qed.
End common.

Lemma commonValueParams_sound_witness :
  commonValueParams Examples.threeParameters = Ok [[paramName 0; paramName 1]]
  ∧ Forall (λ g, pairwiseAgree Examples.threeParameters g ∧ (2 ≤ length g)%nat)
           [[paramName 0; paramName 1]]
  ∧ NoDup (concat [[paramName 0; paramName 1]]).
Proof.
  assert (commonValueParams Examples.threeParameters
          = Ok [[paramName 0; paramName 1]]) as Hcommon
    by (vm_compute; reflexivity).
  split; [exact Hcommon|].
  exact (commonValueParams_sound _ _ Hcommon).
Defined.
